(** * tiny_web_nav_agent: the agent control loop, embedded and verified

    A shallow embedding of [agent.py] (action parser, image trimming, the
    run loop) and of the reasoning extraction of [save_results.py]; of the
    [Browser] class of [browser.py] over the calls it makes to Playwright;
    of the files [save_results.py] writes; and of the scripts [run.py] and
    [interactive.py]. The model, Playwright, the file system and the
    console are the world outside, reached through calls that may raise.
    Floating-point arithmetic is outside the model: the pixel of a
    coordinate is a parameter of the [Browser] class.

    Text is a [string] of 8-bit characters read as the code points 0..255;
    the character classes of Python ([str.isspace], the [\w] and [\s] of
    [re], [str.lower]) are written out for exactly those code points.
    Python integers are [Z]; [int()] has the limit of 4300 digits that the
    interpreter sets by default. *)

From Stdlib Require Import String Ascii List ZArith Lia Bool Arith.
From Stdlib Require Import DecimalString DecimalZ.
From Stdlib Require Import Strings.Byte NArith.
Import ListNotations.
Open Scope list_scope.
Open Scope string_scope.

(* ================================================================== *)
(** ** Python's built-in string operations *)
(* ================================================================== *)

Module Py.

Definition code (c : ascii) : N := N_of_ascii c.

Definition between (lo hi : N) (c : ascii) : bool :=
  ((lo <=? code c) && (code c <=? hi))%N.

(** [str.isspace] on one character: the set [str.strip()] removes and
    [\s] matches. *)
Definition is_space (c : ascii) : bool :=
  between 9 13 c || between 28 32 c || (code c =? 133)%N || (code c =? 160)%N.

Definition is_digit (c : ascii) : bool := between 48 57 c.

(** [\w] of [re] on a [str] pattern: alphanumeric or underscore. *)
Definition is_word (c : ascii) : bool :=
  is_digit c || between 65 90 c || (code c =? 95)%N || between 97 122 c
  || (code c =? 170)%N || between 178 179 c || (code c =? 181)%N
  || between 185 186 c || between 188 190 c
  || between 192 214 c || between 216 246 c || between 248 255 c.

(** [str.lower] on one character. *)
Definition lower_char (c : ascii) : ascii :=
  if between 65 90 c || (between 192 222 c && negb (code c =? 215)%N)
  then ascii_of_N (code c + 32) else c.

Fixpoint lower (s : string) : string :=
  match s with
  | EmptyString => EmptyString
  | String c r => String (lower_char c) (lower r)
  end.

Fixpoint lstrip (p : ascii -> bool) (s : string) : string :=
  match s with
  | EmptyString => EmptyString
  | String c r => if p c then lstrip p r else s
  end.

Fixpoint rstrip (p : ascii -> bool) (s : string) : string :=
  match s with
  | EmptyString => EmptyString
  | String c r =>
      match rstrip p r with
      | EmptyString => if p c then EmptyString else String c EmptyString
      | r' => String c r'
      end
  end.

Definition strip_chars (p : ascii -> bool) (s : string) : string :=
  rstrip p (lstrip p s).

(** [s.strip()] *)
Definition strip (s : string) : string := strip_chars is_space s.

(** The characters [s.strip] is given for the direction token: the single
    and the double quote. *)
Definition is_quote (c : ascii) : bool :=
  (c =? "'")%char || (code c =? 34)%N.

(** [s.split(sep)] for a one-character separator. *)
Fixpoint split (sep : ascii) (s : string) : list string :=
  match s with
  | EmptyString => [EmptyString]
  | String c r =>
      if (c =? sep)%char then EmptyString :: split sep r
      else match split sep r with
           | h :: t => String c h :: t
           | [] => [String c EmptyString]
           end
  end.

(** [s.startswith(pre)] *)
Fixpoint startswith (pre s : string) : bool :=
  match pre with
  | EmptyString => true
  | String c pre' =>
      match s with
      | String d s' => (c =? d)%char && startswith pre' s'
      | EmptyString => false
      end
  end.

(** [sub in s] *)
Fixpoint contains (sub s : string) : bool :=
  startswith sub s ||
  match s with
  | EmptyString => false
  | String _ r => contains sub r
  end.

(** [str(n)] and the [{n}] of an f-string, for an integer. *)
Definition str (z : Z) : string := NilEmpty.string_of_int (Z.to_int z).

Definition hex_digit (n : N) : ascii :=
  if (n <? 10)%N then ascii_of_N (48 + n) else ascii_of_N (87 + n).

Definition printable (c : ascii) : bool :=
  between 32 126 c || (between 161 255 c && negb (code c =? 173)%N).

(** [repr(s)]: the body, escaping the chosen quote [q]. *)
Fixpoint repr_body (q : ascii) (s : string) : string :=
  match s with
  | EmptyString => EmptyString
  | String c r =>
      (if (c =? q)%char || (code c =? 92)%N
       then String (ascii_of_N 92) (String c EmptyString)
       else if (code c =? 9)%N then String (ascii_of_N 92) "t"
       else if (code c =? 10)%N then String (ascii_of_N 92) "n"
       else if (code c =? 13)%N then String (ascii_of_N 92) "r"
       else if printable c then String c EmptyString
       else String (ascii_of_N 92)
              (String "x" (String (hex_digit (code c / 16))
                 (String (hex_digit (code c mod 16)) EmptyString))))
      ++ repr_body q r
  end.

Definition dquote : ascii := ascii_of_N 34.

Definition repr (s : string) : string :=
  let q := if contains "'" s && negb (contains (String dquote EmptyString) s)
           then dquote else "'"%char in
  String q (repr_body q s ++ String q EmptyString).

(** Exceptions the parser raises or meets. *)
Inductive exn : Type :=
| ActionParseError (msg : string)
| ValueError (msg : string)
| IndexError (msg : string).

Inductive outcome (A : Type) : Type :=
| Return (a : A)
| Raise (e : exn).
Arguments Return {A} a.
Arguments Raise {A} e.

Definition bind {A B} (m : outcome A) (f : A -> outcome B) : outcome B :=
  match m with
  | Return a => f a
  | Raise e => Raise e
  end.

(** The digits of an [int()] literal: a digit first, single underscores
    only between digits. [prev] tells whether the previous character was a
    digit. *)
Fixpoint int_body_ok (prev : bool) (s : string) : bool :=
  match s with
  | EmptyString => prev
  | String c r =>
      if is_digit c then int_body_ok true r
      else if (c =? "_")%char then prev && int_body_ok false r
      else false
  end.

Fixpoint drop_underscores (s : string) : string :=
  match s with
  | EmptyString => EmptyString
  | String c r =>
      if (c =? "_")%char then drop_underscores r
      else String c (drop_underscores r)
  end.

Definition int_body (s : string) : option Z :=
  if int_body_ok false s
  then option_map Z.of_uint (NilEmpty.uint_of_string (drop_underscores s))
  else None.

(** The white space [int()] skips around the literal: that of C's
    [isspace], and the white space beyond ASCII. *)
Definition is_int_space (c : ascii) : bool :=
  between 9 13 c || (code c =? 32)%N || (code c =? 133)%N || (code c =? 160)%N.

(** The digits and underscores at the head of [s]: what [int()] scans
    for a numeral, whatever comes after. *)
Fixpoint numeral_run (s : string) : string :=
  match s with
  | EmptyString => EmptyString
  | String c r =>
      if is_digit c || (c =? "_")%char then String c (numeral_run r)
      else EmptyString
  end.

Fixpoint count_digits (s : string) : Z :=
  match s with
  | EmptyString => 0
  | String c r => ((if is_digit c then 1 else 0) + count_digits r)%Z
  end.

(** [sys.get_int_max_str_digits()], at its default. *)
Definition max_str_digits : Z := 4300.

(** [int(s)] for a [str] argument, base 10. A numeral of more digits
    than the limit is refused once it is scanned, before what follows it
    is looked at; the message of the other [ValueError] shows the
    argument's [repr], cut after 200 characters. *)
Definition int (s : string) : outcome Z :=
  let t := strip_chars is_int_space s in
  let unsigned := match t with
                  | String c r =>
                      if (c =? "-")%char || (c =? "+")%char then r else t
                  | EmptyString => t
                  end in
  let run := numeral_run unsigned in
  if int_body_ok false run && (max_str_digits <? count_digits run)%Z then
    Raise (ValueError
             ("Exceeds the limit (" ++ str max_str_digits
                ++ " digits) for integer string conversion: value has "
                ++ str (count_digits run)
                ++ " digits; use sys.set_int_max_str_digits() to increase the limit"))
  else
    let v := match t with
             | String c r =>
                 if (c =? "-")%char then option_map Z.opp (int_body r)
                 else if (c =? "+")%char then int_body r
                 else int_body t
             | EmptyString => int_body t
             end in
    match v with
    | Some z => Return z
    | None => Raise (ValueError
                       ("invalid literal for int() with base 10: "
                          ++ substring 0 200 (repr s)))
    end.

(** [l[i]] for an index that is not negative. *)
Definition index {A} (l : list A) (i : nat) : outcome A :=
  match nth_error l i with
  | Some a => Return a
  | None => Raise (IndexError "list index out of range")
  end.

End Py.

(* ================================================================== *)
(** ** The fragment of [re] the program uses *)
(* ================================================================== *)

Module Re.

Inductive quant : Type := Greedy | Lazy.

(** A literal, or a repeated character class ([X*], [X+], [X*?]). *)
Inductive atom : Type :=
| Lit (s : string)
| Rep (q : quant) (min : nat) (cls : ascii -> bool).

(** An atom, inside a capturing group or not. *)
Inductive item : Type :=
| Bare (a : atom)
| Group (a : atom).

Definition pattern : Type := list item.

Definition atom_of (i : item) : atom :=
  match i with Bare a | Group a => a end.

Definition capture (i : item) (t : string) (caps : list string)
  : list string :=
  match i with
  | Bare _ => caps
  | Group _ => t :: caps
  end.

Fixpoint strip_prefix (pre s : string) : option string :=
  match pre with
  | EmptyString => Some s
  | String c pre' =>
      match s with
      | String d s' => if (c =? d)%char then strip_prefix pre' s' else None
      | EmptyString => None
      end
  end.

Section Backtracking.
Context {A : Type}.
Variable cls : ascii -> bool.

(** Longest repetition first, then shorter ones. [k taken rest] is the
    rest of the pattern. *)
Fixpoint rep_greedy (s : string) (k : string -> string -> option A)
  : option A :=
  match s with
  | String c r =>
      if cls c then
        match rep_greedy r (fun t => k (String c t)) with
        | Some x => Some x
        | None => k EmptyString s
        end
      else k EmptyString s
  | EmptyString => k EmptyString s
  end.

(** Shortest repetition first, then longer ones. *)
Fixpoint rep_lazy (s : string) (k : string -> string -> option A)
  : option A :=
  match k EmptyString s with
  | Some x => Some x
  | None =>
      match s with
      | String c r =>
          if cls c then rep_lazy r (fun t => k (String c t)) else None
      | EmptyString => None
      end
  end.
End Backtracking.

(** Match the pattern at the start of [s]; the captured groups in order. *)
Fixpoint match_here (p : pattern) (s : string) : option (list string) :=
  match p with
  | [] => Some []
  | i :: p' =>
      let k t r := option_map (capture i t) (match_here p' r) in
      match atom_of i with
      | Lit l =>
          match strip_prefix l s with
          | Some r => k l r
          | None => None
          end
      | Rep q min cls =>
          let k' t r := if (min <=? String.length t)%nat then k t r else None in
          match q with
          | Greedy => rep_greedy cls s k'
          | Lazy => rep_lazy cls s k'
          end
      end
  end.

(** [re.search]: the match at the leftmost position that has one. *)
Fixpoint search (p : pattern) (s : string) : option (list string) :=
  match match_here p s with
  | Some m => Some m
  | None =>
      match s with
      | String _ r => search p r
      | EmptyString => None
      end
  end.

(** [m.group(i)] for [i >= 1]. *)
Definition group (m : list string) (i : nat) : string :=
  nth (i - 1) m EmptyString.

Definition any (_ : ascii) : bool := true.
Definition not_char (c : ascii) (d : ascii) : bool := negb (d =? c)%char.

End Re.

(* ================================================================== *)
(** ** [agent.py]: actions and the action parser *)
(* ================================================================== *)

Module Agent.
Import Py.

(** A value stored in [Action.args]. *)
Inductive value : Type :=
| VInt (z : Z)
| VStr (s : string).

(** [Action]: [args] is the dict, as its items in insertion order. *)
Record Action : Type := mkAction {
  name : string;
  args : list (string * value);
  error : option string
}.

Record BrowserState : Type := mkBrowserState {
  screenshot_b64 : string;
  url : string
}.

(** The pattern of the first [re.search]: the literal [Action:], [\s] any
    number of times, group 1 [\w] once or more, an opening parenthesis,
    group 2 any characters but the closing parenthesis, any number of
    times, and the closing parenthesis. All quantifiers are greedy. *)
Definition call_re : Re.pattern :=
  [ Re.Bare (Re.Lit "Action:");
    Re.Bare (Re.Rep Re.Greedy 0 is_space);
    Re.Group (Re.Rep Re.Greedy 1 is_word);
    Re.Bare (Re.Lit "(");
    Re.Group (Re.Rep Re.Greedy 0 (Re.not_char ")"));
    Re.Bare (Re.Lit ")") ].

(** The pattern of the fallback [re.search]: the first three items of
    [call_re]. *)
Definition bare_re : Re.pattern :=
  [ Re.Bare (Re.Lit "Action:");
    Re.Bare (Re.Rep Re.Greedy 0 is_space);
    Re.Group (Re.Rep Re.Greedy 1 is_word) ].

(** [try: ... except ValueError as e: raise ActionParseError(...)] *)
Definition except_ValueError (body : outcome Action) : outcome Action :=
  match body with
  | Raise (ValueError e) =>
      Raise (ActionParseError ("Invalid argument format: " ++ e))
  | other => other
  end.

Definition is_empty (s : string) : bool :=
  match s with EmptyString => true | _ => false end.

Definition len {A} (l : list A) : Z := Z.of_nat (List.length l).

(** [[p.strip() for p in args_str.split(",")]] *)
Definition split_args (args_str : string) : list string :=
  map strip (split "," args_str).

Definition parse_action (response : string) : outcome Action :=
  match Re.search call_re response with
  | None =>
      match Re.search bare_re response with
      | Some action_line =>
          let name := Re.group action_line 1 in
          if (name =? "Wait") || (name =? "Finished")
          then Return (mkAction name [] None)
          else Raise (ActionParseError
                 ("Action '" ++ name ++ "' requires arguments but none provided"))
      | None =>
          Raise (ActionParseError
            "No valid action found in response. Expected format: Action: Name(args)")
      end
  | Some action_match =>
      let name := Re.group action_match 1 in
      let args_str := strip (Re.group action_match 2) in
      except_ValueError
        (if name =? "Click" then
           if is_empty args_str then
             Raise (ActionParseError "Click requires coordinates: Click(x, y)")
           else
             let parts := split_args args_str in
             if negb (len parts =? 2)%Z then
               Raise (ActionParseError
                 ("Click requires exactly 2 arguments (x, y), got "
                    ++ str (len parts)))
             else
               bind (index parts 0) (fun part0 =>
               bind (int part0) (fun x =>
               bind (index parts 1) (fun part1 =>
               bind (int part1) (fun y =>
               if negb ((0 <=? x)%Z && (x <=? 1000)%Z
                        && ((0 <=? y)%Z && (y <=? 1000)%Z)) then
                 Raise (ActionParseError
                   ("Coordinates must be 0-1000, got (" ++ str x ++ ", "
                      ++ str y ++ ")"))
               else
                 Return (mkAction "Click" [("x", VInt x); ("y", VInt y)]
                           None)))))
         else if name =? "Scroll" then
           if is_empty args_str then
             Raise (ActionParseError
               "Scroll requires arguments: Scroll(x, y, direction)")
           else
             let parts := split_args args_str in
             if negb (len parts =? 3)%Z then
               Raise (ActionParseError
                 ("Scroll requires 3 arguments (x, y, direction), got "
                    ++ str (len parts)))
             else
               bind (index parts 0) (fun part0 =>
               bind (int part0) (fun x =>
               bind (index parts 1) (fun part1 =>
               bind (int part1) (fun y =>
               bind (index parts 2) (fun part2 =>
               let direction := lower (strip_chars is_quote part2) in
               if negb ((direction =? "up") || (direction =? "down")) then
                 Raise (ActionParseError
                   ("Scroll direction must be 'up' or 'down', got '"
                      ++ direction ++ "'"))
               else
                 Return (mkAction "Scroll"
                   [("x", VInt x); ("y", VInt y);
                    ("direction", VStr direction)] None))))))
         else if name =? "Type" then
           if is_empty args_str then
             Raise (ActionParseError "Type requires content: Type(text to type)")
           else Return (mkAction "Type" [("content", VStr args_str)] None)
         else if name =? "Press" then
           if is_empty args_str then
             Raise (ActionParseError "Press requires a key: Press(Enter)")
           else Return (mkAction "Press" [("key", VStr args_str)] None)
         else if name =? "CallUser" then
           if is_empty args_str then
             Raise (ActionParseError
               "CallUser requires a question: CallUser(your question here)")
           else Return (mkAction "CallUser" [("question", VStr args_str)] None)
         else if (name =? "Wait") || (name =? "Finished") then
           Return (mkAction name [] None)
         else
           Raise (ActionParseError ("Unknown action: " ++ name)))
  end.

(* ------------------------------------------------------------------ *)
(** *** Conversation messages, [build_message] and [trim_images] *)

(** One item of a list-valued [content]; [part_type] is its ["type"]. *)
Inductive part : Type :=
| TextPart (text : string)
| ImageUrlPart (url : string).

Definition part_type (item : part) : string :=
  match item with
  | TextPart _ => "text"
  | ImageUrlPart _ => "image_url"
  end.

(** [msg["content"]] is a [str] or a [list] of parts. *)
Inductive content : Type :=
| Text (s : string)
| Parts (items : list part).

Record Message : Type := mkMessage {
  role : string;
  msg_content : content
}.

(** [if task:] and the other truth tests on [str | None]. *)
Definition truthy (o : option string) : bool :=
  match o with
  | Some s => negb (is_empty s)
  | None => false
  end.

Definition build_message (state : BrowserState) (task : option string)
  : Message :=
  let content0 :=
    match task with
    | Some t => if truthy task then [TextPart ("Task: " ++ t)] else []
    | None => []
    end in
  let content1 := (content0 ++ [TextPart ("Current URL: " ++ url state)])%list in
  let content2 :=
    (content1 ++
       [ImageUrlPart ("data:image/png;base64," ++ screenshot_b64 state)])%list in
  mkMessage "user" (Parts content2).

Definition is_image (item : part) : bool := part_type item =? "image_url".

(** [msg["role"] == "user" and isinstance(msg.get("content"), list)] *)
Definition user_list (msg : Message) : option (list part) :=
  if role msg =? "user" then
    match msg_content msg with
    | Parts items => Some items
    | Text _ => None
    end
  else None.

(** The first loop of [trim_images], from index [i] on. *)
Fixpoint image_indices_from (i : nat) (conversation : list Message)
  : list nat :=
  match conversation with
  | [] => []
  | msg :: rest =>
      let here :=
        match user_list msg with
        | Some items => if existsb is_image items then [i] else []
        | None => []
        end in
      (here ++ image_indices_from (S i) rest)%list
  end.

(** The slice [l[:stop]] of Python, [stop] of either sign. *)
Definition slice_to {A} (l : list A) (stop : Z) : list A :=
  let stop' := if (stop <? 0)%Z then Z.max 0 (len l + stop)
               else Z.min stop (len l) in
  firstn (Z.to_nat stop') l.

Definition mem (i : nat) (s : list nat) : bool := existsb (Nat.eqb i) s.

(** The second loop of [trim_images], from index [i] on: what it appends
    to [result]. *)
Fixpoint trim_loop (indices_to_remove : list nat) (i : nat)
  (conversation : list Message) : list Message :=
  match conversation with
  | [] => []
  | msg :: rest =>
      let appended :=
        if mem i indices_to_remove then
          match user_list msg with
          | Some items =>
              let new_content := filter (fun item => negb (is_image item)) items in
              match new_content with
              | [] => []
              | _ => [mkMessage "user" (Parts new_content)]
              end
          | None => []
          end
        else [msg] in
      (appended ++ trim_loop indices_to_remove (S i) rest)%list
  end.

Definition trim_images (conversation : list Message) (max_images : Z)
  : list Message :=
  let image_indices := image_indices_from 0 conversation in
  if (len image_indices <=? max_images)%Z then conversation
  else
    let indices_to_remove := slice_to image_indices (- max_images) in
    trim_loop indices_to_remove 0 conversation.

(* ------------------------------------------------------------------ *)
(** *** The system prompt *)

Definition nl : string := String (ascii_of_N 10) EmptyString.
Definition dq : string := String dquote EmptyString.

Definition SYSTEM_PROMPT : string :=
  String.concat nl
    ["You are a web navigation agent. You control a browser to accomplish user tasks.";
     "";
     "## Input";
     "Each turn you receive:";
     "- A screenshot of the current webpage";
     "- The current URL";
     "";
     "## Output Format";
     "Think step by step, then output your action:";
     "";
     "<reasoning>";
     "[Your thinking about what to do next]";
     "</reasoning>";
     "Action: ActionName(arguments)";
     "";
     "## Available Actions";
     "- Click(x, y) - Click at coordinates";
     ("- Scroll(x, y, direction) - Scroll at position, direction is "
        ++ dq ++ "up" ++ dq ++ " or " ++ dq ++ "down" ++ dq);
     "- Type(text) - Type text (click input field first)";
     "- Press(key) - Press key: Enter, Tab, Escape, Backspace, etc.";
     "- Wait() - Wait for page to load";
     "- Finished() - Task complete";
     "- CallUser(question) - Ask user for help";
     "";
     "## Coordinate System";
     "Coordinates are 0-1000 for both x and y:";
     "- (0, 0) = top-left";
     "- (1000, 1000) = bottom-right";
     "- (500, 500) = center";
     "";
     "## Examples";
     "<reasoning>";
     "I see Google's homepage. I need to click the search box to type my query.";
     "</reasoning>";
     "Action: Click(500, 400)";
     "";
     "<reasoning>";
     "The search box is focused. I'll type my search query.";
     "</reasoning>";
     "Action: Type(flights to Paris)";
     "";
     "<reasoning>";
     "Query typed. I'll press Enter to search.";
     "</reasoning>";
     "Action: Press(Enter)";
     "";
     "<reasoning>";
     "I need login credentials. I'll ask the user.";
     "</reasoning>";
     "Action: CallUser(What are the login credentials?)"].

(* ------------------------------------------------------------------ *)
(** *** The browser, the model and the user: a state and exception monad *)

(** What a call into the outside world gives: a value, or a Python
    exception of the class [Exception], kept as its text [str(e)]. What
    [except Exception] lets through, a [KeyboardInterrupt] or a
    [SystemExit], ends the program and has no part here. *)
Inductive res (A : Type) : Type :=
| Done (a : A)
| Throw (e : string).
Arguments Done {A} a.
Arguments Throw {A} e.

Section Loop.
Variable World : Type.

Definition M (A : Type) : Type := World -> res A * World.

Definition ret {A} (a : A) : M A := fun w => (Done a, w).
Definition throw {A} (e : string) : M A := fun w => (Throw e, w).

Definition bindM {A B} (m : M A) (f : A -> M B) : M B :=
  fun w =>
    match m w with
    | (Done a, w') => f a w'
    | (Throw e, w') => (Throw e, w')
    end.

(** [try: body except Exception as e: handler(str(e))] *)
Definition try_except {A} (body : M A) (handler : string -> M A) : M A :=
  fun w =>
    match body w with
    | (Done a, w') => (Done a, w')
    | (Throw e, w') => handler e w'
    end.

Notation "x <- m ;; k" := (bindM m (fun x => k))
  (at level 61, m at next level, right associativity).
Notation "m ;;; k" := (bindM m (fun _ => k))
  (at level 61, right associativity).

(** The methods of [Browser] that the agent calls. *)
Record Browser : Type := mkBrowser {
  start : string -> M BrowserState;
  get_state : M BrowserState;
  click : value -> value -> M unit;
  scroll : value -> value -> value -> M unit;
  type_text : value -> M unit;
  press_key : value -> M unit;
  wait : Z -> M unit;
  close : M unit
}.

(** The fields of [WebNavAgent]. *)
Record WebNavAgent : Type := mkWebNavAgent {
  llm_fn : list Message -> M string;
  max_images : Z;
  max_steps : Z;
  headless : bool;
  start_url : string;
  user_input_fn : string -> M string
}.

Fixpoint get (key : string) (d : list (string * value)) : option value :=
  match d with
  | [] => None
  | (k, v) :: rest => if k =? key then Some v else get key rest
  end.

(** [d[key]]: a missing key raises [KeyError], whose text is the key's
    [repr]. *)
Definition item (d : list (string * value)) (key : string) : M value :=
  match get key d with
  | Some v => ret v
  | None => throw (repr key)
  end.

Definition execute_action (action : Action) (browser : Browser)
  : M (option string) :=
  try_except
    ((if name action =? "Click" then
        x <- item (args action) "x" ;;
        y <- item (args action) "y" ;;
        click browser x y
      else if name action =? "Scroll" then
        x <- item (args action) "x" ;;
        y <- item (args action) "y" ;;
        d <- item (args action) "direction" ;;
        scroll browser x y d
      else if name action =? "Type" then
        c <- item (args action) "content" ;;
        type_text browser c
      else if name action =? "Press" then
        k <- item (args action) "key" ;;
        press_key browser k
      else if name action =? "Wait" then
        wait browser 1000
      else ret tt) ;;;
     ret None)
    (fun e => ret (Some ("Action execution failed: " ++ e))).

(** **** The trace and the [Action] objects it shares with the loop

    [steps.append(Step(state, response, action))] stores a reference to
    the [Action] object, and [action.error = error] later writes through
    it. [actions] is the store of those objects; a [Step] holds the
    address. *)
Record Step : Type := mkStep {
  state : BrowserState;
  response : string;
  action : nat
}.

Definition no_action : Action := mkAction EmptyString [] None.

Definition deref (actions : list Action) (a : nat) : Action :=
  nth a actions no_action.

Fixpoint set_error (actions : list Action) (a : nat) (e : string)
  : list Action :=
  match actions, a with
  | [], _ => []
  | x :: rest, O => mkAction (name x) (args x) (Some e) :: rest
  | x :: rest, S a' => x :: set_error rest a' e
  end.

(** The local variables of [run] that live across turns. *)
Record Locals : Type := mkLocals {
  cur_state : BrowserState;
  conversation : list Message;
  steps : list Step;
  actions : list Action
}.

(** How a turn of the [for] loop ends. *)
Inductive flow : Type := Continue | Break.

Definition user_text (s : string) : Message := mkMessage "user" (Text s).

Definition question_of (d : list (string * value)) : string :=
  match get "question" d with
  | Some (VStr q) => q
  | Some (VInt z) => str z
  | None => "Agent needs assistance"
  end.

(** The body of the [for] loop of [run]. *)
Definition turn (self : WebNavAgent) (browser : Browser) (l : Locals)
  : M (flow * Locals) :=
  let trimmed_conv := trim_images (conversation l) (max_images self) in
  response <- llm_fn self trimmed_conv ;;
  let conversation1 :=
    (conversation l ++ [mkMessage "assistant" (Text response)])%list in
  parsed <- match parse_action response with
            | Return a => ret a
            | Raise (ActionParseError e) => ret (mkAction "Error" [] (Some e))
            | Raise (ValueError e) => throw e
            | Raise (IndexError e) => throw e
            end ;;
  let a := List.length (actions l) in
  let actions1 := (actions l ++ [parsed])%list in
  let steps1 := (steps l ++ [mkStep (cur_state l) response a])%list in
  if truthy (error (deref actions1 a)) then
    let e := match error (deref actions1 a) with Some e => e | None => "" end in
    ret (Continue,
         mkLocals (cur_state l)
           (conversation1 ++
              [user_text ("Error: " ++ e ++ nl ++
                          "Please try again with a valid action.")])%list
           steps1 actions1)
  else if name (deref actions1 a) =? "Finished" then
    ret (Break, mkLocals (cur_state l) conversation1 steps1 actions1)
  else if name (deref actions1 a) =? "CallUser" then
    let question := question_of (args (deref actions1 a)) in
    user_response <-
      user_input_fn self ("Agent asks: " ++ question ++ nl ++ "Your response: ") ;;
    ret (Continue,
         mkLocals (cur_state l)
           (conversation1 ++ [user_text ("User response: " ++ user_response)])%list
           steps1 actions1)
  else
    err <- execute_action (deref actions1 a) browser ;;
    if truthy err then
      let e := match err with Some e => e | None => "" end in
      ret (Continue,
           mkLocals (cur_state l)
             (conversation1 ++
                [user_text ("Error: " ++ e ++ nl ++
                            "Please try a different action.")])%list
             steps1 (set_error actions1 a e))
    else
      wait browser 3000 ;;;
      st <- get_state browser ;;
      ret (Continue,
           mkLocals st (conversation1 ++ [build_message st None])%list
             steps1 actions1).

(** [for _ in range(n): ...] with [break]. *)
Fixpoint loop (self : WebNavAgent) (browser : Browser) (n : nat) (l : Locals)
  : M Locals :=
  match n with
  | O => ret l
  | S n' =>
      r <- turn self browser l ;;
      match fst r with
      | Break => ret (snd r)
      | Continue => loop self browser n' (snd r)
      end
  end.

(** [with Browser(...) as browser: body]: [close] runs on every way out;
    an exception of the body goes on after it. *)
Definition with_browser {A} (browser : Browser) (body : M A) : M A :=
  fun w =>
    match body w with
    | (r, w') =>
        match close browser w' with
        | (Done _, w'') => (r, w'')
        | (Throw e, w'') => (Throw e, w'')
        end
    end.

(** A step as the caller of [run] reads it: the [Action] object behind
    the reference, as it is when [run] returns. *)
Record Recorded : Type := mkRecorded {
  r_state : BrowserState;
  r_response : string;
  r_action : Action
}.

Definition read_step (actions : list Action) (s : Step) : Recorded :=
  mkRecorded (state s) (response s) (deref actions (action s)).

Definition run (self : WebNavAgent) (browser : Browser) (task : string)
  : M (list Recorded) :=
  let conversation0 := [mkMessage "system" (Text SYSTEM_PROMPT)] in
  with_browser browser
    (st <- start browser (start_url self) ;;
     let conversation1 := (conversation0 ++ [build_message st (Some task)])%list in
     l <- loop self browser (Z.to_nat (max_steps self))
            (mkLocals st conversation1 [] []) ;;
     ret (map (read_step (actions l)) (steps l))).

End Loop.

End Agent.

(* ================================================================== *)
(** ** [save_results.py]: the records of [save_run] *)
(* ================================================================== *)

Module SaveResults.
Import Py Agent.

(** The pattern of [save_run]: the literal opening tag, group 1 any
    characters (with [re.DOTALL], line ends too), as few as possible, and
    the literal closing tag. *)
Definition reasoning_re : Re.pattern :=
  [ Re.Bare (Re.Lit "<reasoning>");
    Re.Group (Re.Rep Re.Lazy 0 Re.any);
    Re.Bare (Re.Lit "</reasoning>") ].

(** One entry of [step_records]. *)
Record StepRecord : Type := mkStepRecord {
  step : nat;
  rec_url : string;
  screenshot : string;
  llm_response : string;
  reasoning : string;
  rec_action : string;
  action_args : list (string * value);
  rec_error : option string
}.

(** The [{i:02d}] of an f-string. *)
Definition fmt_02d (i : nat) : string :=
  if (i <? 10)%nat then "0" ++ str (Z.of_nat i) else str (Z.of_nat i).

(** The body of the [for] loop of [save_run], without the file it writes. *)
Definition step_record (i : nat) (s : Recorded) : StepRecord :=
  let reasoning_match := Re.search reasoning_re (r_response s) in
  let reasoning :=
    match reasoning_match with
    | Some m => strip (Re.group m 1)
    | None => EmptyString
    end in
  mkStepRecord i (url (r_state s))
    ("screenshots/step_" ++ fmt_02d i ++ ".png")
    (r_response s) reasoning
    (name (r_action s)) (args (r_action s)) (error (r_action s)).

Fixpoint step_records_from (i : nat) (steps : list Recorded)
  : list StepRecord :=
  match steps with
  | [] => []
  | s :: rest => step_record i s :: step_records_from (S i) rest
  end.

(** [summary], the content of [summary.json]. *)
Record Summary : Type := mkSummary {
  task : string;
  timestamp : string;
  total_steps : Z;
  summary_steps : list StepRecord
}.

(** [save_run], without the directory and the files it writes: the
    summary it dumps. [timestamp] is the clock's reading, taken from
    outside. *)
Definition save_run (task : string) (steps : list Recorded)
  (timestamp : string) : Summary :=
  let step_records := step_records_from 0 steps in
  mkSummary task timestamp (len steps) step_records.

End SaveResults.

(* ================================================================== *)
(** ** [trim_images] on the objects of the interpreter

    The conversation is a list object of message dicts, a list-valued
    content is a list object of part dicts. [trim_images] is embedded a
    second time over a store of such objects, reading the input through
    its address, to tell what it writes and what it shares. *)
(* ================================================================== *)

Module Store.
Import Py Agent.

(** [msg["content"]]: a [str], or the address of a list object. *)
Inductive cval : Type :=
| VText (s : string)
| VList (a : nat).

Inductive cell : Type :=
| CList (items : list nat)
| CMsg (role : string) (content : cval)
| CPart (p : part).

Definition heap : Type := list cell.

(** A new object, at the first free address. *)
Definition alloc (h : heap) (c : cell) : nat * heap :=
  (List.length h, (h ++ [c])%list).

Fixpoint set_cell (h : heap) (a : nat) (c : cell) : heap :=
  match h, a with
  | [], _ => []
  | _ :: rest, O => c :: rest
  | x :: rest, S a' => x :: set_cell rest a' c
  end.

(** [l.append(x)] on the list object at [l]. *)
Definition append_to (h : heap) (l : nat) (x : nat) : heap :=
  match nth_error h l with
  | Some (CList items) => set_cell h l (CList (items ++ [x]))
  | _ => h
  end.

Fixpoint read_all {A} (f : nat -> option A) (l : list nat)
  : option (list A) :=
  match l with
  | [] => Some []
  | a :: rest =>
      match f a, read_all f rest with
      | Some x, Some xs => Some (x :: xs)
      | _, _ => None
      end
  end.

(** The values the objects stand for. *)
Definition part_at (h : heap) (a : nat) : option part :=
  match nth_error h a with
  | Some (CPart p) => Some p
  | _ => None
  end.

Definition parts_at (h : heap) (a : nat) : option (list part) :=
  match nth_error h a with
  | Some (CList items) => read_all (part_at h) items
  | _ => None
  end.

Definition message_at (h : heap) (a : nat) : option Message :=
  match nth_error h a with
  | Some (CMsg r (VText s)) => Some (mkMessage r (Text s))
  | Some (CMsg r (VList c)) =>
      option_map (fun ps => mkMessage r (Parts ps)) (parts_at h c)
  | _ => None
  end.

Definition conversation_at (h : heap) (a : nat) : option (list Message) :=
  match nth_error h a with
  | Some (CList items) => read_all (message_at h) items
  | _ => None
  end.

(** [msg["role"] == "user" and isinstance(msg.get("content"), list)]: the
    items of that list. *)
Definition user_list_at (h : heap) (m : nat) : option (list nat) :=
  match nth_error h m with
  | Some (CMsg r (VList c)) =>
      if r =? "user" then
        match nth_error h c with
        | Some (CList items) => Some items
        | _ => None
        end
      else None
  | _ => None
  end.

(** [item.get("type") == "image_url"] *)
Definition is_image_at (h : heap) (a : nat) : bool :=
  match part_at h a with
  | Some p => is_image p
  | None => false
  end.

(** The first loop: it only reads. *)
Fixpoint image_indices_at (h : heap) (i : nat) (msgs : list nat)
  : list nat :=
  match msgs with
  | [] => []
  | m :: rest =>
      let here :=
        match user_list_at h m with
        | Some items => if existsb (is_image_at h) items then [i] else []
        | None => []
        end in
      (here ++ image_indices_at h (S i) rest)%list
  end.

(** The second loop. [result] is the address of the list it appends to;
    [new_content] and the dict around it are new objects, the parts in
    [new_content] and the messages appended as they are stay shared with
    the input. *)
Fixpoint trim_loop_at (indices_to_remove : list nat) (result : nat)
  (i : nat) (msgs : list nat) (h : heap) : heap :=
  match msgs with
  | [] => h
  | m :: rest =>
      let h1 :=
        if mem i indices_to_remove then
          match user_list_at h m with
          | Some items =>
              let kept := filter (fun a => negb (is_image_at h a)) items in
              let new_content := alloc h (CList kept) in
              match kept with
              | [] => snd new_content
              | _ =>
                  let d := alloc (snd new_content)
                             (CMsg "user" (VList (fst new_content))) in
                  append_to (snd d) result (fst d)
              end
          | None => h
          end
        else append_to h result m in
      trim_loop_at indices_to_remove result (S i) rest h1
  end.

(** [trim_images(conversation, max_images)]: the address it returns and
    the store it leaves. *)
Definition trim_images_at (h : heap) (conversation : nat) (max_images : Z)
  : nat * heap :=
  match nth_error h conversation with
  | Some (CList msgs) =>
      let image_indices := image_indices_at h 0 msgs in
      if (len image_indices <=? max_images)%Z then (conversation, h)
      else
        let indices_to_remove := slice_to image_indices (- max_images) in
        let result := alloc h (CList []) in
        (fst result,
         trim_loop_at indices_to_remove (fst result) 0 msgs (snd result))
  | _ => (conversation, h)
  end.

(** A store with a conversation of four messages at address 12: a user
    message that is only an image, one with text and image, an assistant
    message, and another user message with text and image. *)
Definition example_heap : heap :=
  [ CPart (TextPart "URL: page1"); CPart (ImageUrlPart "data:image/png;base64,xxx");
    CList [0; 1]; CMsg "user" (VList 2);
    CMsg "assistant" (VText "Click");
    CPart (TextPart "URL: page2"); CPart (ImageUrlPart "data:image/png;base64,yyy");
    CList [5; 6]; CMsg "user" (VList 7);
    CPart (ImageUrlPart "data:image/png;base64,zzz");
    CList [9]; CMsg "user" (VList 10);
    CList [11; 3; 4; 8] ].

Definition example_conversation : list Message :=
  [ mkMessage "user" (Parts [ImageUrlPart "data:image/png;base64,zzz"]);
    mkMessage "user"
      (Parts [TextPart "URL: page1"; ImageUrlPart "data:image/png;base64,xxx"]);
    mkMessage "assistant" (Text "Click");
    mkMessage "user"
      (Parts [TextPart "URL: page2"; ImageUrlPart "data:image/png;base64,yyy"]) ].

(** [h'] has every object of [h] but the one at [result] as it was. *)
Definition preserves (result : nat) (h h' : heap) : Prop :=
  List.length h <= List.length h'
  /\ forall a, a < List.length h -> a <> result ->
       nth_error h' a = nth_error h a.

(** The object at [x] reads as the message [msg], and its content is not
    the list at [result]. *)
Definition reads (h : heap) (result : nat) (x : nat) (msg : Message) : Prop :=
  message_at h x = Some msg
  /\ forall r c, nth_error h x = Some (CMsg r (VList c)) -> c <> result.

(** Nothing but a list, if anything, lives at [result]. *)
Definition list_or_free (h : heap) (result : nat) : Prop :=
  match nth_error h result with
  | Some (CList _) | None => True
  | Some _ => False
  end.

End Store.

(* ================================================================== *)
(** ** Notions the statements use *)
(* ================================================================== *)

Module Spec.
Import Py Agent.

(** Every character of [s] is in the class [p]. *)
Fixpoint all (p : ascii -> bool) (s : string) : bool :=
  match s with
  | EmptyString => true
  | String c r => p c && all p r
  end.

(** The longest prefix of [s] in the class [p], and what follows it. *)
Fixpoint span (p : ascii -> bool) (s : string) : string * string :=
  match s with
  | EmptyString => (EmptyString, EmptyString)
  | String c r =>
      if p c then (String c (fst (span p r)), snd (span p r))
      else (EmptyString, s)
  end.

(** The head of [r] is not in the class [p]: a run of [p] stops there. *)
Definition stops (p : ascii -> bool) (r : string) : Prop :=
  match r with
  | EmptyString => True
  | String c _ => p c = false
  end.

(** [call_re] at the start of [s], read off deterministically: each
    repetition takes its longest run. *)
Definition call_at (s : string) : option (list string) :=
  match Re.strip_prefix "Action:" s with
  | None => None
  | Some r1 =>
      let r2 := snd (span is_space r1) in
      let name := fst (span is_word r2) in
      let r3 := snd (span is_word r2) in
      if is_empty name then None
      else
        match Re.strip_prefix "(" r3 with
        | None => None
        | Some r4 =>
            let args := fst (span (Re.not_char ")") r4) in
            match Re.strip_prefix ")" (snd (span (Re.not_char ")") r4)) with
            | None => None
            | Some _ => Some [name; args]
            end
        end
  end.

(** [bare_re] at the start of [s], likewise. *)
Definition bare_at (s : string) : option (list string) :=
  match Re.strip_prefix "Action:" s with
  | None => None
  | Some r1 =>
      let r2 := snd (span is_space r1) in
      let name := fst (span is_word r2) in
      if is_empty name then None else Some [name]
  end.

(** [s.partition(sep)] when [sep] occurs: the text before the first
    occurrence and the text after it. *)
Fixpoint partition (sep s : string) : option (string * string) :=
  match Re.strip_prefix sep s with
  | Some after => Some (EmptyString, after)
  | None =>
      match s with
      | EmptyString => None
      | String c r =>
          match partition sep r with
          | Some (before, after) => Some (String c before, after)
          | None => None
          end
      end
  end.

(** [post] starts with a call [Action: name(args)] as [call_re] reads it:
    optional white space, a name of word characters, and arguments up to
    the first closing parenthesis. *)
Definition call_form (post name args : string) : Prop :=
  exists ws rest,
    post = "Action:" ++ ws ++ name ++ "(" ++ args ++ ")" ++ rest
    /\ all is_space ws = true
    /\ name <> EmptyString /\ all is_word name = true
    /\ all (Re.not_char ")") args = true.

(** [post] starts with a bare [Action: name] as [bare_re] reads it: the
    name is the whole run of word characters. *)
Definition bare_form (post name : string) : Prop :=
  exists ws rest,
    post = "Action:" ++ ws ++ name ++ rest
    /\ all is_space ws = true
    /\ name <> EmptyString /\ all is_word name = true
    /\ stops is_word rest.

(** [m] is what [p] captures at the leftmost position of [s] where it
    matches. *)
Definition leftmost (p : Re.pattern) (s : string) (m : list string) : Prop :=
  exists pre post,
    s = pre ++ post /\ Re.match_here p post = Some m
    /\ forall pre' post', s = pre' ++ post' ->
         String.length pre' < String.length pre ->
         Re.match_here p post' = None.

(** The text between the first opening tag and the first closing tag
    after it, when there is such a pair. *)
Definition between_tags (response : string) : option string :=
  match partition "<reasoning>" response with
  | Some (_, r) =>
      match partition "</reasoning>" r with
      | Some (body, _) => Some body
      | None => None
      end
  | None => None
  end.

(** The characters of a decimal numeral. *)
Definition num_char (c : ascii) : bool := is_digit c || (c =? "-")%char.

(** Which check of [Click] a diagnostic comes from. *)
Inductive check : Type := Arity | Format | Range.

Definition click_diag (msg : string) : option check :=
  if startswith "Click requires" msg then Some Arity
  else if startswith "Invalid argument format: " msg then Some Format
  else if startswith "Coordinates must be 0-1000" msg then Some Range
  else None.

Definition in_range (z : Z) : bool := (0 <=? z)%Z && (z <=? 1000)%Z.

(** An action of the closed set, with the arguments its kind asks for
    and no error attached. *)
Definition valid_action (a : Action) : bool :=
  match error a with
  | Some _ => false
  | None =>
      if name a =? "Click" then
        match args a with
        | [(kx, VInt x); (ky, VInt y)] =>
            (kx =? "x") && (ky =? "y") && in_range x && in_range y
        | _ => false
        end
      else if name a =? "Scroll" then
        match args a with
        | [(kx, VInt _); (ky, VInt _); (kd, VStr d)] =>
            (kx =? "x") && (ky =? "y") && (kd =? "direction")
            && ((d =? "up") || (d =? "down"))
        | _ => false
        end
      else if name a =? "Type" then
        match args a with
        | [(k, VStr t)] => (k =? "content") && negb (is_empty t)
        | _ => false
        end
      else if name a =? "Press" then
        match args a with
        | [(k, VStr t)] => (k =? "key") && negb (is_empty t)
        | _ => false
        end
      else if name a =? "CallUser" then
        match args a with
        | [(k, VStr t)] => (k =? "question") && negb (is_empty t)
        | _ => false
        end
      else if (name a =? "Wait") || (name a =? "Finished") then
        match args a with
        | [] => true
        | _ => false
        end
      else false
  end.

(** The opening words of every diagnostic of the parser. *)
Definition diagnostics : list string :=
  [ "Action '";
    "No valid action found in response.";
    "Click requires coordinates";
    "Click requires exactly 2 arguments";
    "Coordinates must be 0-1000, got (";
    "Scroll requires arguments";
    "Scroll requires 3 arguments";
    "Scroll direction must be 'up' or 'down', got '";
    "Type requires content";
    "Press requires a key";
    "CallUser requires a question";
    "Unknown action: ";
    "Invalid argument format: invalid literal for int() with base 10: ";
    "Invalid argument format: Exceeds the limit (4300 digits) for integer string conversion: value has " ].

Definition known_diag (msg : string) : bool :=
  existsb (fun p => startswith p msg) diagnostics.

(** No call [Action: name(args)] starts anywhere in [s]. *)
Definition no_call (s : string) : Prop :=
  forall pre post n a, s = pre ++ post -> ~ call_form post n a.

(** The first call in [s] starts after [pre] and is [name(args)]. *)
Definition first_call (s pre name args : string) : Prop :=
  exists post,
    s = pre ++ post /\ call_form post name args
    /\ forall pre' post' n' a', s = pre' ++ post' ->
         String.length pre' < String.length pre -> ~ call_form post' n' a'.

(** The first bare [Action: name] in [s] has the name [name]. *)
Definition first_bare (s name : string) : Prop :=
  exists pre post,
    s = pre ++ post /\ bare_form post name
    /\ forall pre' post' n', s = pre' ++ post' ->
         String.length pre' < String.length pre -> ~ bare_form post' n'.

(** [msg] is a user message that carries an image part. *)
Definition has_image (msg : Message) : bool :=
  match user_list msg with
  | Some items => existsb is_image items
  | None => false
  end.

(** The image-bearing messages of a conversation, in transcript order. *)
Definition image_messages (conversation : list Message) : list Message :=
  filter has_image conversation.

Definition non_image (items : list part) : list part :=
  filter (fun item => negb (is_image item)) items.

(** What is left of a message once its image parts are taken out: the
    message with its other parts, or nothing when it has no other part. *)
Definition stripped (msg : Message) : list Message :=
  match user_list msg with
  | Some items =>
      match non_image items with
      | [] => []
      | _ => [mkMessage "user" (Parts (non_image items))]
      end
  | None => []
  end.

(** The spec's trimming: the oldest [m] image-bearing messages are
    stripped, every other message passes as it is. *)
Fixpoint strip_oldest (m : nat) (conversation : list Message)
  : list Message :=
  match conversation with
  | [] => []
  | msg :: rest =>
      if has_image msg then
        match m with
        | O => msg :: rest
        | S m' => (stripped msg ++ strip_oldest m' rest)%list
        end
      else msg :: strip_oldest m rest
  end.

(** The last [k] elements of a list. *)
Definition last_n {A} (k : nat) (l : list A) : list A :=
  skipn (List.length l - k) l.

(** [out] is [conv] with some of its oldest image-bearing user messages
    stripped or dropped and everything else in place: a message that
    carries no image passes, an image-bearing one is replaced by its
    non-image parts or, when it has none, left out, and from some point
    on every message passes. *)
Inductive frame : list Message -> list Message -> Prop :=
| frame_rest (c : list Message) : frame c c
| frame_pass (msg : Message) (c c' : list Message) :
    has_image msg = false -> frame c c' -> frame (msg :: c) (msg :: c')
| frame_strip (msg : Message) (items : list part) (c c' : list Message) :
    user_list msg = Some items -> existsb is_image items = true ->
    non_image items <> [] -> frame c c' ->
    frame (msg :: c) (mkMessage "user" (Parts (non_image items)) :: c')
| frame_drop (msg : Message) (items : list part) (c c' : list Message) :
    user_list msg = Some items -> existsb is_image items = true ->
    non_image items = [] -> frame c c' ->
    frame (msg :: c) c'.

(** A user message with one text part and one image part. *)
Definition image_message (text : string) : Message :=
  mkMessage "user"
    (Parts [TextPart text; ImageUrlPart "data:image/png;base64,xxx"]).

(** A recorded step whose reply has the shape the prompt asks for. *)
Definition reasoned_step : Recorded :=
  mkRecorded (mkBrowserState "iVBORw0KGgo=" "https://example.com")
    ("<reasoning>" ++ nl ++ "I need to click the button." ++ nl
       ++ "</reasoning>" ++ nl ++ "Action: Click(100, 200)")
    (mkAction "Click" [("x", VInt 100); ("y", VInt 200)] None).

(** **** A world for whole runs

    The model answers from a list of canned replies; the browser counts
    the pages it has shown, its [click] throws an exception of text [why],
    its other actions load the next page. *)
Record world : Type := mkWorld {
  replies : list string;
  page : nat
}.

Definition canned_llm (_ : list Message) : M world string :=
  fun w =>
    match replies w with
    | r :: rest => (Done r, mkWorld rest (page w))
    | [] => (Throw "no reply left", w)
    end.

Definition page_state (n : nat) : BrowserState :=
  mkBrowserState "iVBORw0KGgo=" ("https://example.com/" ++ str (Z.of_nat n)).

Definition next_page : M world unit :=
  fun w => (Done tt, mkWorld (replies w) (S (page w))).

Definition flaky_browser (why : string) : Browser world :=
  mkBrowser world
    (fun _ => fun w => (Done (page_state (page w)), w))
    (fun w => (Done (page_state (page w)), w))
    (fun _ _ => throw world why)
    (fun _ _ _ => next_page)
    (fun _ => next_page)
    (fun _ => next_page)
    (fun _ => ret world tt)
    (ret world tt).

Definition canned_agent (max_steps : Z) : WebNavAgent world :=
  mkWebNavAgent world canned_llm 1 max_steps true "https://example.com/"
    (fun _ => ret world "yes").

(** A browser that only logs the calls it gets, as the mock of the
    repository's tests, and one whose [click] raises. *)
Definition call_log : Type := list (string * list value).

Definition logged (method : string) (arguments : list value)
  : M call_log unit :=
  fun w => (Done tt, (w ++ [(method, arguments)])%list).

Definition mock_browser : Browser call_log :=
  mkBrowser call_log
    (fun _ => ret call_log (mkBrowserState "" ""))
    (ret call_log (mkBrowserState "" ""))
    (fun x y => logged "click" [x; y])
    (fun x y d => logged "scroll" [x; y; d])
    (fun c => logged "type_text" [c])
    (fun k => logged "press_key" [k])
    (fun _ => logged "wait" [])
    (ret call_log tt).

Definition broken_browser : Browser call_log :=
  mkBrowser call_log
    (start call_log mock_browser) (get_state call_log mock_browser)
    (fun _ _ => throw call_log "Browser error")
    (scroll call_log mock_browser) (type_text call_log mock_browser)
    (press_key call_log mock_browser) (wait call_log mock_browser)
    (close call_log mock_browser).

Definition click_action (x y : Z) : Action :=
  mkAction "Click" [("x", VInt x); ("y", VInt y)] None.

Definition text_message (role text : string) : Message :=
  mkMessage role (Text text).

(** The number of digits of [z] written in decimal. *)
Definition numeral_digits (z : Z) : nat := String.length (str (Z.abs z)).

(** [s * n] *)
Fixpoint repeated (s : string) (n : nat) : string :=
  match n with
  | O => EmptyString
  | S k => s ++ repeated s k
  end.

(** The text of a call, as the prompt asks for it. *)
Definition call_text (name args : string) : string :=
  "Action: " ++ name ++ "(" ++ args ++ ")".

End Spec.

(* ================================================================== *)
(** ** [base64]: the encoding of the screenshots *)
(* ================================================================== *)

Module Base64.
Import Py Agent.

Definition alphabet : string :=
  "ABCDEFGHIJKLMNOPQRSTUVWXYZabcdefghijklmnopqrstuvwxyz0123456789+/".

(** The character of a six-bit value. *)
Definition b2a (n : N) : ascii :=
  match String.get (N.to_nat n) alphabet with
  | Some c => c
  | None => "="%char
  end.

(** The six-bit value of a character of the alphabet. *)
Definition a2b (c : ascii) : option N :=
  if between 65 90 c then Some (code c - 65)%N
  else if between 97 122 c then Some (code c - 71)%N
  else if is_digit c then Some (code c + 4)%N
  else if (c =? "+")%char then Some 62%N
  else if (c =? "/")%char then Some 63%N
  else None.

Definition byte_of (n : N) : byte :=
  match Byte.of_N (n mod 256) with
  | Some b => b
  | None => Byte.x00
  end.

(** [base64.b64encode(s).decode("utf-8")]: three bytes give four
    characters, and a rest of one or two bytes is padded with [=]. *)
Fixpoint b64encode (s : list byte) : string :=
  match s with
  | [] => EmptyString
  | [a] =>
      let a := Byte.to_N a in
      String (b2a (N.shiftr a 2))
        (String (b2a (N.shiftl (N.land a 3) 4)) "==")
  | [a; b] =>
      let a := Byte.to_N a in
      let b := Byte.to_N b in
      String (b2a (N.shiftr a 2))
        (String (b2a (N.lor (N.shiftl (N.land a 3) 4) (N.shiftr b 4)))
           (String (b2a (N.shiftl (N.land b 15) 2)) "="))
  | a :: b :: c :: rest =>
      let a := Byte.to_N a in
      let b := Byte.to_N b in
      let c := Byte.to_N c in
      String (b2a (N.shiftr a 2))
        (String (b2a (N.lor (N.shiftl (N.land a 3) 4) (N.shiftr b 4)))
           (String (b2a (N.lor (N.shiftl (N.land b 15) 2) (N.shiftr c 6)))
              (String (b2a (N.land c 63)) (b64encode rest))))
  end.

(** The loop of [binascii.a2b_base64] without [strict_mode]: characters
    outside the alphabet are skipped, a pad that completes a group of
    four ends the input, and [out] holds the bytes decoded so far. *)
Fixpoint a2b_base64 (s : string) (quad_pos leftchar pads : N)
  (out : list byte) : res (list byte) :=
  match s with
  | EmptyString =>
      if (quad_pos =? 0)%N then Done out
      else if (quad_pos =? 1)%N then
        Throw ("Invalid base64-encoded string: number of data characters ("
                 ++ str (len out / 3 * 4 + 1)
                 ++ ") cannot be 1 more than a multiple of 4")
      else Throw "Incorrect padding"
  | String c r =>
      if (c =? "=")%char then
        if (2 <=? quad_pos)%N then
          if (4 <=? quad_pos + (pads + 1))%N then Done out
          else a2b_base64 r quad_pos leftchar (pads + 1)%N out
        else a2b_base64 r quad_pos leftchar pads out
      else
        match a2b c with
        | None => a2b_base64 r quad_pos leftchar pads out
        | Some v =>
            if (quad_pos =? 0)%N then a2b_base64 r 1 v 0 out
            else if (quad_pos =? 1)%N then
              a2b_base64 r 2 (N.land v 15) 0
                (out ++ [byte_of (N.lor (N.shiftl leftchar 2) (N.shiftr v 4))])
            else if (quad_pos =? 2)%N then
              a2b_base64 r 3 (N.land v 3) 0
                (out ++ [byte_of (N.lor (N.shiftl leftchar 4) (N.shiftr v 2))])
            else
              a2b_base64 r 0 0 0
                (out ++ [byte_of (N.lor (N.shiftl leftchar 6) v)])
        end
  end.

(** [base64.b64decode(s)] for a [str]. *)
Definition b64decode (s : string) : res (list byte) :=
  if Spec.all (fun c => (code c <? 128)%N) s then a2b_base64 s 0 0 0 []
  else Throw "string argument should contain only ASCII characters".

End Base64.

(* ================================================================== *)
(** ** Further notions: names, keys and what a run records *)
(* ================================================================== *)

Module Notions.
Import Py Agent Spec.

(** The names [parse_action] accepts. *)
Definition action_names : list string :=
  ["Click"; "Scroll"; "Type"; "Press"; "CallUser"; "Wait"; "Finished"].

(** The names [execute_action] passes on to the browser. *)
Definition browser_names : list string :=
  ["Click"; "Scroll"; "Type"; "Press"; "Wait"].

Definition among (names : list string) (n : string) : bool :=
  existsb (String.eqb n) names.

(** The keys [execute_action] reads from [args], in the order it reads
    them. *)
Definition keys_read (name : string) : list string :=
  if name =? "Click" then ["x"; "y"]
  else if name =? "Scroll" then ["x"; "y"; "direction"]
  else if name =? "Type" then ["content"]
  else if name =? "Press" then ["key"]
  else [].

(** The first of [keys] that the dict [d] does not have. *)
Fixpoint first_missing (keys : list string) (d : list (string * value))
  : option string :=
  match keys with
  | [] => None
  | k :: rest =>
      match get k d with
      | Some _ => first_missing rest d
      | None => Some k
      end
  end.

(** What [execute_action] makes of the outcome of a call: [None] when the
    call returned, the fixed words before [str(e)] when it raised [e];
    the world is the one the call left. *)
Definition reported {World : Type} (outcome : res unit * World)
  : res (option string) * World :=
  match outcome with
  | (Done _, w) => (Done None, w)
  | (Throw e, w) => (Done (Some ("Action execution failed: " ++ e)), w)
  end.

(** A call that returns in every world. *)
Definition safe {World A : Type} (m : M World A) : Prop :=
  forall w, exists a w', m w = (Done a, w').

(** A browser none of whose actions raises. *)
Definition never_raises {World : Type} (browser : Browser World) : Prop :=
  (forall x y w, exists w', click World browser x y w = (Done tt, w'))
  /\ (forall x y d w, exists w', scroll World browser x y d w = (Done tt, w'))
  /\ (forall c w, exists w', type_text World browser c w = (Done tt, w'))
  /\ (forall k w, exists w', press_key World browser k w = (Done tt, w'))
  /\ (forall ms w, exists w', wait World browser ms w = (Done tt, w')).

(** The action of a recorded step: the [Error] placeholder with a
    diagnostic of the parser, or an action of the closed set, with no
    error or with the error of its failed execution. *)
Definition recorded_ok (a : Action) : bool :=
  match error a with
  | None => valid_action a
  | Some e =>
      ((name a =? "Error") && Nat.eqb (List.length (args a)) 0
         && known_diag e)
      || (valid_action (mkAction (name a) (args a) None)
            && among browser_names (name a)
            && startswith "Action execution failed: " e)
  end.

(** After such a step the loop keeps the browser state it has: the step
    carries an error, asks the user, or ends the run. *)
Definition stays (a : Action) : bool :=
  truthy (error a) || (name a =? "CallUser") || (name a =? "Finished").

(** A trace as the loop builds it from the state [s]: every step holds
    the state the loop had, its action is a recorded one, [Finished] is
    followed by nothing, and the next step holds the same state after a
    step that stays, a state [get_state] returned after any other. *)
Fixpoint linked {World : Type} (browser : Browser World) (s : BrowserState)
  (trace : list Recorded) : Prop :=
  match trace with
  | [] => True
  | r :: rest =>
      r_state r = s /\ recorded_ok (r_action r) = true
      /\ match rest with
         | [] => True
         | r' :: _ =>
             name (r_action r) <> "Finished"
             /\ (if stays (r_action r) then r_state r' = s
                 else exists w1 w2,
                        get_state World browser w1 = (Done (r_state r'), w2))
         end
      /\ linked browser (match rest with r' :: _ => r_state r' | [] => s end)
           rest
  end.

(** A message [run] appends after the system prompt: plain text, or what
    [build_message] makes of a browser state. *)
Definition turn_message (msg : Message) : Prop :=
  (exists s, msg_content msg = Text s)
  \/ (exists st task, msg = build_message st task).

(** What [run] may ask the model: the system prompt first, a user message
    last, and with a budget of one image or more, no more image-bearing
    messages than the budget. *)
Definition request_ok (max_images : Z) (request : list Message) : bool :=
  match request with
  | first :: _ =>
      (role first =? "system")
      && match msg_content first with
         | Text s => s =? SYSTEM_PROMPT
         | Parts _ => false
         end
  | [] => false
  end
  && (role (last request (mkMessage "" (Text ""))) =? "user")
  && ((max_images <? 1)%Z
      || (len (image_messages request) <=? max_images)%Z).

(** The agent with an assertion on every request to the model. *)
Definition checked {World : Type} (self : WebNavAgent World)
  : WebNavAgent World :=
  mkWebNavAgent World
    (fun request =>
       if request_ok (max_images World self) request
       then llm_fn World self request
       else throw World "assertion failed")
    (max_images World self) (max_steps World self) (headless World self)
    (start_url World self) (user_input_fn World self).

(** An agent over the call log whose model finishes at once, and a
    browser that logs its [close] and cannot start. *)
Definition finishing_agent : WebNavAgent call_log :=
  mkWebNavAgent call_log (fun _ => ret call_log "Action: Finished()")
    1 10 true "about:blank" (fun _ => ret call_log "yes").

(** An agent over the call log whose model always clicks. *)
Definition clicking_agent : WebNavAgent call_log :=
  mkWebNavAgent call_log (fun _ => ret call_log "Action: Click(1, 2)")
    1 3 true "about:blank" (fun _ => ret call_log "yes").

Definition offline_browser : Browser call_log :=
  mkBrowser call_log
    (fun _ => throw call_log "net::ERR_NAME_NOT_RESOLVED")
    (get_state call_log mock_browser) (click call_log mock_browser)
    (scroll call_log mock_browser) (type_text call_log mock_browser)
    (press_key call_log mock_browser) (wait call_log mock_browser)
    (logged "close" []).

End Notions.

(* ================================================================== *)
(** ** [browser.py]: the [Browser] class over Playwright *)
(* ================================================================== *)

Module BrowserPy.
Import Py Agent Base64.

(** The fields of a [Browser] object. The three handles are [None] or an
    object of Playwright; only that much of them is read. *)
Record BrowserObject : Type := mkBrowserObject {
  viewport_width : Z;
  viewport_height : Z;
  _playwright : bool;
  _browser : bool;
  _page : bool;
  _headless : bool
}.

(** [Browser(headless, viewport_width, viewport_height)] *)
Definition init (headless : bool) (viewport_width viewport_height : Z)
  : BrowserObject :=
  mkBrowserObject viewport_width viewport_height false false false headless.

Section Playwright.
(** The world outside the program. *)
Variable Ext : Type.

(** [int(v * extent / 1000)], an integer or a string times an integer,
    divided as floating-point numbers and truncated: taken as given. *)
Variable to_pixel : value -> Z -> res Z.

(** The calls of the Playwright API that [Browser] makes. *)
Record Playwright : Type := mkPlaywright {
  sync_playwright_start : M Ext unit;
  chromium_launch : bool -> M Ext unit;
  new_page : Z -> Z -> M Ext unit;
  page_goto : string -> M Ext unit;
  page_screenshot : M Ext (list byte);
  page_url : M Ext string;
  mouse_click : Z -> Z -> M Ext unit;
  mouse_move : Z -> Z -> M Ext unit;
  mouse_wheel : Z -> Z -> M Ext unit;
  keyboard_type : value -> M Ext unit;
  keyboard_press : value -> M Ext unit;
  wait_for_timeout : Z -> M Ext unit;
  page_close : M Ext unit;
  browser_close : M Ext unit;
  playwright_stop : M Ext unit
}.

Variable pw : Playwright.

(** The object and the world it acts on. *)
Definition World : Type := (BrowserObject * Ext)%type.

Notation "x <- m ;; k" := (bindM World m (fun x => k))
  (at level 61, m at next level, right associativity).
Notation "m ;;; k" := (bindM World m (fun _ => k))
  (at level 61, right associativity).

(** A call into Playwright: the object stays as it is. *)
Definition call {A} (m : M Ext A) : M World A :=
  fun w =>
    match m (snd w) with
    | (r, e) => (r, (fst w, e))
    end.

Definition self : M World BrowserObject := fun w => (Done (fst w), w).

Definition assign (f : BrowserObject -> BrowserObject) : M World unit :=
  fun w => (Done tt, (f (fst w), snd w)).

Definition pure {A} (r : res A) : M World A := fun w => (r, w).

(** The property [page]. *)
Definition page : M World unit :=
  o <- self ;;
  if _page o then ret World tt
  else throw World "Browser not started. Call start() first.".

Definition get_state : M World BrowserState :=
  page ;;;
  screenshot_bytes <- call (page_screenshot pw) ;;
  let screenshot_b64 := b64encode screenshot_bytes in
  page ;;;
  url <- call (page_url pw) ;;
  ret World (mkBrowserState screenshot_b64 url).

Definition start (start_url : string) : M World BrowserState :=
  call (sync_playwright_start pw) ;;;
  assign (fun o => mkBrowserObject (viewport_width o) (viewport_height o)
                     true (_browser o) (_page o) (_headless o)) ;;;
  o <- self ;;
  call (chromium_launch pw (_headless o)) ;;;
  assign (fun o => mkBrowserObject (viewport_width o) (viewport_height o)
                     (_playwright o) true (_page o) (_headless o)) ;;;
  o <- self ;;
  call (new_page pw (viewport_width o) (viewport_height o)) ;;;
  assign (fun o => mkBrowserObject (viewport_width o) (viewport_height o)
                     (_playwright o) (_browser o) true (_headless o)) ;;;
  call (page_goto pw start_url) ;;;
  get_state.

Definition click (x y : value) : M World unit :=
  o <- self ;;
  px_x <- pure (to_pixel x (viewport_width o)) ;;
  px_y <- pure (to_pixel y (viewport_height o)) ;;
  page ;;;
  call (mouse_click pw px_x px_y).

(** [direction == "up"] *)
Definition is_up (direction : value) : bool :=
  match direction with
  | VStr d => d =? "up"
  | VInt _ => false
  end.

Definition scroll (x y direction : value) : M World unit :=
  o <- self ;;
  px_x <- pure (to_pixel x (viewport_width o)) ;;
  px_y <- pure (to_pixel y (viewport_height o)) ;;
  page ;;;
  call (mouse_move pw px_x px_y) ;;;
  let delta := if is_up direction then (-300)%Z else 300%Z in
  page ;;;
  call (mouse_wheel pw 0 delta).

Definition type_text (content : value) : M World unit :=
  page ;;; call (keyboard_type pw content).

Definition press_key (key : value) : M World unit :=
  page ;;; call (keyboard_press pw key).

Definition wait (ms : Z) : M World unit :=
  page ;;; call (wait_for_timeout pw ms).

Definition close : M World unit :=
  o <- self ;;
  (if _page o then call (page_close pw) else ret World tt) ;;;
  (if _browser o then call (browser_close pw) else ret World tt) ;;;
  (if _playwright o then call (playwright_stop pw) else ret World tt).

(** The object as the agent uses it. *)
Definition browser : Browser World :=
  mkBrowser World start get_state click scroll type_text press_key wait close.

(** An agent of the outside world, acting beside the object. *)
Definition beside (agent : WebNavAgent Ext) : WebNavAgent World :=
  mkWebNavAgent World
    (fun request => call (llm_fn Ext agent request))
    (max_images Ext agent) (max_steps Ext agent) (headless Ext agent)
    (start_url Ext agent)
    (fun prompt => call (user_input_fn Ext agent prompt)).

(** [WebNavAgent.run] with the [Browser] it creates: the object is gone
    when the run is over. *)
Definition run_browser (agent : WebNavAgent Ext) (task : string)
  : M Ext (list Recorded) :=
  fun e =>
    match run World (beside agent) browser task
            (init (headless Ext agent) 1280 720, e) with
    | (r, w) => (r, snd w)
    end.

End Playwright.

(** A Playwright whose calls return, those of the mouse and the keyboard
    apart, which may raise. *)
Definition steady {Ext : Type} (pw : Playwright Ext) : Prop :=
  Notions.safe (sync_playwright_start Ext pw)
  /\ (forall h, Notions.safe (chromium_launch Ext pw h))
  /\ (forall w h, Notions.safe (new_page Ext pw w h))
  /\ (forall url, Notions.safe (page_goto Ext pw url))
  /\ Notions.safe (page_screenshot Ext pw)
  /\ Notions.safe (page_url Ext pw)
  /\ (forall ms, Notions.safe (wait_for_timeout Ext pw ms))
  /\ Notions.safe (page_close Ext pw)
  /\ Notions.safe (browser_close Ext pw)
  /\ Notions.safe (playwright_stop Ext pw).

(** **** A Playwright that logs its calls

    A call raises when the plan [fails] has a text for it; the page
    shows the bytes [screen] at the address [address]. *)
Inductive pw_call : Type :=
| Start
| Launch (headless : bool)
| NewPage (width height : Z)
| Goto (url : string)
| Screenshot
| Url
| MouseClick (x y : Z)
| MouseMove (x y : Z)
| MouseWheel (dx dy : Z)
| KeyboardType (text : value)
| KeyboardPress (key : value)
| WaitForTimeout (ms : Z)
| PageClose
| BrowserClose
| Stop.

Record pw_world : Type := mkPwWorld {
  calls : list pw_call;
  fails : pw_call -> option string;
  screen : list byte;
  address : string
}.

Definition logged_call {A} (c : pw_call) (result : pw_world -> A)
  : M pw_world A :=
  fun w =>
    let w' := mkPwWorld (calls w ++ [c]) (fails w) (screen w) (address w) in
    match fails w c with
    | Some e => (Throw e, w')
    | None => (Done (result w), w')
    end.

Definition logging : Playwright pw_world :=
  mkPlaywright pw_world
    (logged_call Start (fun _ => tt))
    (fun h => logged_call (Launch h) (fun _ => tt))
    (fun w h => logged_call (NewPage w h) (fun _ => tt))
    (fun u => logged_call (Goto u) (fun _ => tt))
    (logged_call Screenshot screen)
    (logged_call Url address)
    (fun x y => logged_call (MouseClick x y) (fun _ => tt))
    (fun x y => logged_call (MouseMove x y) (fun _ => tt))
    (fun dx dy => logged_call (MouseWheel dx dy) (fun _ => tt))
    (fun t => logged_call (KeyboardType t) (fun _ => tt))
    (fun k => logged_call (KeyboardPress k) (fun _ => tt))
    (fun ms => logged_call (WaitForTimeout ms) (fun _ => tt))
    (logged_call PageClose (fun _ => tt))
    (logged_call BrowserClose (fun _ => tt))
    (logged_call Stop (fun _ => tt)).

(** [int(z * extent / 1000)] for integers whose product is below 2^53
    in absolute value: the division is then exact up to the truncation,
    which is that of the integer quotient. Used for such products only. *)
Definition small_pixel (v : value) (extent : Z) : res Z :=
  match v with
  | VInt z => Done (Z.quot (z * extent) 1000)
  | VStr _ => Throw "unsupported operand type(s) for /: 'str' and 'int'"
  end.

(** The calls [start] makes, in order. *)
Definition start_calls (headless : bool) (width height : Z) (url : string)
  : list pw_call :=
  [Start; Launch headless; NewPage width height; Goto url; Screenshot; Url].

(** The number of calls at the head of [l] that the plan lets succeed. *)
Fixpoint succeeding (fails : pw_call -> option string) (l : list pw_call)
  : nat :=
  match l with
  | [] => 0
  | c :: rest =>
      match fails c with
      | Some _ => 0
      | None => S (succeeding fails rest)
      end
  end.

End BrowserPy.

(* ================================================================== *)
(** ** [save_results.py]: the files of [save_run] *)
(* ================================================================== *)

Module Files.
Import Py Agent SaveResults Base64.

(** [os.path.join(a, b)] of [posixpath]. *)
Definition ends_with_sep (path : string) : bool :=
  match String.get (String.length path - 1) path with
  | Some c => (c =? "/")%char
  | None => false
  end.

Definition path_join (a b : string) : string :=
  if startswith "/" b then b
  else if is_empty a || ends_with_sep a then a ++ b
  else a ++ "/" ++ b.

(** What is written to a file: the bytes of a screenshot, or the summary
    that [json.dump] writes out. *)
Inductive data : Type :=
| Bytes (b : list byte)
| Json (summary : Summary).

Section FileSystem.
Variable Ext : Type.

(** The clock and the file system as [save_run] uses them; [utc_now] is
    the time of day in UTC, formatted by [strftime]. *)
Record FileSystem : Type := mkFileSystem {
  utc_now : M Ext string;
  makedirs : string -> M Ext unit;
  open_file : string -> M Ext unit;
  write_file : string -> data -> M Ext unit;
  close_file : string -> M Ext unit
}.

Variable fs : FileSystem.

Notation "x <- m ;; k" := (bindM Ext m (fun x => k))
  (at level 61, m at next level, right associativity).
Notation "m ;;; k" := (bindM Ext m (fun _ => k))
  (at level 61, right associativity).

(** [with open(path, mode) as f: body]: the file is closed on every way
    out of the body. *)
Definition with_open {A} (path : string) (body : M Ext A) : M Ext A :=
  fun w =>
    match open_file fs path w with
    | (Throw e, w1) => (Throw e, w1)
    | (Done _, w1) =>
        match body w1 with
        | (r, w2) =>
            match close_file fs path w2 with
            | (Done _, w3) => (r, w3)
            | (Throw e, w3) => (Throw e, w3)
            end
        end
    end.

(** The [for] loop of [save_run], from index [i] on. *)
Fixpoint save_steps (screenshots_dir : string) (i : nat)
  (steps : list Recorded) : M Ext (list StepRecord) :=
  match steps with
  | [] => ret Ext []
  | s :: rest =>
      let img_path :=
        path_join screenshots_dir ("step_" ++ fmt_02d i ++ ".png") in
      with_open img_path
        (match b64decode (screenshot_b64 (r_state s)) with
         | Done b => write_file fs img_path (Bytes b)
         | Throw e => throw Ext e
         end) ;;;
      records <- save_steps screenshots_dir (S i) rest ;;
      ret Ext (step_record i s :: records)
  end.

(** [save_run(task, steps, output_dir)] with the directory and the files
    it writes; it returns the run directory. *)
Definition save_run_files (task : string) (steps : list Recorded)
  (output_dir : string) : M Ext string :=
  timestamp <- utc_now fs ;;
  let run_dir := path_join output_dir timestamp in
  let screenshots_dir := path_join run_dir "screenshots" in
  makedirs fs screenshots_dir ;;;
  step_records <- save_steps screenshots_dir 0 steps ;;
  let summary := mkSummary task timestamp (len steps) step_records in
  let summary_path := path_join run_dir "summary.json" in
  with_open summary_path (write_file fs summary_path (Json summary)) ;;;
  ret Ext run_dir.

End FileSystem.

(** A clock and a file system whose calls return. *)
Definition sound {Ext : Type} (fs : FileSystem Ext) : Prop :=
  Notions.safe (utc_now Ext fs)
  /\ (forall p, Notions.safe (makedirs Ext fs p))
  /\ (forall p, Notions.safe (open_file Ext fs p))
  /\ (forall p d, Notions.safe (write_file Ext fs p d))
  /\ (forall p, Notions.safe (close_file Ext fs p)).

(** **** A file system that records what is done to it *)
Inductive fs_op : Type :=
| Makedirs (path : string)
| Open (path : string)
| Write (path : string) (d : data)
| Close (path : string).

Record fs_world : Type := mkFsWorld {
  clock : string;
  ops : list fs_op
}.

Definition record_op (op : fs_op) : M fs_world unit :=
  fun w => (Done tt, mkFsWorld (clock w) (ops w ++ [op])).

Definition recording : FileSystem fs_world :=
  mkFileSystem fs_world
    (fun w => (Done (clock w), w))
    (fun p => record_op (Makedirs p))
    (fun p => record_op (Open p))
    (fun p d => record_op (Write p d))
    (fun p => record_op (Close p)).

(** The screenshot file of step [i] in the run directory [run_dir]. *)
Definition screenshot_path (run_dir : string) (i : nat) : string :=
  path_join (path_join run_dir "screenshots") ("step_" ++ fmt_02d i ++ ".png").

(** What [save_run] does for a step whose screenshot decodes to [b]. *)
Definition saved (run_dir : string) (i : nat) (b : list byte) : list fs_op :=
  [Open (screenshot_path run_dir i);
   Write (screenshot_path run_dir i) (Bytes b);
   Close (screenshot_path run_dir i)].

Fixpoint saved_from (run_dir : string) (i : nat) (shots : list (list byte))
  : list fs_op :=
  match shots with
  | [] => []
  | b :: rest => (saved run_dir i b ++ saved_from run_dir (S i) rest)%list
  end.

End Files.

(* ================================================================== *)
(** ** [run.py] and [interactive.py] *)
(* ================================================================== *)

Module Program.
Import Py Agent SaveResults Base64 BrowserPy Files.

Section Main.
Variable Ext : Type.
Variable to_pixel : value -> Z -> res Z.
Variable pw : Playwright Ext.
Variable fs : FileSystem Ext.

(** [input(prompt)] and [print(line)]. *)
Variable input : string -> M Ext string.
Variable print : string -> M Ext unit.

(** [call_llm] of [llm.py]: the request to the model's API. *)
Variable call_llm : list Message -> M Ext string.

Notation "x <- m ;; k" := (bindM Ext m (fun x => k))
  (at level 61, m at next level, right associativity).
Notation "m ;;; k" := (bindM Ext m (fun _ => k))
  (at level 61, right associativity).

(** [WebNavAgent(llm_fn=llm_fn, headless=False)], the other fields at
    their defaults. *)
Definition default_agent (llm_fn : list Message -> M Ext string)
  : WebNavAgent Ext :=
  mkWebNavAgent Ext llm_fn 1 10 false "https://www.amazon.com/" input.

(** The script of [run.py]. *)
Definition main : M Ext unit :=
  line <- input "Task: " ;;
  let task := strip line in
  steps <- run_browser Ext to_pixel pw (default_agent call_llm) task ;;
  run_dir <- save_run_files Ext fs task steps "results" ;;
  print (nl ++ "Results saved to: " ++ run_dir).

(** **** [interactive.py] *)

(** [show_screenshot]: what comes after the decoding is the image
    library and the window. *)
Variable show_image : list byte -> M Ext unit.

Definition show_screenshot (b64_image : string) : M Ext unit :=
  match b64decode b64_image with
  | Done img_bytes => show_image img_bytes
  | Throw e => throw Ext e
  end.

(** [url.split(",", 1)[1]] *)
Definition after_comma (url : string) : res string :=
  match Spec.partition "," url with
  | Some (_, rest) => Done rest
  | None => Throw "list index out of range"
  end.

(** The inner loop of the search for a screenshot: the first image part
    of [items]. *)
Fixpoint first_image (items : list part) : option string :=
  match items with
  | [] => None
  | TextPart _ :: rest => first_image rest
  | ImageUrlPart url :: _ => Some url
  end.

(** The outer loop, over the conversation reversed: the first user
    message with a list content decides. *)
Fixpoint find_screenshot (reversed : list Message) : option string :=
  match reversed with
  | [] => None
  | msg :: rest =>
      match user_list msg with
      | Some items => first_image items
      | None => find_screenshot rest
      end
  end.

(** [repr] of a part, a dict with its keys in the order [build_message]
    gives them. *)
Definition repr_part (item : part) : string :=
  match item with
  | TextPart text => "{'type': 'text', 'text': " ++ repr text ++ "}"
  | ImageUrlPart url =>
      "{'type': 'image_url', 'image_url': {'url': " ++ repr url ++ "}}"
  end.

(** [f"{content}"] *)
Definition format_content (c : content) : string :=
  match c with
  | Text s => s
  | Parts items => "[" ++ String.concat ", " (map repr_part items) ++ "]"
  end.

(** [content[:100]] *)
Definition first_100 (c : content) : content :=
  match c with
  | Text s => Text (substring 0 100 s)
  | Parts items => Parts (firstn 100 items)
  end.

(** The lines the transcript loop prints for one message. *)
Definition transcript_lines (msg : Message) : list string :=
  if role msg =? "system" then
    ["[SYSTEM] " ++ format_content (first_100 (msg_content msg)) ++ "..."]
  else if role msg =? "assistant" then
    ["[ASSISTANT] " ++ format_content (msg_content msg)]
  else if role msg =? "user" then
    match msg_content msg with
    | Parts items =>
        map (fun item => match item with
                         | TextPart text => "[USER] " ++ text
                         | ImageUrlPart _ => "[USER] [IMAGE]"
                         end) items
    | Text s => ["[USER] " ++ s]
    end
  else [].

Fixpoint print_all (lines : list string) : M Ext unit :=
  match lines with
  | [] => ret Ext tt
  | line :: rest => print line ;;; print_all rest
  end.

Definition ruler : string :=
  "============================================================".

Definition menu : list string :=
  [nl ++ "Actions:";
   "  Click(x, y)              - Click at coordinates";
   "  Type(text)               - Type text";
   "  Scroll(x, y, up/down)    - Scroll at position";
   "  Press(Enter/Tab/...)     - Press key";
   "  Wait()                   - Wait for page load";
   "  Finished()               - Task complete";
   "  CallUser(question)       - Ask user for help";
   nl ++ "Enter action:"].

Definition mock_llm (conversation : list Message) : M Ext string :=
  match find_screenshot (rev conversation) with
  | Some url =>
      match after_comma url with
      | Done b64 => show_screenshot b64
      | Throw e => throw Ext e
      end
  | None => ret Ext tt
  end ;;;
  print (nl ++ ruler) ;;;
  print_all (flat_map transcript_lines conversation) ;;;
  print ruler ;;;
  print_all menu ;;;
  line <- input "" ;;
  ret Ext (if negb (startswith "Action:" line) then "Action: " ++ line
           else line).

(** The script of [interactive.py]. *)
Definition interactive_main : M Ext unit :=
  let task :=
    "Add to cart the book 'The Thinking Machine' by Ian Anderson on Amazon."
  in
  run_browser Ext to_pixel pw (default_agent mock_llm) task ;;;
  ret Ext tt.

End Main.

(** **** A console that records

    The lines typed ahead are read by [input]; what is printed and the
    images shown are kept in order. *)
Record console : Type := mkConsole {
  typed : list string;
  printed : list string;
  shown : list (list byte)
}.

(** [input(prompt)]: the prompt is written out when it is not empty; at
    the end of the input it raises [EOFError]. *)
Definition console_input (prompt : string) : M console string :=
  fun w =>
    let out := if is_empty prompt then printed w
               else (printed w ++ [prompt])%list in
    match typed w with
    | line :: rest => (Done line, mkConsole rest out (shown w))
    | [] => (Throw "EOF when reading a line", mkConsole [] out (shown w))
    end.

Definition console_print (line : string) : M console unit :=
  fun w => (Done tt, mkConsole (typed w) (printed w ++ [line]) (shown w)).

Definition console_show (image : list byte) : M console unit :=
  fun w => (Done tt, mkConsole (typed w) (printed w) (shown w ++ [image])).

(** An agent beside the logging Playwright whose model finishes at
    once. *)
Definition quick_agent : WebNavAgent pw_world :=
  mkWebNavAgent pw_world (fun _ => ret pw_world "Action: Finished()")
    1 10 true "about:blank" (fun _ => ret pw_world "yes").

(** A world in which nothing is kept: every call returns at once, the
    page is blank, and all the mouse and the keyboard do is raise. *)
Definition silent_pw : Playwright unit :=
  mkPlaywright unit
    (ret unit tt) (fun _ => ret unit tt) (fun _ _ => ret unit tt)
    (fun _ => ret unit tt) (ret unit []) (ret unit "about:blank")
    (fun _ _ => throw unit "Target closed")
    (fun _ _ => throw unit "Target closed")
    (fun _ _ => throw unit "Target closed")
    (fun _ => throw unit "Target closed")
    (fun _ => throw unit "Target closed")
    (fun _ => ret unit tt) (ret unit tt) (ret unit tt) (ret unit tt).

Definition silent_fs : FileSystem unit :=
  mkFileSystem unit (ret unit "20240131_120000") (fun _ => ret unit tt)
    (fun _ => ret unit tt) (fun _ _ => ret unit tt) (fun _ => ret unit tt).

(** What [mock_llm] returns for the line typed. *)
Definition reply_to (line : string) : string :=
  if startswith "Action:" line then line else "Action: " ++ line.

End Program.

(* ================================================================== *)
(** ** Facts about strings and the Python primitives *)
(* ================================================================== *)

Module StringFacts.
Import Py Spec.

Lemma append_assoc (a b c : string) : (a ++ b) ++ c = a ++ (b ++ c).
Proof. induction a as [|x a IH]; simpl; [reflexivity | now rewrite IH]. Qed.

Lemma all_app p (a b : string) : all p (a ++ b) = all p a && all p b.
Proof.
  induction a as [|x a IH]; simpl; [reflexivity|].
  now rewrite IH, andb_assoc.
Qed.

Lemma all_impl (p q : ascii -> bool) (s : string) :
  (forall c, p c = true -> q c = true) -> all p s = true -> all q s = true.
Proof.
  intros Hpq. induction s as [|c s IH]; simpl; [reflexivity|].
  intros H. apply andb_true_iff in H as [Hc Hs].
  now rewrite (Hpq _ Hc), IH.
Qed.

Lemma span_app p (a r : string) :
  all p a = true -> stops p r -> span p (a ++ r) = (a, r).
Proof.
  intros Ha Hr. induction a as [|c a IH]; simpl in *.
  - destruct r as [|d r]; simpl in *; [reflexivity | now rewrite Hr].
  - apply andb_true_iff in Ha as [Hc Ha]. rewrite Hc.
    now rewrite (IH Ha).
Qed.

Lemma span_spec p (s : string) :
  s = fst (span p s) ++ snd (span p s)
  /\ all p (fst (span p s)) = true /\ stops p (snd (span p s)).
Proof.
  induction s as [|c s (IH1 & IH2 & IH3)]; simpl.
  - repeat split.
  - destruct (p c) eqn:Hc; simpl.
    + rewrite Hc, IH2. repeat split; [now rewrite <- IH1 | exact IH3].
    + repeat split. exact Hc.
Qed.

Lemma strip_prefix_app (pre s : string) :
  Re.strip_prefix pre (pre ++ s) = Some s.
Proof.
  induction pre as [|c pre IH]; simpl; [reflexivity|].
  now rewrite Ascii.eqb_refl.
Qed.

Lemma strip_prefix_some (pre s r : string) :
  Re.strip_prefix pre s = Some r <-> s = pre ++ r.
Proof.
  split.
  - revert s. induction pre as [|c pre IH]; simpl; intros s H.
    + now inversion H.
    + destruct s as [|d s]; [discriminate|].
      destruct (Ascii.eqb_spec c d) as [->|]; [|discriminate].
      now rewrite (IH _ H).
  - intros ->. apply strip_prefix_app.
Qed.

Lemma lstrip_id p (s : string) : stops p s -> lstrip p s = s.
Proof. destruct s as [|c s]; simpl; [reflexivity | now intros ->]. Qed.

Lemma rstrip_keeps p (s : string) :
  all (fun c => negb (p c)) s = true -> rstrip p s = s.
Proof.
  induction s as [|c s IH]; simpl; [reflexivity|].
  intros H. apply andb_true_iff in H as [Hc Hs].
  rewrite (IH Hs). apply negb_true_iff in Hc. rewrite Hc.
  now destruct s.
Qed.

Lemma rstrip_app p (a b : string) :
  rstrip p b <> "" -> rstrip p (a ++ b) = a ++ rstrip p b.
Proof.
  intros Hb. induction a as [|c a IH]; simpl; [reflexivity|].
  rewrite IH. destruct (a ++ rstrip p b) eqn:E; [|reflexivity].
  destruct a; simpl in E; [contradiction | discriminate].
Qed.

Lemma strip_chars_keeps p (s : string) :
  all (fun c => negb (p c)) s = true -> strip_chars p s = s.
Proof.
  intros H. unfold strip_chars.
  rewrite lstrip_id; [now apply rstrip_keeps|].
  destruct s as [|c s]; simpl in *; [exact I|].
  apply andb_true_iff in H as [Hc _]. now apply negb_true_iff in Hc.
Qed.

Lemma split_one sep (s : string) :
  all (Re.not_char sep) s = true -> split sep s = [s].
Proof.
  induction s as [|c s IH]; simpl; [reflexivity|].
  intros H. apply andb_true_iff in H as [Hc Hs].
  unfold Re.not_char in Hc. apply negb_true_iff in Hc.
  now rewrite Hc, (IH Hs).
Qed.

Lemma split_app sep (a r : string) :
  all (Re.not_char sep) a = true ->
  split sep (a ++ String sep r) = a :: split sep r.
Proof.
  induction a as [|c a IH]; simpl.
  - intros _. now rewrite Ascii.eqb_refl.
  - intros H. apply andb_true_iff in H as [Hc Hs].
    unfold Re.not_char in Hc. apply negb_true_iff in Hc.
    now rewrite Hc, (IH Hs).
Qed.

Lemma split_nonempty sep (s : string) : split sep s <> [].
Proof.
  destruct s as [|c s]; simpl; [discriminate|].
  destruct (c =? sep)%char; [discriminate|].
  destruct (split sep s); discriminate.
Qed.

End StringFacts.

(* ================================================================== *)
(** ** The three patterns, read deterministically *)
(* ================================================================== *)

Module ReFacts.
Import Py Agent SaveResults Spec StringFacts.

Section Greedy.
Context {A : Type}.
Variable cls : ascii -> bool.

Lemma rep_greedy_span (s : string) (k : string -> string -> option A) :
  (forall t c r, cls c = true -> k t (String c r) = None) ->
  Re.rep_greedy cls s k = k (fst (span cls s)) (snd (span cls s)).
Proof.
  revert k. induction s as [|c s IH]; intros k Hk; simpl; [reflexivity|].
  destruct (cls c) eqn:Hc; simpl; [|reflexivity].
  rewrite IH by (intros; now apply Hk).
  destruct (k _ _) eqn:E; [reflexivity|].
  now apply Hk.
Qed.

Lemma rep_greedy_accept (s : string) (k : string -> string -> option A) x :
  k (fst (span cls s)) (snd (span cls s)) = Some x ->
  Re.rep_greedy cls s k = Some x.
Proof.
  revert k. induction s as [|c s IH]; intros k Hk; simpl in *; [exact Hk|].
  destruct (cls c) eqn:Hc; simpl in *; [|exact Hk].
  now rewrite (IH (fun t => k (String c t)) Hk).
Qed.

Lemma rep_greedy_stops (s : string) (k : string -> string -> option A) :
  stops cls s -> Re.rep_greedy cls s k = k "" s.
Proof. destruct s as [|c s]; simpl; [reflexivity | now intros ->]. Qed.
End Greedy.

Lemma space_not_word c : is_space c = true -> is_word c = false.
Proof.
  destruct c as [[] [] [] [] [] [] [] []]; vm_compute; congruence.
Qed.

Lemma word_not_paren c : is_word c = true -> (c =? "(")%char = false.
Proof.
  destruct c as [[] [] [] [] [] [] [] []]; vm_compute; congruence.
Qed.

Lemma is_empty_true s : is_empty s = true <-> s = "".
Proof. destruct s; simpl; split; congruence. Qed.

Lemma one_leb_length s :
  match String.length s with 0 => false | S _ => true end = negb (is_empty s).
Proof. now destruct s. Qed.

Lemma paren_not_word c : is_word c = true -> ("(" =? c)%char = false.
Proof. intros H. rewrite Ascii.eqb_sym. now apply word_not_paren. Qed.

Lemma match_here_call s : Re.match_here call_re s = call_at s.
Proof.
  unfold call_re, call_at. cbn [Re.match_here Re.atom_of Re.capture].
  destruct (Re.strip_prefix "Action:" s) as [r1|]; [|reflexivity].
  rewrite rep_greedy_span.
  2:{ intros t c r Hc. cbv beta.
      rewrite rep_greedy_stops by (simpl; now apply space_not_word).
      reflexivity. }
  cbn [Nat.leb]. 
  rewrite rep_greedy_span.
  2:{ intros t c r Hc. destruct (String.length t); [reflexivity|].
      cbn [Re.strip_prefix]. now rewrite (paren_not_word _ Hc). }
  rewrite one_leb_length.
  destruct (is_empty _); cbn [negb]; [reflexivity|].
  destruct (Re.strip_prefix "(" _) as [r4|]; [|reflexivity].
  rewrite rep_greedy_span.
  2:{ intros t c r Hc. cbn [Nat.leb Re.strip_prefix]. unfold Re.not_char in Hc.
      apply negb_true_iff in Hc. rewrite Ascii.eqb_sym in Hc. now rewrite Hc. }
  cbn [Nat.leb]. 
  destruct (Re.strip_prefix ")" _); reflexivity.
Qed.

Lemma match_here_bare s : Re.match_here bare_re s = bare_at s.
Proof.
  unfold bare_re, bare_at. cbn [Re.match_here Re.atom_of Re.capture].
  destruct (Re.strip_prefix "Action:" s) as [r1|]; [|reflexivity].
  rewrite rep_greedy_span.
  2:{ intros t c r Hc. cbv beta.
      rewrite rep_greedy_stops by (simpl; now apply space_not_word).
      reflexivity. }
  cbn [Nat.leb].
  destruct (is_empty (fst (span is_word (snd (span is_space r1))))) eqn:E.
  - apply is_empty_true in E. 
    destruct (snd (span is_space r1)) as [|c r] eqn:E2; [reflexivity|].
    simpl in E. simpl. destruct (is_word c); [discriminate|]. reflexivity.
  - cbn. erewrite rep_greedy_accept; [reflexivity|].
    rewrite one_leb_length, E. reflexivity.
Qed.

Lemma search_eq p s :
  Re.search p s =
  match Re.match_here p s with
  | Some m => Some m
  | None => match s with String _ r => Re.search p r | EmptyString => None end
  end.
Proof. now destruct s. Qed.

Lemma search_some p s m : Re.search p s = Some m <-> leftmost p s m.
Proof.
  split.
  - induction s as [|c s IH]; rewrite search_eq;
      destruct (Re.match_here p _) as [m'|] eqn:E; try discriminate.
    + intros [= ->]. exists "", "". repeat split; [exact E|].
      intros pre' post' _ Hlt. inversion Hlt.
    + intros [= ->]. exists "", (String c s). repeat split; [exact E|].
      intros pre' post' _ Hlt. inversion Hlt.
    + intros H. destruct (IH H) as (pre & post & -> & Hm & Hmin).
      exists (String c pre), post. repeat split; [exact Hm|].
      intros [|c' pre'] post' Heq Hlt; simpl in *.
      * now subst post'.
      * injection Heq as -> Heq. apply (Hmin pre' post' Heq). lia.
  - intros (pre & post & -> & Hm & Hmin).
    induction pre as [|c pre IH]; cbn [append] in *.
    + rewrite search_eq. now rewrite Hm.
    + rewrite search_eq.
      rewrite (Hmin "" (String c (pre ++ post)) eq_refl) by (simpl; lia).
      apply IH. intros pre' post' Heq Hlt.
      apply (Hmin (String c pre') post'); [now rewrite Heq | simpl; lia].
Qed.

Lemma search_none p s :
  Re.search p s = None <->
  forall pre post, s = pre ++ post -> Re.match_here p post = None.
Proof.
  split.
  - induction s as [|c s IH]; rewrite search_eq;
      destruct (Re.match_here p _) as [m'|] eqn:E; try discriminate.
    + intros _ [|c' pre] post Heq; simpl in Heq; [now subst | discriminate].
    + intros H [|c' pre] post Heq; simpl in Heq; [now subst|].
      injection Heq as -> Heq. now apply (IH H pre).
  - intros H. induction s as [|c s IH]; rewrite search_eq.
    + now rewrite (H "" "" eq_refl).
    + rewrite (H "" (String c s) eq_refl). apply IH.
      intros pre post ->. now apply (H (String c pre) post).
Qed.

Lemma word_not_space c : is_word c = true -> is_space c = false.
Proof.
  destruct c as [[] [] [] [] [] [] [] []]; vm_compute; congruence.
Qed.


Lemma call_at_form s m :
  call_at s = Some m <-> exists n a, m = [n; a] /\ call_form s n a.
Proof.
  unfold call_at, call_form. split.
  - destruct (Re.strip_prefix "Action:" s) as [r1|] eqn:E1; [|discriminate].
    apply strip_prefix_some in E1.
    destruct (span_spec is_space r1) as (S1 & S2 & _).
    destruct (span_spec is_word (snd (span is_space r1))) as (W1 & W2 & _).
    destruct (is_empty _) eqn:En; [discriminate|].
    destruct (Re.strip_prefix "(" _) as [r4|] eqn:E4; [|discriminate].
    apply strip_prefix_some in E4.
    destruct (span_spec (Re.not_char ")") r4) as (A1 & A2 & _).
    destruct (Re.strip_prefix ")" _) as [r6|] eqn:E6; [|discriminate].
    apply strip_prefix_some in E6.
    intros [= <-]. eexists _, _. split; [reflexivity|].
    exists (fst (span is_space r1)), r6. repeat split; auto.
    + rewrite E1. f_equal. rewrite S1 at 1. f_equal.
      rewrite W1 at 1. f_equal. rewrite E4. f_equal.
      rewrite A1 at 1. f_equal. exact E6.
    + intros Hn. rewrite Hn in En. discriminate.
  - intros (n & a & -> & ws & rest & -> & Hws & Hn & Hw & Ha).
    rewrite strip_prefix_app.
    destruct n as [|c n]; [contradiction|]. simpl in Hw.
    apply andb_true_iff in Hw as [Hc Hw].
    rewrite (span_app is_space ws) by (auto; simpl; now apply word_not_space).
    cbn [fst snd].
    change (String c n ++ "(" ++ a ++ ")" ++ rest)
      with (String c n ++ String "(" (a ++ ")" ++ rest)).
    rewrite (span_app is_word (String c n))
      by (simpl; rewrite ?Hc, ?Hw; reflexivity).
    cbn [fst snd is_empty Re.strip_prefix]. rewrite Ascii.eqb_refl.
    change (a ++ ")" ++ rest) with (a ++ String ")" rest).
    rewrite (span_app (Re.not_char ")") a) by (auto; reflexivity).
    cbn [fst snd Re.strip_prefix]. now rewrite Ascii.eqb_refl.
Qed.

Lemma bare_at_form s m :
  bare_at s = Some m <-> exists n, m = [n] /\ bare_form s n.
Proof.
  unfold bare_at, bare_form. split.
  - destruct (Re.strip_prefix "Action:" s) as [r1|] eqn:E1; [|discriminate].
    apply strip_prefix_some in E1.
    destruct (span_spec is_space r1) as (S1 & S2 & _).
    destruct (span_spec is_word (snd (span is_space r1))) as (W1 & W2 & W3).
    destruct (is_empty _) eqn:En; [discriminate|].
    intros [= <-]. eexists. split; [reflexivity|].
    exists (fst (span is_space r1)), (snd (span is_word (snd (span is_space r1)))).
    repeat split; auto.
    + rewrite E1. f_equal. rewrite S1 at 1. f_equal. exact W1.
    + intros Hn. rewrite Hn in En. discriminate.
  - intros (n & -> & ws & rest & -> & Hws & Hn & Hw & Hr).
    rewrite strip_prefix_app.
    destruct n as [|c n]; [contradiction|]. simpl in Hw.
    apply andb_true_iff in Hw as [Hc Hw].
    rewrite (span_app is_space ws) by (auto; simpl; now apply word_not_space).
    cbn [fst snd].
    rewrite (span_app is_word (String c n))
      by (auto; simpl; now rewrite Hc, Hw).
    reflexivity.
Qed.

Lemma strip_prefix_none (sub s : string) :
  startswith sub s = false -> Re.strip_prefix sub s = None.
Proof.
  revert s. induction sub as [|c sub IH]; intros [|d s]; simpl;
    try discriminate; try reflexivity.
  destruct (c =? d)%char; simpl; [apply IH | reflexivity].
Qed.

Lemma contains_app_false (sub pre post : string) :
  contains sub (pre ++ post) = false -> startswith sub post = false.
Proof.
  induction pre as [|c pre IH]; cbn [append].
  - destruct post; simpl; intros H; now apply orb_false_iff in H as [H _].
  - simpl. intros H. apply orb_false_iff in H as [_ H]. now apply IH.
Qed.

Lemma no_token_no_match (s : string) :
  contains "Action:" s = false ->
  Re.search call_re s = None /\ Re.search bare_re s = None.
Proof.
  intros H. split; apply search_none; intros pre post ->;
    apply contains_app_false, strip_prefix_none in H.
  - rewrite match_here_call. unfold call_at. now rewrite H.
  - rewrite match_here_bare. unfold bare_at. now rewrite H.
Qed.

Section LazyRep.
Context {A : Type}.
Variable cls : ascii -> bool.
Lemma rep_lazy_ext (s : string) (k k' : string -> string -> option A) :
  (forall t r, k t r = k' t r) -> Re.rep_lazy cls s k = Re.rep_lazy cls s k'.
Proof.
  revert k k'. induction s as [|c s IH]; intros k k' H; simpl; rewrite H.
  - reflexivity.
  - destruct (k' "" (String c s)); [reflexivity|].
    destruct (cls c); [|reflexivity]. apply IH. intros; apply H.
Qed.
End LazyRep.

Lemma rep_lazy_partition (sep s : string) (f : string -> string) :
  Re.rep_lazy Re.any s
    (fun t r => match Re.strip_prefix sep r with
                | Some _ => Some [f t]
                | None => None
                end)
  = option_map (fun p => [f (fst p)]) (partition sep s).
Proof.
  revert f. induction s as [|c s IH]; intros f; simpl.
  - now destruct (Re.strip_prefix sep "").
  - destruct (Re.strip_prefix sep (String c s)); [reflexivity|].
    rewrite (IH (fun t => f (String c t))).
    now destruct (partition sep s) as [[b a]|].
Qed.

Lemma match_here_reasoning s :
  Re.match_here reasoning_re s =
  match Re.strip_prefix "<reasoning>" s with
  | Some r => option_map (fun p => [fst p]) (partition "</reasoning>" r)
  | None => None
  end.
Proof.
  unfold reasoning_re. cbn [Re.match_here Re.atom_of Re.capture].
  destruct (Re.strip_prefix "<reasoning>" s) as [r|]; [|reflexivity].
  rewrite <- (rep_lazy_partition "</reasoning>" r (fun t => t)).
  cbn [Nat.leb].
  match goal with |- option_map ?f ?x = _ => 
    replace (option_map f x) with x by (now destruct x) end.
  apply rep_lazy_ext. intros t r'.
  now destruct (Re.strip_prefix "</reasoning>" r').
Qed.

Lemma partition_app_none (sep a b : string) :
  partition sep (a ++ b) = None -> partition sep b = None.
Proof.
  induction a as [|c a IH]; cbn [append]; [auto|].
  simpl. destruct (Re.strip_prefix sep (String c (a ++ b))); [discriminate|].
  destruct (partition sep (a ++ b)) as [[x y]|]; [discriminate|].
  intros _. now apply IH.
Qed.

Lemma no_close_no_match (s : string) :
  partition "</reasoning>" s = None -> Re.search reasoning_re s = None.
Proof.
  intros H. apply search_none. intros pre post ->.
  rewrite match_here_reasoning.
  destruct (Re.strip_prefix "<reasoning>" post) as [r|] eqn:E; [|reflexivity].
  apply strip_prefix_some in E. subst post.
  apply partition_app_none in H. apply partition_app_none in H.
  now rewrite H.
Qed.

Lemma partition_close_open (r : string) :
  partition "</reasoning>" r = None ->
  partition "</reasoning>" ("<reasoning>" ++ r) = None.
Proof.
  intros H. simpl. now rewrite H.
Qed.

Lemma search_reasoning s :
  Re.search reasoning_re s = option_map (fun b => [b]) (between_tags s).
Proof.
  unfold between_tags.
  induction s as [|c s IH]; rewrite search_eq, match_here_reasoning.
  - reflexivity.
  - cbn [partition].
    destruct (Re.strip_prefix "<reasoning>" (String c s)) as [r|] eqn:E.
    + destruct (partition "</reasoning>" r) as [[b a]|] eqn:Ep; [reflexivity|].
      cbn [option_map].
      apply strip_prefix_some in E.
      apply partition_close_open in Ep. rewrite <- E in Ep.
      apply no_close_no_match.
      now apply (partition_app_none _ (String c "") s).
    + rewrite IH.
      destruct (partition "<reasoning>" s) as [[b r]|]; reflexivity.
Qed.

End ReFacts.

(* ================================================================== *)
(** ** [str] and [int] on integers *)
(* ================================================================== *)

Module PyFacts.
Import Py Spec StringFacts.

Ltac by_cases_on c :=
  destruct c as [[] [] [] [] [] [] [] []]; vm_compute; congruence.

Lemma digit_num c : is_digit c = true -> num_char c = true.
Proof. unfold num_char. now intros ->. Qed.
Lemma num_not_space c : num_char c = true -> negb (is_space c) = true.
Proof. by_cases_on c. Qed.
Lemma num_not_close c : num_char c = true -> Re.not_char ")" c = true.
Proof. by_cases_on c. Qed.
Lemma num_not_comma c : num_char c = true -> Re.not_char "," c = true.
Proof. by_cases_on c. Qed.
Lemma digit_not_underscore c : is_digit c = true -> (c =? "_")%char = false.
Proof. by_cases_on c. Qed.
Lemma digit_not_sign c :
  is_digit c = true -> (c =? "-")%char = false /\ (c =? "+")%char = false.
Proof. split; revert H; by_cases_on c. Qed.

Lemma uint_digits (u : Decimal.uint) :
  all is_digit (NilEmpty.string_of_uint u) = true.
Proof. induction u; simpl; auto. Qed.

Lemma uint_empty (u : Decimal.uint) :
  NilEmpty.string_of_uint u = "" -> u = Decimal.Nil.
Proof. destruct u; simpl; congruence. Qed.

Lemma int_body_ok_digits (b : bool) (d : string) :
  all is_digit d = true -> d <> "" -> int_body_ok b d = true.
Proof.
  revert b. induction d as [|c d IH]; intros b Hd Hne; [contradiction|].
  simpl in *. apply andb_true_iff in Hd as [Hc Hd]. rewrite Hc.
  destruct d as [|c' d']; [reflexivity|]. now apply IH.
Qed.

Lemma drop_underscores_digits (d : string) :
  all is_digit d = true -> drop_underscores d = d.
Proof.
  induction d as [|c d IH]; simpl; [reflexivity|].
  intros H. apply andb_true_iff in H as [Hc Hd].
  now rewrite (digit_not_underscore _ Hc), (IH Hd).
Qed.

Lemma int_body_uint (u : Decimal.uint) :
  u <> Decimal.Nil ->
  int_body (NilEmpty.string_of_uint u) = Some (Z.of_uint u).
Proof.
  intros Hu. unfold int_body.
  rewrite int_body_ok_digits; try apply uint_digits.
  - now rewrite drop_underscores_digits, NilEmpty.usu by apply uint_digits.
  - intros H. now apply uint_empty in H.
Qed.

Lemma pos_uint (p : positive) :
  Pos.to_uint p <> Decimal.Nil /\ Z.of_uint (Pos.to_uint p) = Z.pos p.
Proof.
  assert (H : Z.of_uint (Pos.to_uint p) = Z.pos p)
    by exact (DecimalZ.of_to (Z.pos p)).
  split; [|exact H]. intros E. rewrite E in H. discriminate.
Qed.

(** [str z] is a run of digits, after a minus sign when [z] is negative,
    and the digits read back as [|z|]. *)
Lemma str_digits (z : Z) :
  exists d, d <> "" /\ all is_digit d = true
    /\ str z = (if (z <? 0)%Z then String "-" d else d)
    /\ int_body d = Some (Z.abs z).
Proof.
  destruct z as [|p|p]; unfold str; simpl.
  - exists "0". repeat split. discriminate.
  - destruct (pos_uint p) as [Hn Hv].
    exists (NilEmpty.string_of_uint (Pos.to_uint p)). repeat split.
    + intros H. now apply uint_empty in H.
    + apply uint_digits.
    + now rewrite int_body_uint, Hv.
  - destruct (pos_uint p) as [Hn Hv].
    exists (NilEmpty.string_of_uint (Pos.to_uint p)). repeat split.
    + intros H. now apply uint_empty in H.
    + apply uint_digits.
    + now rewrite int_body_uint, Hv.
Qed.

Lemma str_num (z : Z) : all num_char (str z) = true /\ str z <> "".
Proof.
  destruct (str_digits z) as (d & Hne & Hd & -> & _).
  destruct (z <? 0)%Z; simpl.
  - split; [|discriminate].
    apply (all_impl is_digit); [apply digit_num | exact Hd].
  - split; [|exact Hne].
    apply (all_impl is_digit); [apply digit_num | exact Hd].
Qed.

Lemma strip_num (s : string) : all num_char s = true -> strip s = s.
Proof.
  intros H. apply strip_chars_keeps.
  eapply all_impl; [|exact H]. apply num_not_space.
Qed.

Lemma num_not_int_space c : num_char c = true -> negb (is_int_space c) = true.
Proof. by_cases_on c. Qed.

Lemma numeral_run_digits (d : string) :
  all is_digit d = true -> numeral_run d = d.
Proof.
  induction d as [|c d IH]; cbn [all numeral_run]; [reflexivity|].
  intros H. apply andb_true_iff in H as [-> Hd]. cbn [orb]. now rewrite IH.
Qed.

Lemma count_digits_digits (d : string) :
  all is_digit d = true -> count_digits d = Z.of_nat (String.length d).
Proof.
  induction d as [|c d IH]; cbn [all count_digits String.length];
    [reflexivity|].
  intros H. apply andb_true_iff in H as [-> Hd]. rewrite IH by exact Hd. lia.
Qed.

(** The numeral of [z]: the digits of [|z|], after a minus sign when [z]
    is negative. *)
Lemma str_abs (z : Z) :
  all is_digit (str (Z.abs z)) = true /\ str (Z.abs z) <> ""
  /\ str z = (if (z <? 0)%Z then String "-" (str (Z.abs z))
              else str (Z.abs z))
  /\ int_body (str (Z.abs z)) = Some (Z.abs z).
Proof.
  destruct (str_digits (Z.abs z)) as (d & Hne & Hd & E & Hv).
  destruct (Z.ltb_spec (Z.abs z) 0) as [H|_]; [lia|].
  rewrite Z.abs_idemp in Hv. rewrite E.
  repeat split; auto. rewrite <- E. now destruct z.
Qed.

(** What [int] scans of the numeral of [z]. *)
Lemma int_str_scan (z : Z) :
  int (str z) =
  if (max_str_digits <? Z.of_nat (numeral_digits z))%Z then
    Raise (ValueError
             ("Exceeds the limit (4300 digits) for integer string conversion: value has "
                ++ str (Z.of_nat (numeral_digits z))
                ++ " digits; use sys.set_int_max_str_digits() to increase the limit"))
  else Return z.
Proof.
  unfold int, numeral_digits.
  rewrite strip_chars_keeps
    by (eapply all_impl; [apply num_not_int_space | apply str_num]).
  destruct (str_abs z) as (Hd & Hne & -> & Hv).
  set (d := str (Z.abs z)) in *.
  destruct (Z.ltb_spec z 0) as [Hneg|Hz].
  - rewrite Ascii.eqb_refl. cbn [orb].
    rewrite numeral_run_digits, int_body_ok_digits, count_digits_digits
      by assumption.
    cbn [andb]. destruct (_ <? _)%Z; [reflexivity|].
    rewrite Hv. cbn [option_map]. f_equal. lia.
  - destruct d as [|c d'] eqn:Ed; [contradiction|].
    pose proof Hd as Hd'. cbn [all] in Hd'.
    apply andb_true_iff in Hd' as [Hc _].
    destruct (digit_not_sign _ Hc) as [E1 E2]. rewrite E1, E2. cbn [orb].
    rewrite numeral_run_digits, int_body_ok_digits, count_digits_digits
      by assumption.
    cbn [andb]. destruct (_ <? _)%Z; [reflexivity|].
    rewrite Hv. f_equal. lia.
Qed.

(** [int] reads the numeral of an integer of at most 4300 digits back. *)
Lemma int_str (z : Z) : numeral_digits z <= 4300 -> int (str z) = Return z.
Proof.
  intros H. rewrite int_str_scan.
  destruct (Z.ltb_spec max_str_digits (Z.of_nat (numeral_digits z)));
    [unfold max_str_digits in *; lia | reflexivity].
Qed.

Lemma small_numeral (z : Z) : (0 <= z <= 1000)%Z -> numeral_digits z <= 4300.
Proof.
  intros H.
  assert (E : forallb (fun n => numeral_digits (Z.of_nat n) <=? 4)%nat
                (seq 0 1001) = true) by (vm_compute; reflexivity).
  rewrite forallb_forall in E. specialize (E (Z.to_nat z)).
  rewrite Z2Nat.id in E by lia.
  apply Nat.leb_le in E; [lia|]. apply in_seq. lia.
Qed.

End PyFacts.

(* ================================================================== *)
(** ** The action parser *)
(* ================================================================== *)

Module ParserProofs.
Import Py Agent Spec StringFacts ReFacts PyFacts.

Lemma search_call_text (n a : string) :
  n <> "" -> all is_word n = true -> all (Re.not_char ")") a = true ->
  Re.search call_re (call_text n a) = Some [n; a].
Proof.
  intros Hn Hw Ha. rewrite search_eq, match_here_call.
  replace (call_at (call_text n a)) with (Some [n; a]); [reflexivity|].
  symmetry. apply call_at_form. exists n, a. split; [reflexivity|].
  exists " ", "". repeat split; auto.
Qed.

(** Unfold the parser on the text of one call. *)
Ltac parse_call :=
  unfold parse_action;
  rewrite search_call_text by (auto; discriminate);
  cbn [Re.group nth Nat.sub];
  repeat match goal with
    | |- context [String.eqb (String ?c ?r) ?b] =>
        let v := eval vm_compute in (String.eqb (String c r) b) in
        change (String.eqb (String c r) b) with v
    end;
  cbv iota.

Lemma int_raises (s : string) e :
  int s = Raise e -> exists m, e = ValueError m.
Proof.
  unfold int. destruct (_ && _); [intros [= <-]; eauto|].
  destruct (match strip_chars is_int_space s with
            | "" => _ | String _ _ => _ end);
    [discriminate|]. intros [= <-]. eauto.
Qed.

(** An index below the length is in range. *)
Lemma index_nth {A} (l : list A) (i : nat) (d : A) :
  i < List.length l -> index l i = Return (nth i l d).
Proof.
  intros H. unfold index.
  destruct (nth_error l i) as [a|] eqn:E.
  - now rewrite (nth_error_nth _ _ d E).
  - apply nth_error_None in E. lia.
Qed.

Lemma len_eqb {A} (l : list A) (n : nat) :
  (len l =? Z.of_nat n)%Z = (List.length l =? n)%nat.
Proof.
  unfold len. destruct (Nat.eqb_spec (List.length l) n) as [->|H].
  - apply Z.eqb_refl.
  - apply Z.eqb_neq. lia.
Qed.

Lemma click_arity (a : string) :
  all (Re.not_char ")") a = true ->
  List.length (split_args (strip a)) <> 2 ->
  exists m, parse_action (call_text "Click" a) = Raise (ActionParseError m)
            /\ click_diag m = Some Arity.
Proof.
  intros Ha Hl. parse_call.
  destruct (is_empty (strip a)); [eexists; split; reflexivity|].
  rewrite (len_eqb _ 2). apply Nat.eqb_neq in Hl. rewrite Hl.
  eexists; split; reflexivity.
Qed.

Lemma click_format (a : string) :
  all (Re.not_char ")") a = true ->
  List.length (split_args (strip a)) = 2 ->
  (exists e, int (nth 0 (split_args (strip a)) "") = Raise e)
  \/ (exists e, int (nth 1 (split_args (strip a)) "") = Raise e) ->
  exists m, parse_action (call_text "Click" a) = Raise (ActionParseError m)
            /\ click_diag m = Some Format.
Proof.
  intros Ha Hl Hf. parse_call.
  destruct (is_empty (strip a)) eqn:He.
  { apply is_empty_true in He. rewrite He in Hl. discriminate. }
  rewrite (len_eqb _ 2), Hl. cbn [Nat.eqb negb].
  rewrite (index_nth _ 0 "") by (rewrite Hl; lia). cbn [bind].
  destruct (int (nth 0 _ _)) as [x|e0] eqn:E0.
  - destruct Hf as [[e Hf]|[e Hf]]; [discriminate|]. cbn [bind].
    rewrite (index_nth _ 1 "") by (rewrite Hl; lia). cbn [bind].
    rewrite Hf. destruct (int_raises _ _ Hf) as [m ->].
    eexists; split; reflexivity.
  - destruct (int_raises _ _ E0) as [m ->].
    eexists; split; reflexivity.
Qed.

Lemma click_checked (a : string) (x y : Z) :
  all (Re.not_char ")") a = true ->
  List.length (split_args (strip a)) = 2 ->
  int (nth 0 (split_args (strip a)) "") = Return x ->
  int (nth 1 (split_args (strip a)) "") = Return y ->
  parse_action (call_text "Click" a) =
  if in_range x && in_range y
  then Return (mkAction "Click" [("x", VInt x); ("y", VInt y)] None)
  else Raise (ActionParseError
                ("Coordinates must be 0-1000, got (" ++ str x ++ ", "
                   ++ str y ++ ")")).
Proof.
  intros Ha Hl Hx Hy. parse_call.
  destruct (is_empty (strip a)) eqn:He.
  { apply is_empty_true in He. rewrite He in Hl. discriminate. }
  rewrite (len_eqb _ 2), Hl. cbn [Nat.eqb negb].
  rewrite (index_nth _ 0 "") by (rewrite Hl; lia). cbn [bind].
  rewrite Hx. cbn [bind].
  rewrite (index_nth _ 1 "") by (rewrite Hl; lia). cbn [bind].
  rewrite Hy. cbn [bind except_ValueError].
  unfold in_range. now destruct (_ && _).
Qed.


Lemma lstrip_num (X r : string) :
  all num_char X = true -> X <> "" -> lstrip is_space (X ++ r) = X ++ r.
Proof.
  intros HX Hn. apply lstrip_id. destruct X as [|c X]; [contradiction|].
  simpl in *. apply andb_true_iff in HX as [Hc _].
  apply num_not_space in Hc. now apply negb_true_iff in Hc.
Qed.

Lemma strip_space_head (s : string) : strip (String " " s) = strip s.
Proof. reflexivity. Qed.

(** A numeral followed by a comma and a space is one argument. *)
Lemma split_args_num (X r : string) :
  all num_char X = true ->
  split_args (X ++ ", " ++ r) = X :: split_args r.
Proof.
  intros HX. unfold split_args.
  change (X ++ ", " ++ r) with (X ++ String "," (String " " r)).
  rewrite split_app by (eapply all_impl; [apply num_not_comma | exact HX]).
  cbn [map]. rewrite (strip_num X HX). f_equal.
  cbn [split]. change (" " =? ",")%char with false. cbv iota.
  destruct (split "," r) as [|h t] eqn:E; [now apply split_nonempty in E|].
  cbn [map]. now rewrite strip_space_head.
Qed.

Lemma split_args_last (X : string) :
  all num_char X = true -> split_args X = [X].
Proof.
  intros HX. unfold split_args.
  rewrite split_one by (eapply all_impl; [apply num_not_comma | exact HX]).
  cbn [map]. now rewrite strip_num.
Qed.

Lemma strip_num_then (X r : string) :
  all num_char X = true -> X <> "" ->
  rstrip is_space r = r -> r <> "" ->
  strip (X ++ ", " ++ r) = X ++ ", " ++ r.
Proof.
  intros HX Hn Hr Hrn. unfold strip, strip_chars.
  rewrite lstrip_num by assumption.
  rewrite <- append_assoc, rstrip_app by (now rewrite Hr).
  now rewrite Hr.
Qed.

Lemma rstrip_num (Y : string) : all num_char Y = true -> rstrip is_space Y = Y.
Proof.
  intros HY. apply rstrip_keeps.
  eapply all_impl; [apply num_not_space | exact HY].
Qed.

Lemma in_range_true (z : Z) : (0 <= z <= 1000)%Z -> in_range z = true.
Proof.
  intros H. unfold in_range. apply andb_true_iff. split; apply Z.leb_le; lia.
Qed.

Lemma click_in_range (x y : Z) :
  (0 <= x <= 1000)%Z -> (0 <= y <= 1000)%Z ->
  parse_action (call_text "Click" (str x ++ ", " ++ str y)) =
  Return (mkAction "Click" [("x", VInt x); ("y", VInt y)] None).
Proof.
  intros Hx Hy.
  destruct (str_num x) as [HX HXn], (str_num y) as [HY HYn].
  assert (Hs : strip (str x ++ ", " ++ str y) = str x ++ ", " ++ str y)
    by (apply strip_num_then; auto using rstrip_num).
  rewrite (click_checked _ x y).
  - now rewrite !in_range_true.
  - rewrite all_app, (all_impl _ _ _ num_not_close HX). simpl.
    apply (all_impl _ _ _ num_not_close HY).
  - now rewrite Hs, split_args_num, split_args_last.
  - rewrite Hs, split_args_num, split_args_last by assumption.
    now apply int_str, small_numeral.
  - rewrite Hs, split_args_num, split_args_last by assumption.
    now apply int_str, small_numeral.
Qed.

(** C3. Every [Click(x, y)] with both coordinates in 0..1000 parses to
    that click; 1001 and -1 are refused with the range diagnostic; and the
    checks come in the order arity, integer format, range: a wrong number
    of arguments gives the arity diagnostic whatever the arguments are, a
    non-integer argument among two gives the format diagnostic whatever
    the other value is, and only two integers reach the range check. *)
Theorem click_validation :
  (forall x y : Z, (0 <= x <= 1000)%Z -> (0 <= y <= 1000)%Z ->
     parse_action (call_text "Click" (str x ++ ", " ++ str y)) =
     Return (mkAction "Click" [("x", VInt x); ("y", VInt y)] None))
  /\ parse_action "Action: Click(1001, 500)" =
       Raise (ActionParseError "Coordinates must be 0-1000, got (1001, 500)")
  /\ parse_action "Action: Click(-1, 0)" =
       Raise (ActionParseError "Coordinates must be 0-1000, got (-1, 0)")
  /\ click_diag "Coordinates must be 0-1000, got (1001, 500)" = Some Range
  /\ click_diag "Coordinates must be 0-1000, got (-1, 0)" = Some Range
  /\ (forall a : string, all (Re.not_char ")") a = true ->
        let parts := split_args (strip a) in
        (List.length parts <> 2 ->
           exists m, parse_action (call_text "Click" a)
                       = Raise (ActionParseError m)
                     /\ click_diag m = Some Arity)
        /\ (List.length parts = 2 ->
            (exists e, int (nth 0 parts "") = Raise e)
            \/ (exists e, int (nth 1 parts "") = Raise e) ->
            exists m, parse_action (call_text "Click" a)
                        = Raise (ActionParseError m)
                      /\ click_diag m = Some Format)
        /\ (forall x y, List.length parts = 2 ->
            int (nth 0 parts "") = Return x ->
            int (nth 1 parts "") = Return y ->
            in_range x && in_range y = false ->
            exists m, parse_action (call_text "Click" a)
                        = Raise (ActionParseError m)
                      /\ click_diag m = Some Range)).
Proof.
  split; [exact click_in_range|].
  repeat (split; [reflexivity|]).
  intros a Ha parts. split; [|split].
  - now apply click_arity.
  - now apply click_format.
  - intros x y Hl Hx Hy Hr. rewrite (click_checked a x y), Hr by assumption.
    eexists; split; reflexivity.
Qed.

Lemma click_validation_witness :
  parse_action (call_text "Click" (str 500 ++ ", " ++ str 300)) =
    Return (mkAction "Click" [("x", VInt 500); ("y", VInt 300)] None)
  /\ (exists m, parse_action (call_text "Click" "500")
                = Raise (ActionParseError m) /\ click_diag m = Some Arity)
  /\ (exists m, parse_action (call_text "Click" "abc, 5000")
                = Raise (ActionParseError m) /\ click_diag m = Some Format)
  /\ (exists m, parse_action (call_text "Click" "5, 5000")
                = Raise (ActionParseError m) /\ click_diag m = Some Range).
Proof.
  destruct click_validation as (Hok & _ & _ & _ & _ & Hord).
  split; [apply Hok; lia|].
  split; [apply (Hord "500"); [reflexivity | vm_compute; lia]|].
  split.
  - apply (Hord "abc, 5000"); [reflexivity | reflexivity |].
    left. eexists. vm_compute. reflexivity.
  - destruct (Hord "5, 5000" eq_refl) as (_ & _ & H).
    apply (H 5%Z 5000%Z); reflexivity.
Defined.

(** What [parse_action] does once the first search has matched. *)
Lemma parse_same_call (s s' : string) m :
  Re.search call_re s = Some m -> Re.search call_re s' = Some m ->
  parse_action s = parse_action s'.
Proof. intros H H'. unfold parse_action. now rewrite H, H'. Qed.

Lemma first_call_search (s pre n a : string) :
  first_call s pre n a -> Re.search call_re s = Some [n; a].
Proof.
  intros (post & -> & Hf & Hmin). apply search_some.
  exists pre, post. repeat split.
  - rewrite match_here_call. apply call_at_form. eauto.
  - intros pre' post' Heq Hlt. rewrite match_here_call.
    destruct (call_at post') as [m|] eqn:E; [|reflexivity].
    apply call_at_form in E as (n' & a' & _ & Hf').
    now destruct (Hmin pre' post' n' a' Heq Hlt).
Qed.

Lemma search_first_call (s : string) m :
  Re.search call_re s = Some m ->
  exists pre n a, m = [n; a] /\ first_call s pre n a.
Proof.
  intros H. apply search_some in H as (pre & post & -> & Hm & Hmin).
  rewrite match_here_call in Hm.
  apply call_at_form in Hm as (n & a & -> & Hf).
  exists pre, n, a. split; [reflexivity|]. exists post. repeat split; auto.
  intros pre' post' n' a' Heq Hlt Hf'.
  specialize (Hmin pre' post' Heq Hlt). rewrite match_here_call in Hmin.
  assert (E : call_at post' = Some [n'; a']) by (apply call_at_form; eauto).
  congruence.
Qed.

Lemma no_call_search (s : string) :
  no_call s <-> Re.search call_re s = None.
Proof.
  split.
  - intros H. apply search_none. intros pre post ->.
    rewrite match_here_call.
    destruct (call_at post) as [m|] eqn:E; [|reflexivity].
    apply call_at_form in E as (n & a & _ & Hf).
    now destruct (H pre post n a eq_refl).
  - intros H pre post n a -> Hf.
    assert (E : call_at post = Some [n; a]) by (apply call_at_form; eauto).
    rewrite <- match_here_call in E.
    rewrite search_none in H. rewrite (H pre post eq_refl) in E. discriminate.
Qed.

Lemma first_bare_search (s n : string) :
  first_bare s n -> Re.search bare_re s = Some [n].
Proof.
  intros (pre & post & -> & Hf & Hmin). apply search_some.
  exists pre, post. repeat split.
  - rewrite match_here_bare. apply bare_at_form. eauto.
  - intros pre' post' Heq Hlt. rewrite match_here_bare.
    destruct (bare_at post') as [m|] eqn:E; [|reflexivity].
    apply bare_at_form in E as (n' & _ & Hf').
    now destruct (Hmin pre' post' n' Heq Hlt).
Qed.

Lemma call_form_names (post n a : string) :
  call_form post n a -> n <> "" /\ all is_word n = true
                        /\ all (Re.not_char ")") a = true.
Proof. intros (ws & rest & _ & _ & Hn & Hw & Ha). auto. Qed.

(** C10. The parser acts on the first call of the response, wherever in
    the text it starts: the result is that of parsing that call alone.
    When a call occurs anywhere, the first one decides, so a bare name
    before it is not looked at. *)
Theorem first_call_wins :
  (forall s pre n a : string,
     first_call s pre n a -> parse_action s = parse_action (call_text n a))
  /\ (forall s pre post n a : string,
        s = pre ++ post -> call_form post n a ->
        exists pre1 n1 a1,
          first_call s pre1 n1 a1
          /\ parse_action s = parse_action (call_text n1 a1))
  /\ parse_action ("Action: Wait" ++ nl ++ "Action: Click(1, 2)") =
       Return (mkAction "Click" [("x", VInt 1); ("y", VInt 2)] None)
  /\ parse_action "I will do Action: Press(Enter) and then Action: Type(x)" =
       Return (mkAction "Press" [("key", VStr "Enter")] None).
Proof.
  assert (H1 : forall s pre n a : string,
     first_call s pre n a -> parse_action s = parse_action (call_text n a)).
  { intros s pre n a Hf. apply (parse_same_call _ _ [n; a]).
    - now apply (first_call_search s pre).
    - destruct Hf as (post & _ & Hf & _).
      apply call_form_names in Hf as (Hn & Hw & Ha).
      now apply search_call_text. }
  split; [exact H1|]. split; [|split; reflexivity].
  intros s pre post n a Hs Hf.
  destruct (Re.search call_re s) as [m|] eqn:E.
  - apply search_first_call in E as (pre1 & n1 & a1 & _ & Hfc).
    exists pre1, n1, a1. split; [exact Hfc | now apply (H1 s pre1)].
  - apply no_call_search in E. now destruct (E pre post n a Hs).
Qed.

Lemma first_call_wins_witness :
  parse_action ("Action: Wait. Action: Type(a)") = parse_action (call_text "Type" "a").
Proof.
  apply (proj1 first_call_wins _ "Action: Wait. ").
  exists "Action: Type(a)". split; [reflexivity|]. split.
  - exists " ", "". repeat split. discriminate.
  - intros pre' post' n' a' Heq Hlt Hf.
    assert (E : Re.match_here call_re post' = Some [n'; a']).
    { rewrite match_here_call. apply call_at_form. eauto. }
    revert E. clear Hf.
    do 14 (destruct pre' as [|? pre'];
           [simpl in Heq; subst post'; vm_compute; discriminate
           |simpl in Heq; injection Heq as <- Heq]).
    simpl in Hlt. lia.
Defined.

(** [int] returns, or raises one of its two [ValueError]s; the parser
    passes either on after its own words. *)
Lemma int_cases (s : string) :
  (exists z, int s = Return z)
  \/ (exists m, int s = Raise (ValueError m)
                /\ known_diag ("Invalid argument format: " ++ m) = true).
Proof.
  unfold int. destruct (_ && _).
  - right. eexists. split; [reflexivity|]. vm_compute. reflexivity.
  - destruct (match strip_chars is_int_space s with
              | "" => _ | String _ _ => _ end); [eauto|].
    right. eexists. split; reflexivity.
Qed.

Lemma parse_action_outcome (s : string) :
  match parse_action s with
  | Return a => valid_action a = true
  | Raise (ActionParseError m) => known_diag m = true
  | Raise (ValueError _) => False
  | Raise (IndexError _) => False
  end.
Proof.
  unfold parse_action.
  destruct (Re.search call_re s) as [m|].
  - generalize (Re.group m 1) (strip (Re.group m 2)). intros n a.
    destruct (n =? "Click") eqn:E1.
    { destruct (is_empty a); [reflexivity|].
      destruct (negb (len (split_args a) =? 2)%Z) eqn:El; [reflexivity|].
      apply negb_false_iff, Z.eqb_eq in El. unfold len in El.
      rewrite (index_nth _ 0 "") by lia. cbn [bind].
      destruct (int_cases (nth 0 (split_args a) ""))
        as [[x ->]|(mx & -> & Hmx)]; [|exact Hmx].
      cbn [bind]. rewrite (index_nth _ 1 "") by lia. cbn [bind].
      destruct (int_cases (nth 1 (split_args a) ""))
        as [[y ->]|(my & -> & Hmy)]; [|exact Hmy].
      cbn [bind except_ValueError].
      destruct (_ && _) eqn:Er; cbn [negb]; [|reflexivity].
      unfold valid_action, in_range. cbn. exact Er. }
    destruct (n =? "Scroll") eqn:E2.
    { destruct (is_empty a); [reflexivity|].
      destruct (negb (len (split_args a) =? 3)%Z) eqn:El; [reflexivity|].
      apply negb_false_iff, Z.eqb_eq in El. unfold len in El.
      rewrite (index_nth _ 0 "") by lia. cbn [bind].
      destruct (int_cases (nth 0 (split_args a) ""))
        as [[x ->]|(mx & -> & Hmx)]; [|exact Hmx].
      cbn [bind]. rewrite (index_nth _ 1 "") by lia. cbn [bind].
      destruct (int_cases (nth 1 (split_args a) ""))
        as [[y ->]|(my & -> & Hmy)]; [|exact Hmy].
      cbn [bind]. rewrite (index_nth _ 2 "") by lia.
      cbn [bind except_ValueError].
      destruct (_ || _) eqn:Er; cbn [negb]; [|reflexivity].
      unfold valid_action. cbn. exact Er. }
    destruct (n =? "Type") eqn:E3.
    { destruct (is_empty a) eqn:Ea; [reflexivity|].
      unfold valid_action. cbn. now rewrite Ea. }
    destruct (n =? "Press") eqn:E4.
    { destruct (is_empty a) eqn:Ea; [reflexivity|].
      unfold valid_action. cbn. now rewrite Ea. }
    destruct (n =? "CallUser") eqn:E5.
    { destruct (is_empty a) eqn:Ea; [reflexivity|].
      unfold valid_action. cbn. now rewrite Ea. }
    destruct ((n =? "Wait") || (n =? "Finished")) eqn:E6; [|reflexivity].
    unfold valid_action. cbn [error name args except_ValueError].
    now rewrite E1, E2, E3, E4, E5, E6.
  - destruct (Re.search bare_re s) as [m|]; [|reflexivity].
    generalize (Re.group m 1). intros n.
    destruct ((n =? "Wait") || (n =? "Finished")) eqn:E6; [|reflexivity].
    unfold valid_action. cbn [error name args].
    rewrite E6.
    apply orb_true_iff in E6 as [E|E]; apply String.eqb_eq in E; now subst n.
Qed.

Lemma bare_result (s n : string) :
  no_call s -> first_bare s n ->
  parse_action s =
  if (n =? "Wait") || (n =? "Finished") then Return (mkAction n [] None)
  else Raise (ActionParseError
                ("Action '" ++ n ++ "' requires arguments but none provided")).
Proof.
  intros Hc Hb. unfold parse_action.
  apply no_call_search in Hc. rewrite Hc.
  now rewrite (first_bare_search s n Hb).
Qed.

Lemma no_token_result (s : string) :
  contains "Action:" s = false ->
  parse_action s =
  Raise (ActionParseError
    "No valid action found in response. Expected format: Action: Name(args)").
Proof.
  intros H. unfold parse_action.
  destruct (no_token_no_match s H) as [-> ->]. reflexivity.
Qed.

(** The limit of [int] counts digits, not the value: 4300 zeros are read
    as 0, and one more is refused with the other [ValueError], which the
    parser passes on as it does the first. *)
Example click_digit_limit :
  parse_action (call_text "Click" (repeated "0" 4300 ++ ", 2"))
  = Return (click_action 0 2)
  /\ parse_action (call_text "Click" (repeated "0" 4301 ++ ", 2"))
     = Raise (ActionParseError
         ("Invalid argument format: Exceeds the limit (4300 digits) for "
          ++ "integer string conversion: value has 4301 digits; use "
          ++ "sys.set_int_max_str_digits() to increase the limit")).
Proof. split; vm_compute; reflexivity. Qed.

(** C4. On every string the parser gives a valid action or raises
    [ActionParseError] with one of its diagnostics; neither [ValueError]
    of [int], for a text that is no numeral and for a numeral of more
    than 4300 digits, leaves it, and no index is out of range. With no
    call anywhere in the text, the first bare [Action: name] gives the
    action for the names [Wait] and [Finished] and the requires-arguments
    diagnostic for every other name; a text without [Action:] gives the
    no-valid-action diagnostic. *)
Theorem parse_action_total :
  (forall s : string,
     match parse_action s with
     | Return a => valid_action a = true
     | Raise (ActionParseError m) => known_diag m = true
     | Raise (ValueError _) => False
     | Raise (IndexError _) => False
     end)
  /\ (forall s n : string, no_call s -> first_bare s n ->
        parse_action s =
        if (n =? "Wait") || (n =? "Finished")
        then Return (mkAction n [] None)
        else Raise (ActionParseError
               ("Action '" ++ n ++ "' requires arguments but none provided")))
  /\ parse_action "Action: Wait" = Return (mkAction "Wait" [] None)
  /\ parse_action "Action: Finished" = Return (mkAction "Finished" [] None)
  /\ parse_action "Action: Click" =
       Raise (ActionParseError
                "Action 'Click' requires arguments but none provided")
  /\ (forall s : string, contains "Action:" s = false ->
        parse_action s =
        Raise (ActionParseError
          "No valid action found in response. Expected format: Action: Name(args)")).
Proof.
  split; [exact parse_action_outcome|].
  split; [exact bare_result|].
  repeat (split; [reflexivity|]).
  exact no_token_result.
Qed.

Lemma parse_action_total_witness :
  parse_action "Please Action: Scroll now" =
    Raise (ActionParseError
             "Action 'Scroll' requires arguments but none provided")
  /\ parse_action "no action here" =
    Raise (ActionParseError
      "No valid action found in response. Expected format: Action: Name(args)").
Proof.
  destruct parse_action_total as (_ & Hbare & _ & _ & _ & Hnone).
  split; [|apply Hnone; reflexivity].
  apply (Hbare "Please Action: Scroll now" "Scroll").
  - apply no_call_search. reflexivity.
  - exists "Please ", "Action: Scroll now". split; [reflexivity|]. split.
    + exists " ", " now". repeat split. discriminate.
    + intros pre' post' n' Heq Hlt Hf.
      assert (E : Re.match_here bare_re post' = Some [n']).
      { rewrite match_here_bare. apply bare_at_form. eauto. }
      revert E. clear Hf.
      do 7 (destruct pre' as [|? pre'];
            [simpl in Heq; subst post'; vm_compute; discriminate
            |simpl in Heq; injection Heq as <- Heq]).
      simpl in Hlt. lia.
Defined.

Ltac free_text He :=
  parse_call; rewrite He; reflexivity.

(** C5 as the code has it. For [Type], [Press] and [CallUser] the text
    between the parentheses, when it holds no closing parenthesis, becomes
    the content after [strip()] and is never split at commas; when nothing
    is left after [strip()] all three are refused. *)
Theorem free_text_arguments :
  forall t : string, all (Re.not_char ")") t = true ->
    (strip t <> "" ->
       parse_action (call_text "Type" t) =
         Return (mkAction "Type" [("content", VStr (strip t))] None)
       /\ parse_action (call_text "Press" t) =
         Return (mkAction "Press" [("key", VStr (strip t))] None)
       /\ parse_action (call_text "CallUser" t) =
         Return (mkAction "CallUser" [("question", VStr (strip t))] None))
    /\ (strip t = "" ->
       parse_action (call_text "Type" t) =
         Raise (ActionParseError "Type requires content: Type(text to type)")
       /\ parse_action (call_text "Press" t) =
         Raise (ActionParseError "Press requires a key: Press(Enter)")
       /\ parse_action (call_text "CallUser" t) =
         Raise (ActionParseError
           "CallUser requires a question: CallUser(your question here)")).
Proof.
  intros t Ht. split.
  - intros Hne.
    assert (He : is_empty (strip t) = false)
      by (destruct (strip t); [contradiction | reflexivity]).
    repeat split; free_text He.
  - intros He0.
    assert (He : is_empty (strip t) = true) by now rewrite He0.
    repeat split; free_text He.
Qed.

Lemma free_text_arguments_witness :
  parse_action (call_text "Type" " Paris, France ") =
    Return (mkAction "Type" [("content", VStr "Paris, France")] None)
  /\ parse_action (call_text "Press" "  ") =
    Raise (ActionParseError "Press requires a key: Press(Enter)").
Proof.
  split.
  - apply (free_text_arguments " Paris, France " eq_refl). discriminate.
  - apply (free_text_arguments "  " eq_refl). reflexivity.
Defined.

(** C5 as the claim states it fails: the content is not the text itself
    when the text starts with a space. *)
Lemma type_content_is_stripped :
  " hi" <> ""
  /\ parse_action (call_text "Type" " hi") =
     Return (mkAction "Type" [("content", VStr "hi")] None)
  /\ parse_action (call_text "Type" " hi") <>
     Return (mkAction "Type" [("content", VStr " hi")] None).
Proof.
  split; [discriminate|]. split; [reflexivity|].
  intros H. vm_compute in H. discriminate H.
Qed.

Lemma scroll_arity (a : string) :
  all (Re.not_char ")") a = true ->
  List.length (split_args (strip a)) <> 3 ->
  exists m, parse_action (call_text "Scroll" a) = Raise (ActionParseError m)
            /\ startswith "Scroll requires" m = true.
Proof.
  intros Ha Hl. parse_call.
  destruct (is_empty (strip a)); [eexists; split; reflexivity|].
  rewrite (len_eqb _ 3). apply Nat.eqb_neq in Hl. rewrite Hl.
  eexists; split; reflexivity.
Qed.

Lemma scroll_format (a : string) :
  all (Re.not_char ")") a = true ->
  List.length (split_args (strip a)) = 3 ->
  (exists e, int (nth 0 (split_args (strip a)) "") = Raise e)
  \/ (exists e, int (nth 1 (split_args (strip a)) "") = Raise e) ->
  exists m, parse_action (call_text "Scroll" a) = Raise (ActionParseError m)
            /\ startswith "Invalid argument format" m = true.
Proof.
  intros Ha Hl Hf. parse_call.
  destruct (is_empty (strip a)) eqn:He.
  { apply is_empty_true in He. rewrite He in Hl. discriminate. }
  rewrite (len_eqb _ 3), Hl. cbn [Nat.eqb negb].
  rewrite (index_nth _ 0 "") by (rewrite Hl; lia). cbn [bind].
  destruct (int (nth 0 _ _)) as [x|e0] eqn:E0.
  - destruct Hf as [[e Hf]|[e Hf]]; [discriminate|]. cbn [bind].
    rewrite (index_nth _ 1 "") by (rewrite Hl; lia). cbn [bind].
    rewrite Hf. destruct (int_raises _ _ Hf) as [m ->].
    eexists; split; reflexivity.
  - destruct (int_raises _ _ E0) as [m ->].
    eexists; split; reflexivity.
Qed.

Lemma scroll_checked (a : string) (x y : Z) :
  all (Re.not_char ")") a = true ->
  List.length (split_args (strip a)) = 3 ->
  int (nth 0 (split_args (strip a)) "") = Return x ->
  int (nth 1 (split_args (strip a)) "") = Return y ->
  let direction :=
    lower (strip_chars is_quote (nth 2 (split_args (strip a)) "")) in
  parse_action (call_text "Scroll" a) =
  if (direction =? "up") || (direction =? "down")
  then Return (mkAction "Scroll"
                 [("x", VInt x); ("y", VInt y); ("direction", VStr direction)]
                 None)
  else Raise (ActionParseError
                ("Scroll direction must be 'up' or 'down', got '"
                   ++ direction ++ "'")).
Proof.
  intros Ha Hl Hx Hy direction. parse_call.
  destruct (is_empty (strip a)) eqn:He.
  { apply is_empty_true in He. rewrite He in Hl. discriminate. }
  rewrite (len_eqb _ 3), Hl. cbn [Nat.eqb negb].
  rewrite (index_nth _ 0 "") by (rewrite Hl; lia). cbn [bind].
  rewrite Hx. cbn [bind].
  rewrite (index_nth _ 1 "") by (rewrite Hl; lia). cbn [bind].
  rewrite Hy. cbn [bind].
  rewrite (index_nth _ 2 "") by (rewrite Hl; lia). cbn [bind].
  fold direction. now destruct (_ || _).
Qed.

(** [Scroll] on the numerals of two integers: what [int] makes of
    them. *)
Lemma scroll_numerals (x y : Z) :
  parse_action (call_text "Scroll" (str x ++ ", " ++ str y ++ ", up")) =
  except_ValueError
    (bind (int (str x)) (fun x' =>
     bind (int (str y)) (fun y' =>
     Return (mkAction "Scroll"
               [("x", VInt x'); ("y", VInt y'); ("direction", VStr "up")]
               None)))).
Proof.
  destruct (str_num x) as [HX HXn], (str_num y) as [HY HYn].
  assert (Hr : rstrip is_space (str y ++ ", up") = str y ++ ", up")
    by (rewrite rstrip_app; [reflexivity | discriminate]).
  assert (Hs : strip (str x ++ ", " ++ str y ++ ", up")
               = str x ++ ", " ++ str y ++ ", up").
  { apply strip_num_then; auto. destruct (str y); [contradiction|discriminate]. }
  assert (Hp : split_args (str x ++ ", " ++ str y ++ ", up")
               = [str x; str y; "up"])
    by (change (str y ++ ", up") with (str y ++ ", " ++ "up");
        rewrite (split_args_num (str x)), (split_args_num (str y))
          by assumption; reflexivity).
  assert (Ha : all (Re.not_char ")") (str x ++ ", " ++ str y ++ ", up") = true)
    by (rewrite !all_app, (all_impl _ _ _ num_not_close HX),
          (all_impl _ _ _ num_not_close HY); reflexivity).
  parse_call. rewrite Hs, Hp.
  destruct (is_empty (str x ++ ", " ++ str y ++ ", up")) eqn:He.
  { apply is_empty_true in He. destruct (str x); [contradiction|discriminate]. }
  cbn [len List.length Z.of_nat Pos.of_succ_nat Pos.succ Z.eqb Pos.eqb negb
       index nth_error bind].
  destruct (int (str x)) as [x'|e]; [|reflexivity]. cbn [bind].
  destruct (int (str y)) as [y'|e]; reflexivity.
Qed.

Lemma scroll_any_integers (x y : Z) :
  numeral_digits x <= 4300 -> numeral_digits y <= 4300 ->
  parse_action (call_text "Scroll" (str x ++ ", " ++ str y ++ ", up")) =
  Return (mkAction "Scroll"
            [("x", VInt x); ("y", VInt y); ("direction", VStr "up")] None).
Proof.
  intros Hx Hy. now rewrite scroll_numerals, !int_str.
Qed.

Lemma scroll_over_limit (x y : Z) :
  4300 < numeral_digits x \/ 4300 < numeral_digits y ->
  exists m,
    parse_action (call_text "Scroll" (str x ++ ", " ++ str y ++ ", up"))
    = Raise (ActionParseError m)
    /\ startswith "Invalid argument format: Exceeds the limit (4300 digits)" m
       = true.
Proof.
  intros H. rewrite scroll_numerals, !int_str_scan. unfold max_str_digits.
  destruct (Z.ltb_spec 4300 (Z.of_nat (numeral_digits x))) as [Hx|Hx].
  - eexists. split; reflexivity.
  - destruct (Z.ltb_spec 4300 (Z.of_nat (numeral_digits y))) as [Hy|Hy];
      [|lia].
    eexists. split; reflexivity.
Qed.

Lemma quote_lower (c : ascii) : is_quote (lower_char c) = is_quote c.
Proof. destruct c as [[] [] [] [] [] [] [] []]; reflexivity. Qed.

Lemma lower_lstrip (s : string) :
  lower (lstrip is_quote s) = lstrip is_quote (lower s).
Proof.
  induction s as [|c s IH]; cbn [lstrip lower]; [reflexivity|].
  rewrite quote_lower. now destruct (is_quote c).
Qed.

Lemma lower_rstrip (s : string) :
  lower (rstrip is_quote s) = rstrip is_quote (lower s).
Proof.
  induction s as [|c s IH]; cbn [rstrip lower]; [reflexivity|].
  rewrite <- IH, quote_lower.
  destruct (rstrip is_quote s); cbn [lower]; [|reflexivity].
  now destruct (is_quote c).
Qed.

(** Lower-casing and stripping the quotes give the same token in either
    order. *)
Lemma lower_strip_quotes (s : string) :
  lower (strip_chars is_quote s) = strip_chars is_quote (lower s).
Proof. unfold strip_chars. now rewrite lower_rstrip, lower_lstrip. Qed.

(** C6. [Scroll] asks for three comma-separated arguments; the first two
    must read as integers, and whatever [int] reads is taken, in 0..1000
    or not: every integer of at most 4300 digits is, and a longer numeral
    is refused by [int] itself, not by a check of the range; the third,
    with quotes stripped and in lower case (in either order), must be
    [up] or [down]. [Scroll(1,2,UP)] parses with the direction [up];
    [Scroll(1,2,left)] is refused with a diagnostic that names both. *)
Theorem scroll_validation :
  (forall a : string, all (Re.not_char ")") a = true ->
     let parts := split_args (strip a) in
     let direction := lower (strip_chars is_quote (nth 2 parts "")) in
     (List.length parts <> 3 ->
        exists m, parse_action (call_text "Scroll" a)
                    = Raise (ActionParseError m)
                  /\ startswith "Scroll requires" m = true)
     /\ (List.length parts = 3 ->
         (exists e, int (nth 0 parts "") = Raise e)
         \/ (exists e, int (nth 1 parts "") = Raise e) ->
         exists m, parse_action (call_text "Scroll" a)
                     = Raise (ActionParseError m)
                   /\ startswith "Invalid argument format" m = true)
     /\ (forall x y : Z, List.length parts = 3 ->
         int (nth 0 parts "") = Return x ->
         int (nth 1 parts "") = Return y ->
         parse_action (call_text "Scroll" a) =
         if (direction =? "up") || (direction =? "down")
         then Return (mkAction "Scroll"
                [("x", VInt x); ("y", VInt y); ("direction", VStr direction)]
                None)
         else Raise (ActionParseError
                ("Scroll direction must be 'up' or 'down', got '"
                   ++ direction ++ "'"))))
  /\ (forall s : string,
        lower (strip_chars is_quote s) = strip_chars is_quote (lower s))
  /\ (forall x y : Z,
        numeral_digits x <= 4300 -> numeral_digits y <= 4300 ->
        parse_action (call_text "Scroll" (str x ++ ", " ++ str y ++ ", up")) =
        Return (mkAction "Scroll"
          [("x", VInt x); ("y", VInt y); ("direction", VStr "up")] None))
  /\ (forall x y : Z,
        4300 < numeral_digits x \/ 4300 < numeral_digits y ->
        exists m,
          parse_action
            (call_text "Scroll" (str x ++ ", " ++ str y ++ ", up"))
          = Raise (ActionParseError m)
          /\ startswith
               "Invalid argument format: Exceeds the limit (4300 digits)" m
             = true)
  /\ parse_action "Action: Scroll(1,2,UP)" =
       Return (mkAction "Scroll"
         [("x", VInt 1); ("y", VInt 2); ("direction", VStr "up")] None)
  /\ parse_action "Action: Scroll(1,2,left)" =
       Raise (ActionParseError
                "Scroll direction must be 'up' or 'down', got 'left'")
  /\ contains "up" "Scroll direction must be 'up' or 'down', got 'left'"
     && contains "down" "Scroll direction must be 'up' or 'down', got 'left'"
     = true.
Proof.
  split.
  - intros a Ha parts direction. split; [|split].
    + now apply scroll_arity.
    + now apply scroll_format.
    + intros x y Hl Hx Hy. now apply scroll_checked.
  - split; [exact lower_strip_quotes|].
    split; [exact scroll_any_integers|].
    split; [exact scroll_over_limit|]. repeat split; reflexivity.
Qed.

Lemma scroll_validation_witness :
  parse_action (call_text "Scroll" "5000, -3, 'Down'") =
    Return (mkAction "Scroll"
      [("x", VInt 5000); ("y", VInt (-3)); ("direction", VStr "down")] None)
  /\ parse_action
       (call_text "Scroll" (str 123456 ++ ", " ++ str (-7) ++ ", up")) =
     Return (mkAction "Scroll"
       [("x", VInt 123456); ("y", VInt (-7)); ("direction", VStr "up")] None)
  /\ (exists m, parse_action (call_text "Scroll" "1, 2")
                = Raise (ActionParseError m)
                /\ startswith "Scroll requires" m = true)
  /\ (exists m, parse_action (call_text "Scroll" "1, b, up")
                = Raise (ActionParseError m)
                /\ startswith "Invalid argument format" m = true).
Proof.
  destruct scroll_validation as (H & _ & Hany & _).
  split; [|split; [|split]].
  - destruct (H "5000, -3, 'Down'" eq_refl) as (_ & _ & Hc).
    apply (Hc 5000%Z (-3)%Z); reflexivity.
  - apply (Hany 123456%Z (-7)%Z); vm_compute; lia.
  - apply (H "1, 2" eq_refl). vm_compute. lia.
  - apply (H "1, b, up" eq_refl); [reflexivity|].
    right. eexists. vm_compute. reflexivity.
Defined.

End ParserProofs.

(* ================================================================== *)
(** ** Trimming the images of a conversation *)
(* ================================================================== *)

Module TrimProofs.
Import Py Agent Spec.

Lemma image_indices_here (i : nat) (msg : Message) (rest : list Message) :
  image_indices_from i (msg :: rest) =
  ((if has_image msg then [i] else []) ++ image_indices_from (S i) rest)%list.
Proof.
  cbn [image_indices_from]. unfold has_image.
  destruct (user_list msg) as [items|]; reflexivity.
Qed.

Lemma image_indices_length (i : nat) (conv : list Message) :
  List.length (image_indices_from i conv) = List.length (image_messages conv).
Proof.
  revert i. induction conv as [|msg rest IH]; intros i; [reflexivity|].
  rewrite image_indices_here. unfold image_messages. cbn [filter].
  destruct (has_image msg); cbn [app List.length]; now rewrite IH.
Qed.

Lemma image_indices_ge (i j : nat) (conv : list Message) :
  In j (image_indices_from i conv) -> i <= j.
Proof.
  revert i. induction conv as [|msg rest IH]; intros i; [intros []|].
  rewrite image_indices_here. intros H. apply in_app_or in H as [H|H].
  - destruct (has_image msg); [|destruct H].
    destruct H as [<-|[]]. lia.
  - apply IH in H. lia.
Qed.

Lemma mem_In (i : nat) (s : list nat) : mem i s = true <-> In i s.
Proof.
  unfold mem. rewrite existsb_exists. split.
  - intros (x & Hx & E). apply Nat.eqb_eq in E. now subst.
  - intros H. exists i. split; [exact H | apply Nat.eqb_refl].
Qed.

Lemma In_firstn {A} (x : A) (n : nat) (l : list A) :
  In x (firstn n l) -> In x l.
Proof.
  revert n. induction l as [|a l IH]; intros [|n]; simpl; try tauto.
  intros [H|H]; [now left | right; eauto].
Qed.

Lemma mem_small (i k m : nat) (conv : list Message) :
  i < k -> mem i (firstn m (image_indices_from k conv)) = false.
Proof.
  intros Hlt. destruct (mem _ _) eqn:E; [|reflexivity].
  apply mem_In, In_firstn, image_indices_ge in E. lia.
Qed.

(** The second loop looks only at indices from [i] on. *)
Lemma trim_loop_ext (s1 s2 : list nat) (i : nat) (conv : list Message) :
  (forall j, i <= j -> mem j s1 = mem j s2) ->
  trim_loop s1 i conv = trim_loop s2 i conv.
Proof.
  revert i. induction conv as [|msg rest IH]; intros i H; [reflexivity|].
  cbn [trim_loop]. rewrite (H i) by lia. f_equal.
  apply IH. intros j Hj. apply H. lia.
Qed.

Lemma trim_loop_nil (i : nat) (conv : list Message) : trim_loop [] i conv = conv.
Proof.
  revert i. induction conv as [|msg rest IH]; intros i; [reflexivity|].
  cbn [trim_loop mem existsb app]. now rewrite IH.
Qed.

Lemma strip_oldest_0 (conv : list Message) : strip_oldest 0 conv = conv.
Proof.
  induction conv as [|msg rest IH]; [reflexivity|].
  cbn [strip_oldest]. destruct (has_image msg); [reflexivity | now rewrite IH].
Qed.

(** The two loops of [trim_images] strip the oldest image-bearing
    messages. *)
Lemma trim_loop_strip_oldest (m i : nat) (conv : list Message) :
  trim_loop (firstn m (image_indices_from i conv)) i conv = strip_oldest m conv.
Proof.
  revert m i. induction conv as [|msg rest IH]; intros m i.
  - now destruct m.
  - rewrite image_indices_here. cbn [trim_loop strip_oldest].
    destruct (has_image msg) eqn:Hi; cbn [app].
    + destruct m as [|m'].
      * cbn [firstn mem existsb app]. now rewrite trim_loop_nil.
      * cbn [firstn mem existsb]. rewrite Nat.eqb_refl. cbn [orb].
        fold (stripped msg). f_equal.
        rewrite <- (IH m' (S i)). apply trim_loop_ext.
        intros j Hj. cbn [mem existsb].
        destruct (Nat.eqb_spec j i); [lia | reflexivity].
    + rewrite mem_small by lia. cbn [app]. f_equal. apply IH.
Qed.

(** [trim_images] in one equation: nothing is stripped when the images
    fit the budget; otherwise the slice decides how many of the oldest are. *)
Lemma trim_images_strip_oldest (conv : list Message) (k : Z) :
  let n := List.length (image_messages conv) in
  trim_images conv k =
  if (Z.of_nat n <=? k)%Z then conv
  else strip_oldest
         (Z.to_nat (if (- k <? 0)%Z then Z.max 0 (Z.of_nat n + - k)
                    else Z.min (- k) (Z.of_nat n))) conv.
Proof.
  intros n. unfold trim_images, slice_to, len.
  rewrite image_indices_length. fold n.
  destruct (Z.of_nat n <=? k)%Z; [reflexivity|].
  apply trim_loop_strip_oldest.
Qed.

Lemma trim_images_fits (conv : list Message) (k : Z) :
  (Z.of_nat (List.length (image_messages conv)) <= k)%Z ->
  trim_images conv k = conv.
Proof.
  intros H. rewrite trim_images_strip_oldest.
  apply Z.leb_le in H. now rewrite H.
Qed.

Lemma trim_images_zero (conv : list Message) : trim_images conv 0 = conv.
Proof.
  rewrite trim_images_strip_oldest. destruct (_ <=? _)%Z; [reflexivity|].
  cbn [Z.opp Z.ltb Z.compare].
  rewrite Z.min_l by lia. apply strip_oldest_0.
Qed.

Lemma trim_images_over (conv : list Message) (k : Z) :
  (0 < k < Z.of_nat (List.length (image_messages conv)))%Z ->
  trim_images conv k =
  strip_oldest (List.length (image_messages conv) - Z.to_nat k) conv.
Proof.
  intros H. rewrite trim_images_strip_oldest.
  destruct (Z.leb_spec (Z.of_nat (List.length (image_messages conv))) k);
    [lia|].
  destruct (Z.ltb_spec (- k) 0); [|lia].
  f_equal. lia.
Qed.

Lemma non_image_no_image (items : list part) :
  existsb is_image (non_image items) = false.
Proof.
  unfold non_image. destruct (existsb _ _) eqn:Ex; [|reflexivity].
  apply existsb_exists in Ex as (x & Hx & Hi).
  apply filter_In in Hx as [_ Hx]. now rewrite Hi in Hx.
Qed.

Lemma stripped_no_image (msg m' : Message) :
  In m' (stripped msg) -> has_image m' = false.
Proof.
  unfold stripped. destruct (user_list msg) as [items|]; [|intros []].
  destruct (non_image items) as [|p ps] eqn:E; [intros []|].
  intros [<-|[]]. rewrite <- E. apply non_image_no_image.
Qed.

Lemma filter_none {A} (f : A -> bool) (l : list A) :
  (forall x, In x l -> f x = false) -> filter f l = [].
Proof.
  induction l as [|a l IH]; intros H; [reflexivity|].
  cbn. rewrite (H a) by now left. apply IH. intros x Hx. apply H. now right.
Qed.

(** Stripping the oldest [m] leaves the image-bearing messages after
    them, as they were. *)
Lemma image_messages_strip_oldest (m : nat) (conv : list Message) :
  image_messages (strip_oldest m conv) = skipn m (image_messages conv).
Proof.
  unfold image_messages. revert m.
  induction conv as [|msg rest IH]; intros m; [now destruct m|].
  cbn [strip_oldest filter]. destruct (has_image msg) eqn:Hi.
  - destruct m as [|m']; cbn [skipn].
    + cbn [filter]. now rewrite Hi.
    + rewrite filter_app, (filter_none _ (stripped msg)), IH; [reflexivity|].
      apply stripped_no_image.
  - cbn [filter]. rewrite Hi. apply IH.
Qed.

Lemma frame_strip_oldest (m : nat) (conv : list Message) :
  frame conv (strip_oldest m conv).
Proof.
  revert m. induction conv as [|msg rest IH]; intros m; [constructor|].
  cbn [strip_oldest]. destruct (has_image msg) eqn:Hi.
  - destruct m as [|m']; [constructor|].
    unfold has_image in Hi. unfold stripped.
    destruct (user_list msg) as [items|] eqn:Eu; [|discriminate].
    destruct (non_image items) as [|p ps] eqn:En; cbn [app].
    + now apply (frame_drop msg items).
    + rewrite <- En. apply (frame_strip msg items); auto.
      rewrite En. discriminate.
  - now apply frame_pass.
Qed.

Lemma trim_images_frame_any (conv : list Message) (k : Z) :
  frame conv (trim_images conv k).
Proof.
  rewrite trim_images_strip_oldest.
  destruct (_ <=? _)%Z; [constructor | apply frame_strip_oldest].
Qed.

Lemma stripped_kept (m : nat) (conv : list Message) (msg out : Message) :
  In msg (firstn m (image_messages conv)) -> In out (stripped msg) ->
  In out (strip_oldest m conv).
Proof.
  unfold image_messages. revert m.
  induction conv as [|c rest IH]; intros m; [now destruct m|].
  cbn [filter strip_oldest]. destruct (has_image c) eqn:Hi.
  - destruct m as [|m1]; [intros []|]. cbn [firstn].
    intros [<-|H] Hs; apply in_or_app; [now left | right; eauto].
  - intros H Hs. right. eauto.
Qed.

(** C2, where it holds and where it does not. For a budget of at least
    one the claim holds: a conversation within the budget comes back as it
    is, and beyond it the image-bearing messages of the result are the
    last [k] of the input, at most [k] of them, and what stripping leaves
    of each older one is in the result. For the budget 0 the slice
    [image_indices[:-0]] is empty and the conversation comes back with all
    its images. *)
Theorem trim_images_budget :
  (forall (conv : list Message) (k : Z), (0 < k)%Z ->
     let n := List.length (image_messages conv) in
     (Z.of_nat n <= k -> trim_images conv k = conv)%Z
     /\ ((k < Z.of_nat n)%Z ->
         List.length (image_messages (trim_images conv k)) <= Z.to_nat k
         /\ image_messages (trim_images conv k)
            = last_n (Z.to_nat k) (image_messages conv)
         /\ forall msg m',
              In msg (firstn (n - Z.to_nat k) (image_messages conv)) ->
              In m' (stripped msg) -> In m' (trim_images conv k)))
  /\ (forall conv : list Message, trim_images conv 0 = conv)
  /\ image_messages (trim_images [image_message "URL: page1"] 0)
     = [image_message "URL: page1"].
Proof.
  split; [|split; [exact trim_images_zero | reflexivity]].
  intros conv k Hk n. split; [apply trim_images_fits|].
  intros Hn. rewrite (trim_images_over conv k) by (fold n; lia). fold n.
  rewrite image_messages_strip_oldest. split; [|split].
  - rewrite length_skipn. fold n. lia.
  - reflexivity.
  - intros msg m'. apply stripped_kept.
Qed.

Lemma trim_images_budget_witness :
  image_messages
    (trim_images [image_message "URL: page1"; image_message "URL: page2"] 1)
  = last_n 1 (image_messages
               [image_message "URL: page1"; image_message "URL: page2"]).
Proof.
  destruct trim_images_budget as (H & _).
  apply (H [image_message "URL: page1"; image_message "URL: page2"] 1%Z);
    [lia | vm_compute; reflexivity].
Defined.

(** C7. Trimming twice with the same budget, zero or more, is trimming
    once. *)
Theorem trim_images_idempotent (conv : list Message) (k : Z) :
  (0 <= k)%Z -> trim_images (trim_images conv k) k = trim_images conv k.
Proof.
  intros Hk.
  destruct (Z.le_gt_cases (Z.of_nat (List.length (image_messages conv))) k)
    as [Hfit|Hover].
  - rewrite (trim_images_fits conv k Hfit). exact (trim_images_fits conv k Hfit).
  - destruct (Z.eq_dec k 0) as [->|Hne]; [now rewrite !trim_images_zero|].
    rewrite (trim_images_over conv k) by lia.
    apply trim_images_fits.
    rewrite image_messages_strip_oldest, length_skipn. lia.
Qed.

Lemma trim_images_idempotent_witness :
  let conv := [mkMessage "system" (Text "System prompt");
               image_message "URL: page1";
               mkMessage "assistant" (Text "Click");
               image_message "URL: page2";
               image_message "URL: page3"] in
  trim_images (trim_images conv 1) 1 = trim_images conv 1.
Proof. intros conv. apply (trim_images_idempotent conv 1). lia. Defined.

End TrimProofs.

(* ================================================================== *)
(** ** The reasoning text of the recorder *)
(* ================================================================== *)

Module RecorderProofs.
Import Py Agent SaveResults Spec ReFacts.

Lemma step_record_reasoning (i : nat) (s : Recorded) :
  reasoning (step_record i s) =
  match between_tags (r_response s) with
  | Some body => strip body
  | None => ""
  end.
Proof.
  unfold step_record. cbn [reasoning]. rewrite search_reasoning.
  now destruct (between_tags (r_response s)).
Qed.

Lemma step_records_nth (steps : list Recorded) (k i : nat) (s : Recorded) :
  nth_error steps i = Some s ->
  nth_error (step_records_from k steps) i = Some (step_record (k + i) s).
Proof.
  revert k i. induction steps as [|x rest IH]; intros k [|i]; cbn;
    try discriminate.
  - intros [= ->]. now rewrite Nat.add_0_r.
  - intros H. rewrite (IH (S k) i H). f_equal. f_equal. lia.
Qed.

(** C9 as the code has it. The reasoning kept for a step is the text
    between the first opening tag of its reply and the first closing tag
    after it, with the white space at both ends stripped, and the empty
    string when the reply has no such pair. *)
Theorem reasoning_between_tags (task timestamp : string)
  (steps : list Recorded) (i : nat) (s : Recorded) :
  nth_error steps i = Some s ->
  exists r,
    nth_error (summary_steps (save_run task steps timestamp)) i = Some r
    /\ step r = i
    /\ llm_response r = r_response s
    /\ reasoning r = match between_tags (r_response s) with
                     | Some body => strip body
                     | None => ""
                     end.
Proof.
  intros H. exists (step_record i s). repeat split.
  - exact (step_records_nth steps 0 i s H).
  - apply step_record_reasoning.
Qed.

Lemma reasoning_between_tags_witness :
  exists r,
    nth_error (summary_steps
                 (save_run "Book a flight" [reasoned_step] "20260101_000000"))
      0 = Some r
    /\ step r = 0
    /\ llm_response r = r_response reasoned_step
    /\ reasoning r = "I need to click the button.".
Proof.
  exact (reasoning_between_tags "Book a flight" "20260101_000000"
           [reasoned_step] 0 reasoned_step eq_refl).
Defined.

(** C9 as the claim states it fails: between the tags of this reply
    there is a line end on either side of the sentence, and the record
    keeps the sentence without them. *)
Lemma reasoning_not_verbatim :
  between_tags (r_response reasoned_step)
    = Some (nl ++ "I need to click the button." ++ nl)
  /\ reasoning (step_record 0 reasoned_step)
     <> nl ++ "I need to click the button." ++ nl.
Proof. split; [reflexivity | discriminate]. Qed.

End RecorderProofs.

(* ================================================================== *)
(** ** The run loop *)
(* ================================================================== *)

Module LoopProofs.
Import Py Agent Spec ParserProofs.

Section LoopFacts.
Variable World : Type.
Variable self : WebNavAgent World.
Variable browser : Browser World.



End LoopFacts.

Lemma diagnostic_truthy (s e : string) :
  parse_action s = Raise (ActionParseError e) -> truthy (Some e) = true.
Proof.
  intros H. pose proof (parse_action_outcome s) as Ho. rewrite H in Ho.
  now destruct e.
Qed.

Section Turns.
Variable World : Type.
Variable self : WebNavAgent World.
Variable browser : Browser World.

Lemma loop_S (n : nat) (l : Locals) (w : World) :
  loop World self browser (S n) l w =
  match turn World self browser l w with
  | (Done r, w') =>
      match fst r with
      | Break => (Done (snd r), w')
      | Continue => loop World self browser n (snd r) w'
      end
  | (Throw e, w') => (Throw e, w')
  end.
Proof.
  cbn [loop]. unfold bindM.
  destruct (turn World self browser l w) as [[[[|] l']|e] w']; reflexivity.
Qed.

End Turns.




End LoopProofs.

(* ================================================================== *)
(** ** [trim_images] writes to none of its input *)
(* ================================================================== *)

Module StoreProofs.
Import Py Agent Spec Store TrimProofs.

Lemma nth_error_new {A} (l : list A) (x : A) :
  nth_error (l ++ [x]) (List.length l) = Some x.
Proof. rewrite nth_error_app2, Nat.sub_diag by lia. reflexivity. Qed.

Lemma nth_error_old {A} (l : list A) (x : A) (a : nat) :
  a < List.length l -> nth_error (l ++ [x]) a = nth_error l a.
Proof. intros H. now apply nth_error_app1. Qed.

Lemma nth_error_lt {A} (l : list A) (a : nat) (x : A) :
  nth_error l a = Some x -> a < List.length l.
Proof. intros H. apply nth_error_Some. congruence. Qed.

Lemma set_cell_length (h : heap) (a : nat) (c : cell) :
  List.length (set_cell h a c) = List.length h.
Proof.
  revert a. induction h as [|x h IH]; intros [|a]; cbn; auto.
Qed.

Lemma set_cell_same (h : heap) (a : nat) (c : cell) :
  a < List.length h -> nth_error (set_cell h a c) a = Some c.
Proof.
  revert a. induction h as [|x h IH]; intros [|a]; cbn; try lia; auto.
  intros H. apply IH. lia.
Qed.

Lemma set_cell_other (h : heap) (a b : nat) (c : cell) :
  b <> a -> nth_error (set_cell h a c) b = nth_error h b.
Proof.
  revert a b. induction h as [|x h IH]; intros [|a] [|b] H; cbn; auto;
    try congruence.
Qed.

Lemma preserves_refl (result : nat) (h : heap) : preserves result h h.
Proof. split; auto. Qed.

Lemma preserves_trans (result : nat) (h1 h2 h3 : heap) :
  preserves result h1 h2 -> preserves result h2 h3 -> preserves result h1 h3.
Proof.
  intros [L1 P1] [L2 P2]. split; [lia|].
  intros a Ha Hr. rewrite P2, P1; auto. lia.
Qed.

Lemma preserves_alloc (result : nat) (h : heap) (c : cell) :
  preserves result h (snd (alloc h c)).
Proof.
  split; cbn; [rewrite length_app; lia|].
  intros a Ha _. now apply nth_error_old.
Qed.

Lemma preserves_append_to (result : nat) (h : heap) (x : nat) :
  preserves result h (append_to h result x).
Proof.
  unfold append_to. destruct (nth_error h result) as [[items|r c|p]|];
    try apply preserves_refl.
  split; [now rewrite set_cell_length|].
  intros a _ Hr. now apply set_cell_other.
Qed.

Lemma append_to_result (h : heap) (result x : nat) (items : list nat) :
  nth_error h result = Some (CList items) ->
  nth_error (append_to h result x) result = Some (CList (items ++ [x])).
Proof.
  intros H. unfold append_to. rewrite H.
  apply set_cell_same. now apply nth_error_lt in H.
Qed.

(** What is read stays as it was while the objects read stay. *)
Section Stable.
Variables (result : nat) (h h' : heap).
Hypothesis Hp : preserves result h h'.
Hypothesis Hl : list_or_free h result.

Lemma kept_cell (a : nat) (c : cell) :
  nth_error h a = Some c -> a <> result -> nth_error h' a = Some c.
Proof.
  intros H Hr. destruct Hp as [_ P]. rewrite P; auto.
  now apply nth_error_lt in H.
Qed.

Lemma part_stable (a : nat) (p : part) :
  part_at h a = Some p -> part_at h' a = Some p.
Proof.
  unfold part_at.
  destruct (nth_error h a) as [[items|r c|q]|] eqn:E; try discriminate.
  intros [= ->]. rewrite (kept_cell a (CPart p)); auto.
  intros ->. unfold list_or_free in Hl. now rewrite E in Hl.
Qed.

Lemma read_parts_stable (items : list nat) (ps : list part) :
  read_all (part_at h) items = Some ps -> read_all (part_at h') items = Some ps.
Proof.
  revert ps. induction items as [|a items IH]; intros ps; cbn; [auto|].
  destruct (part_at h a) as [p|] eqn:E; [|discriminate].
  destruct (read_all (part_at h) items) as [qs|]; [|discriminate].
  intros [= <-]. now rewrite (part_stable a p E), (IH qs).
Qed.

Lemma reads_stable (x : nat) (msg : Message) :
  reads h result x msg -> reads h' result x msg.
Proof.
  intros [Hm Hc]. unfold reads, message_at in *.
  destruct (nth_error h x) as [[items|r [s|c]|p]|] eqn:E; try discriminate.
  - assert (Hx : x <> result).
    { intros ->. unfold list_or_free in Hl. now rewrite E in Hl. }
    rewrite (kept_cell x _ E Hx). split; [exact Hm | discriminate].
  - assert (Hx : x <> result).
    { intros ->. unfold list_or_free in Hl. now rewrite E in Hl. }
    rewrite (kept_cell x _ E Hx). split.
    + unfold parts_at in *.
      destruct (nth_error h c) as [[items|r0 c0|p0]|] eqn:Ec; try discriminate.
      rewrite (kept_cell c _ Ec (Hc r c eq_refl)).
      destruct (read_all (part_at h) items) as [ps|] eqn:Er; [|discriminate].
      now rewrite (read_parts_stable items ps Er).
    + intros r' c' [= <- <-]. now apply (Hc r c).
Qed.

Lemma all_reads_stable (xs : list nat) (msgs : list Message) :
  Forall2 (reads h result) xs msgs -> Forall2 (reads h' result) xs msgs.
Proof.
  induction 1; constructor; auto using reads_stable.
Qed.
End Stable.

Lemma read_all_Forall2 {A} (f : nat -> option A) (xs : list nat) (ys : list A) :
  read_all f xs = Some ys <-> Forall2 (fun x y => f x = Some y) xs ys.
Proof.
  revert ys. induction xs as [|x xs IH]; intros ys; cbn.
  - split; [intros [= <-]; constructor | now inversion 1].
  - destruct (f x) as [y|] eqn:E.
    + destruct (read_all f xs) as [zs|].
      * split.
        -- intros [= <-]. constructor; [exact E | now apply IH].
        -- inversion 1; subst. f_equal. f_equal; [congruence|].
           assert (Some zs = Some l') by now apply IH. congruence.
      * split; [discriminate|]. inversion 1; subst.
        assert (None = Some l') by now apply IH. discriminate.
    + split; [discriminate|]. inversion 1; subst. congruence.
Qed.

Lemma user_list_reads (h : heap) (result m : nat) (msg : Message) :
  reads h result m msg ->
  match user_list_at h m with
  | Some items =>
      exists ps, user_list msg = Some ps
                 /\ read_all (part_at h) items = Some ps
  | None => user_list msg = None
  end.
Proof.
  intros [Hm _]. unfold message_at, user_list_at, user_list in *.
  destruct (nth_error h m) as [[items|r [s|c]|p]|]; try discriminate.
  - injection Hm as <-. cbn. now destruct (r =? "user").
  - unfold parts_at in Hm.
    destruct (nth_error h c) as [[items|r0 c0|p0]|]; try discriminate.
    destruct (read_all (part_at h) items) as [ps|] eqn:Er; [|discriminate].
    injection Hm as <-. cbn. destruct (r =? "user"); [|reflexivity].
    exists ps. now split.
Qed.

Lemma existsb_reads (h : heap) (items : list nat) (ps : list part) :
  read_all (part_at h) items = Some ps ->
  existsb (is_image_at h) items = existsb is_image ps.
Proof.
  revert ps. induction items as [|a items IH]; intros ps; cbn.
  - now intros [= <-].
  - unfold is_image_at at 1. destruct (part_at h a) as [p|]; [|discriminate].
    destruct (read_all (part_at h) items) as [qs|]; [|discriminate].
    intros [= <-]. cbn. now rewrite (IH qs).
Qed.

Lemma filter_reads (h : heap) (items : list nat) (ps : list part) :
  read_all (part_at h) items = Some ps ->
  read_all (part_at h) (filter (fun a => negb (is_image_at h a)) items)
  = Some (non_image ps).
Proof.
  revert ps. induction items as [|a items IH]; intros ps; cbn.
  - now intros [= <-].
  - unfold is_image_at at 1. destruct (part_at h a) as [p|] eqn:E; [|discriminate].
    destruct (read_all (part_at h) items) as [qs|]; [|discriminate].
    intros [= <-]. unfold non_image. cbn [filter].
    destruct (is_image p); cbn [negb]; [now apply IH|].
    cbn [read_all]. rewrite E. fold (non_image qs). now rewrite (IH qs).
Qed.

Lemma image_indices_reads (h : heap) (result i : nat)
  (msgs : list nat) (conv : list Message) :
  Forall2 (reads h result) msgs conv ->
  image_indices_at h i msgs = image_indices_from i conv.
Proof.
  intros H. revert i. induction H as [|m msg msgs conv Hm _ IH]; intros i;
    [reflexivity|].
  cbn [image_indices_at image_indices_from]. rewrite IH. f_equal.
  apply user_list_reads in Hm.
  destruct (user_list_at h m) as [items|].
  - destruct Hm as (ps & -> & Hr). now rewrite (existsb_reads h items ps).
  - now rewrite Hm.
Qed.

Lemma list_at_result (h : heap) (result : nat) (acc : list nat) :
  nth_error h result = Some (CList acc) -> list_or_free h result.
Proof. unfold list_or_free. now intros ->. Qed.

Lemma read_all_nil {A} (f : nat -> option A) (xs : list nat) :
  read_all f xs = Some [] -> xs = [].
Proof.
  destruct xs as [|x xs]; [reflexivity|]. cbn.
  destruct (f x); [|discriminate]. destruct (read_all f xs); discriminate.
Qed.

Lemma read_all_cons {A} (f : nat -> option A) (xs : list nat) (y : A) ys :
  read_all f xs = Some (y :: ys) -> xs <> [].
Proof. destruct xs; cbn; [discriminate | discriminate]. Qed.

(** One message of the second loop: what it appends to the list at
    [result] reads as what the loop over values appends. *)
Lemma trim_step_at (rm : list nat) (result i m : nat) (msg : Message)
  (h : heap) (acc : list nat) (accm : list Message) :
  reads h result m msg ->
  nth_error h result = Some (CList acc) ->
  Forall2 (reads h result) acc accm ->
  let h1 := trim_loop_at rm result i [m] h in
  preserves result h h1
  /\ exists acc1,
       nth_error h1 result = Some (CList acc1)
       /\ Forall2 (reads h1 result) acc1
            (accm ++ trim_loop rm i [msg])%list.
Proof.
  intros Hm Hres Hacc. cbn [trim_loop_at trim_loop].
  pose proof (list_at_result h result acc Hres) as Hl.
  pose proof (nth_error_lt _ _ _ Hres) as Hlt.
  rewrite app_nil_r.
  destruct (mem i rm).
  - pose proof (user_list_reads h result m msg Hm) as Hu.
    destruct (user_list_at h m) as [items|].
    + destruct Hu as (ps & -> & Hr).
      pose proof (filter_reads h items ps Hr) as Hk.
      fold (non_image ps).
      remember (filter (fun a => negb (is_image_at h a)) items) as kept
        eqn:Ekept.
      clear Ekept.
      pose proof (preserves_alloc result h (CList kept)) as Pa.
      cbn [alloc fst snd] in *.
      destruct (non_image ps) as [|q qs] eqn:En.
      * apply read_all_nil in Hk. subst kept.
        split; [exact Pa|]. exists acc. split.
        -- now rewrite nth_error_old.
        -- rewrite app_nil_r. now apply (all_reads_stable result h).
      * pose proof (read_all_cons _ _ _ _ Hk) as Hne.
        destruct kept as [|k0 ks]; [contradiction|]. cbv iota.
        remember (k0 :: ks) as kept eqn:Ek. clear Ek k0 ks.
        set (ha := (h ++ [CList kept])%list) in *.
        set (hb := (ha ++ [CMsg "user" (VList (List.length h))])%list).
        assert (Pb : preserves result h hb).
        { apply (preserves_trans result h ha hb); [exact Pa|].
          apply (preserves_alloc result ha). }
        assert (Hrb : nth_error hb result = Some (CList acc)).
        { destruct Pb as [_ Pb]. unfold hb, ha.
          rewrite !nth_error_old; auto. rewrite length_app. lia. }
        assert (Hd : reads hb result (List.length ha)
                       (mkMessage "user" (Parts (q :: qs)))).
        { split.
          - unfold message_at, hb. rewrite nth_error_new. cbn.
            unfold parts_at. fold hb.
            replace (nth_error hb (List.length h)) with (Some (CList kept)).
            + rewrite (read_parts_stable result h hb Pb Hl kept (q :: qs) Hk).
              reflexivity.
            + unfold hb. rewrite nth_error_old
                by (unfold ha; rewrite length_app; cbn; lia).
              unfold ha. symmetry. apply nth_error_new.
          - unfold hb. rewrite nth_error_new. intros r c [= <- <-]. lia. }
        pose proof (preserves_append_to result hb (List.length ha)) as Pc.
        pose proof (list_at_result hb result acc Hrb) as Hlb.
        split; [exact (preserves_trans result h hb _ Pb Pc)|].
        exists (acc ++ [List.length ha])%list. split.
        -- now apply append_to_result.
        -- apply Forall2_app.
           ++ apply (all_reads_stable result hb _ Pc Hlb).
              now apply (all_reads_stable result h).
           ++ constructor; [|constructor].
              now apply (reads_stable result hb).
    + rewrite Hu. split; [apply preserves_refl|].
      exists acc. rewrite app_nil_r. now split.
  - pose proof (preserves_append_to result h m) as Pc.
    split; [exact Pc|].
    exists (acc ++ [m])%list. split; [now apply append_to_result|].
    apply Forall2_app.
    + now apply (all_reads_stable result h).
    + constructor; [|constructor]. now apply (reads_stable result h).
Qed.

Lemma trim_loop_at_cons (rm : list nat) (result i m : nat) (rest : list nat)
  (h : heap) :
  trim_loop_at rm result i (m :: rest) h
  = trim_loop_at rm result (S i) rest (trim_loop_at rm result i [m] h).
Proof. reflexivity. Qed.

Lemma trim_loop_cons (rm : list nat) (i : nat) (msg : Message)
  (conv : list Message) :
  trim_loop rm i (msg :: conv)
  = (trim_loop rm i [msg] ++ trim_loop rm (S i) conv)%list.
Proof. cbn [trim_loop]. now rewrite app_nil_r. Qed.

(** The second loop on the store builds, in the list at [result], what
    the loop over values returns, and writes to no other object. *)
Lemma trim_loop_at_reads (rm : list nat) (result : nat)
  (msgs : list nat) (conv : list Message) :
  forall (i : nat) (h : heap) (acc : list nat) (accm : list Message),
  Forall2 (reads h result) msgs conv ->
  nth_error h result = Some (CList acc) ->
  Forall2 (reads h result) acc accm ->
  preserves result h (trim_loop_at rm result i msgs h)
  /\ exists acc',
       nth_error (trim_loop_at rm result i msgs h) result = Some (CList acc')
       /\ Forall2 (reads (trim_loop_at rm result i msgs h) result) acc'
            (accm ++ trim_loop rm i conv)%list.
Proof.
  revert conv. induction msgs as [|m rest IH]; intros conv i h acc accm Hms.
  - inversion Hms; subst. intros Hres Hacc. cbn [trim_loop_at trim_loop].
    split; [apply preserves_refl|]. exists acc. now rewrite app_nil_r.
  - inversion Hms as [|? msg ? conv' Hm Hrest]; subst. intros Hres Hacc.
    rewrite trim_loop_at_cons, trim_loop_cons.
    destruct (trim_step_at rm result i m msg h acc accm Hm Hres Hacc)
      as (P1 & acc1 & Hres1 & Hacc1).
    set (h1 := trim_loop_at rm result i [m] h) in *.
    assert (Hrest1 : Forall2 (reads h1 result) rest conv').
    { apply (all_reads_stable result h); auto.
      now apply (list_at_result h result acc). }
    destruct (IH conv' (S i) h1 acc1 _ Hrest1 Hres1 Hacc1)
      as (P2 & acc2 & Hres2 & Hacc2).
    split; [now apply (preserves_trans result h h1)|].
    exists acc2. split; [exact Hres2|]. now rewrite app_assoc.
Qed.

Lemma reads_at_free (h : heap) (x : nat) (msg : Message) :
  message_at h x = Some msg -> reads h (List.length h) x msg.
Proof.
  intros H. split; [exact H|]. intros r c E. unfold message_at in H.
  rewrite E in H. unfold parts_at in H.
  destruct (nth_error h c) eqn:Ec; [|discriminate].
  apply nth_error_lt in Ec. lia.
Qed.

Lemma Forall2_impl {A B} (P Q : A -> B -> Prop) (xs : list A) (ys : list B) :
  (forall x y, P x y -> Q x y) -> Forall2 P xs ys -> Forall2 Q xs ys.
Proof. intros H. induction 1; constructor; auto. Qed.

(** [trim_images] on the store: no object that was there is written, the
    input still reads as it did, and the result reads as [trim_images] of
    the input's value. *)
Lemma trim_images_at_reads (h : heap) (c : nat) (k : Z) (conv : list Message) :
  conversation_at h c = Some conv ->
  (forall a, a < List.length h ->
     nth_error (snd (trim_images_at h c k)) a = nth_error h a)
  /\ conversation_at (snd (trim_images_at h c k)) c = Some conv
  /\ conversation_at (snd (trim_images_at h c k)) (fst (trim_images_at h c k))
     = Some (trim_images conv k).
Proof.
  unfold conversation_at at 1. unfold trim_images_at, trim_images.
  destruct (nth_error h c) as [[msgs|r0 c0|p0]|] eqn:Ec; try discriminate.
  intros Hconv.
  assert (Hreads : Forall2 (reads h (List.length h)) msgs conv).
  { apply read_all_Forall2 in Hconv.
    eapply Forall2_impl; [|exact Hconv]. apply reads_at_free. }
  rewrite (image_indices_reads h (List.length h) 0 msgs conv Hreads).
  destruct (_ <=? _)%Z.
  - cbn [fst snd]. repeat split; auto.
    + unfold conversation_at. now rewrite Ec.
    + unfold conversation_at. now rewrite Ec.
  - cbn [alloc fst snd].
    set (rm := slice_to (image_indices_from 0 conv) (- k)).
    set (h1 := (h ++ [CList []])%list).
    assert (P1 : preserves (List.length h) h h1)
      by apply (preserves_alloc (List.length h) h (CList [])).
    assert (Hfree : list_or_free h (List.length h)).
    { unfold list_or_free.
      replace (nth_error h (List.length h)) with (@None cell); [exact I|].
      symmetry. apply nth_error_None. lia. }
    assert (Hreads1 : Forall2 (reads h1 (List.length h)) msgs conv)
      by now apply (all_reads_stable (List.length h) h).
    destruct (trim_loop_at_reads rm (List.length h) msgs conv 0 h1 [] []
                Hreads1 (nth_error_new h (CList [])) (Forall2_nil _))
      as (P2 & acc & Hres & Hacc).
    set (h2 := trim_loop_at rm (List.length h) 0 msgs h1) in *.
    pose proof (preserves_trans _ _ _ _ P1 P2) as [_ P].
    split; [|split].
    + intros a Ha. apply P; lia.
    + unfold conversation_at. rewrite P; [|now apply nth_error_lt in Ec|].
      * rewrite Ec. apply read_all_Forall2.
        eapply Forall2_impl; [|apply (all_reads_stable _ h1 h2 P2)].
        -- intros x y [Hxy _]. exact Hxy.
        -- unfold list_or_free, h1. now rewrite nth_error_new.
        -- exact Hreads1.
      * apply nth_error_lt in Ec. lia.
    + unfold conversation_at. rewrite Hres. apply read_all_Forall2.
      eapply Forall2_impl; [|exact Hacc]. now intros x y [Hxy _].
Qed.

Lemma frame_keeps (c c' : list Message) (msg : Message) :
  frame c c' -> In msg c -> has_image msg = false -> In msg c'.
Proof.
  induction 1 as [c|m c c' Hm _ IH|m items c c' Hu Hi _ _ IH
                 |m items c c' Hu Hi _ _ IH]; intros Hin Hno.
  - exact Hin.
  - destruct Hin as [->|Hin]; [now left | right; auto].
  - destruct Hin as [->|Hin]; [|right; auto].
    unfold has_image in Hno. rewrite Hu in Hno. congruence.
  - destruct Hin as [->|Hin]; [|auto].
    unfold has_image in Hno. rewrite Hu in Hno. congruence.
Qed.

(** C8. The output of [trim_images] is the input with some of its oldest
    image-bearing user messages replaced by their non-image parts, or left
    out when they have none, and every other message in place and as it
    was; so every message without an image, the system and assistant
    messages among them, is in the output. On the store, the call writes
    to no object that existed before it: the input reads as it did, and
    the list returned reads as the trimmed conversation. *)
Theorem trim_images_frame :
  (forall (conv : list Message) (k : Z), frame conv (trim_images conv k))
  /\ (forall (conv : list Message) (k : Z) (msg : Message),
        In msg conv -> has_image msg = false -> In msg (trim_images conv k))
  /\ (forall (h : heap) (c : nat) (k : Z) (conv : list Message),
        conversation_at h c = Some conv ->
        (forall a, a < List.length h ->
           nth_error (snd (trim_images_at h c k)) a = nth_error h a)
        /\ conversation_at (snd (trim_images_at h c k)) c = Some conv
        /\ conversation_at (snd (trim_images_at h c k))
             (fst (trim_images_at h c k))
           = Some (trim_images conv k)).
Proof.
  split; [exact trim_images_frame_any|]. split.
  - intros conv k msg. apply frame_keeps, trim_images_frame_any.
  - exact trim_images_at_reads.
Qed.

Lemma trim_images_frame_witness :
  In (mkMessage "assistant" (Text "Click")) (trim_images example_conversation 1)
  /\ conversation_at (snd (trim_images_at example_heap 12 1)) 12
     = Some example_conversation
  /\ conversation_at (snd (trim_images_at example_heap 12 1))
       (fst (trim_images_at example_heap 12 1))
     = Some (trim_images example_conversation 1).
Proof.
  destruct trim_images_frame as (_ & Hkeep & Hstore). split.
  - apply Hkeep; [cbn; tauto | reflexivity].
  - apply (Hstore example_heap 12 1%Z example_conversation). reflexivity.
Defined.

End StoreProofs.

(* ================================================================== *)
(** ** The tests of the repository, on the embedding *)
(* ================================================================== *)

Module Tests.
Import Py Agent Spec.

Example test_click_valid :
  parse_action "Action: Click(500, 300)" = Return (click_action 500 300).
Proof. reflexivity. Qed.

Example test_click_with_reasoning :
  parse_action ("<reasoning>" ++ nl ++ "I need to click the button." ++ nl
                  ++ "</reasoning>" ++ nl ++ "Action: Click(100, 200)")
  = Return (click_action 100 200).
Proof. reflexivity. Qed.

Example test_click_boundary_values :
  parse_action "Action: Click(0, 0)" = Return (click_action 0 0)
  /\ parse_action "Action: Click(1000, 1000)" = Return (click_action 1000 1000).
Proof. split; reflexivity. Qed.

Example test_click_negative_coordinates :
  parse_action "Action: Click(-1, 500)"
  = Raise (ActionParseError "Coordinates must be 0-1000, got (-1, 500)").
Proof. reflexivity. Qed.

Example test_click_wrong_arg_count :
  parse_action "Action: Click(500)"
  = Raise (ActionParseError
             "Click requires exactly 2 arguments (x, y), got 1").
Proof. reflexivity. Qed.

Example test_click_non_integer :
  parse_action "Action: Click(abc, 300)"
  = Raise (ActionParseError
      "Invalid argument format: invalid literal for int() with base 10: 'abc'").
Proof. reflexivity. Qed.

Example test_type_valid :
  parse_action "Action: Type(hello world)"
  = Return (mkAction "Type" [("content", VStr "hello world")] None).
Proof. reflexivity. Qed.

Example test_type_with_special_chars :
  parse_action "Action: Type(test@email.com)"
  = Return (mkAction "Type" [("content", VStr "test@email.com")] None).
Proof. reflexivity. Qed.

Example test_scroll_valid :
  parse_action "Action: Scroll(500, 500, down)"
  = Return (mkAction "Scroll"
      [("x", VInt 500); ("y", VInt 500); ("direction", VStr "down")] None).
Proof. reflexivity. Qed.

Example test_press_valid :
  parse_action "Action: Press(Enter)"
  = Return (mkAction "Press" [("key", VStr "Enter")] None).
Proof. reflexivity. Qed.

Example test_wait_valid :
  parse_action "Action: Wait()" = Return (mkAction "Wait" [] None).
Proof. reflexivity. Qed.

Example test_finished_valid :
  parse_action "Action: Finished()" = Return (mkAction "Finished" [] None).
Proof. reflexivity. Qed.

Example test_calluser_valid :
  parse_action "Action: CallUser(What is your password?)"
  = Return (mkAction "CallUser"
              [("question", VStr "What is your password?")] None).
Proof. reflexivity. Qed.

Example test_unknown_action :
  parse_action "Action: UnknownAction(123)"
  = Raise (ActionParseError "Unknown action: UnknownAction").
Proof. reflexivity. Qed.

Example test_no_action_found :
  parse_action "I will click on the button"
  = Raise (ActionParseError
      "No valid action found in response. Expected format: Action: Name(args)").
Proof. reflexivity. Qed.

Example test_with_task :
  build_message (mkBrowserState "test_screenshot_1" "https://example.com")
    (Some "Book a flight")
  = mkMessage "user"
      (Parts [ TextPart "Task: Book a flight";
               TextPart "Current URL: https://example.com";
               ImageUrlPart "data:image/png;base64,test_screenshot_1" ]).
Proof. reflexivity. Qed.

Example test_without_task :
  build_message (mkBrowserState "test_screenshot_2" "https://google.com") None
  = mkMessage "user"
      (Parts [ TextPart "Current URL: https://google.com";
               ImageUrlPart "data:image/png;base64,test_screenshot_2" ]).
Proof. reflexivity. Qed.

Example test_no_trimming_needed :
  trim_images [text_message "system" "System prompt";
               image_message "URL: page1"] 1
  = [text_message "system" "System prompt"; image_message "URL: page1"].
Proof. reflexivity. Qed.

Example test_trim_to_one_image :
  trim_images [text_message "system" "System prompt";
               image_message "URL: page1";
               text_message "assistant" "Click";
               image_message "URL: page2";
               text_message "assistant" "Type";
               image_message "URL: page3"] 1
  = [text_message "system" "System prompt";
     mkMessage "user" (Parts [TextPart "URL: page1"]);
     text_message "assistant" "Click";
     mkMessage "user" (Parts [TextPart "URL: page2"]);
     text_message "assistant" "Type";
     image_message "URL: page3"].
Proof. reflexivity. Qed.

Example test_trim_to_two_images :
  trim_images [text_message "system" "System prompt";
               image_message "URL: page1";
               image_message "URL: page2";
               image_message "URL: page3"] 2
  = [text_message "system" "System prompt";
     mkMessage "user" (Parts [TextPart "URL: page1"]);
     image_message "URL: page2";
     image_message "URL: page3"].
Proof. reflexivity. Qed.

Example test_empty_conversation : trim_images [] 1 = [].
Proof. reflexivity. Qed.

Example test_click :
  execute_action call_log (click_action 500 300) mock_browser []
  = (Done None, [("click", [VInt 500; VInt 300])]).
Proof. reflexivity. Qed.

Example test_wait :
  execute_action call_log (mkAction "Wait" [] None) mock_browser []
  = (Done None, [("wait", [])]).
Proof. reflexivity. Qed.

Example test_browser_exception :
  execute_action call_log (click_action 500 300) broken_browser []
  = (Done (Some "Action execution failed: Browser error"), []).
Proof. reflexivity. Qed.

End Tests.

(* ================================================================== *)
(** ** Base64: decoding what was encoded *)
(* ================================================================== *)

Module Base64Proofs.
Import Py Agent Spec Base64.

Lemma below_forallb (P : N -> bool) (k : nat) :
  forallb P (map N.of_nat (seq 0 k)) = true ->
  forall n, (n < N.of_nat k)%N -> P n = true.
Proof.
  intros H n Hn. rewrite forallb_forall in H. apply H.
  apply in_map_iff. exists (N.to_nat n). split; [apply N2Nat.id|].
  apply in_seq. lia.
Qed.

Lemma below2_forallb (P : N -> N -> bool) (k1 k2 : nat) :
  forallb (fun x => forallb (P x) (map N.of_nat (seq 0 k2)))
    (map N.of_nat (seq 0 k1)) = true ->
  forall x y, (x < N.of_nat k1)%N -> (y < N.of_nat k2)%N -> P x y = true.
Proof.
  intros H x y Hx Hy.
  apply (below_forallb (P x) k2); [|exact Hy].
  exact (below_forallb _ k1 H x Hx).
Qed.

Lemma byte_of_to_N (b : byte) : byte_of (Byte.to_N b) = b.
Proof.
  unfold byte_of. pose proof (Byte.to_N_bounded b) as Hb.
  rewrite N.mod_small by lia. now rewrite Byte.of_to_N.
Qed.

Lemma byte_of_mod (x y : N) : (x mod 256 = y)%N -> byte_of x = byte_of y.
Proof.
  intros <-. unfold byte_of. now rewrite N.Div0.mod_mod.
Qed.

(** A character of the alphabet is not the pad, is ASCII, and has its
    value back. *)
Lemma a2b_b2a (n : N) :
  (n < 64)%N ->
  (b2a n =? "=")%char = false /\ a2b (b2a n) = Some n
  /\ (code (b2a n) <? 128)%N = true.
Proof.
  intros Hn.
  pose (P := fun n => negb (b2a n =? "=")%char
                      && match a2b (b2a n) with
                         | Some m => (m =? n)%N
                         | None => false
                         end
                      && (code (b2a n) <? 128)%N).
  assert (H : P n = true)
    by (apply (below_forallb P 64); [vm_compute; reflexivity | exact Hn]).
  unfold P in H. apply andb_prop in H as [H H3].
  apply andb_prop in H as [H1 H2].
  split; [now destruct (_ =? _)%char|]. split; [|exact H3].
  destruct (a2b (b2a n)) as [m|]; [|discriminate].
  apply N.eqb_eq in H2. now subst.
Qed.

(** The first two characters of a group give back the first byte, and
    leave the high half of the second. *)
Lemma first_byte (a t : N) :
  (a < 256)%N -> (t < 16)%N ->
  let s0 := N.shiftr a 2 in
  let s1 := N.lor (N.shiftl (N.land a 3) 4) t in
  (s0 < 64)%N /\ (s1 < 64)%N
  /\ (N.lor (N.shiftl s0 2) (N.shiftr s1 4) mod 256 = a)%N
  /\ N.land s1 15 = t.
Proof.
  intros Ha Ht s0 s1.
  pose (P := fun a t =>
    let s0 := N.shiftr a 2 in
    let s1 := N.lor (N.shiftl (N.land a 3) 4) t in
    (s0 <? 64)%N && (s1 <? 64)%N
    && (N.lor (N.shiftl s0 2) (N.shiftr s1 4) mod 256 =? a)%N
    && (N.land s1 15 =? t)%N).
  assert (H : P a t = true)
    by (apply (below2_forallb P 256 16);
        [vm_compute; reflexivity | exact Ha | exact Ht]).
  unfold P in H. cbv zeta in H. fold s0 s1 in H.
  apply andb_prop in H as [H H4]. apply andb_prop in H as [H H3].
  apply andb_prop in H as [H1 H2].
  apply N.ltb_lt in H1, H2. apply N.eqb_eq in H3, H4. auto.
Qed.

Lemma halves (b : N) :
  (b < 256)%N ->
  (N.shiftr b 4 < 16)%N /\ (N.land b 15 < 16)%N
  /\ (N.shiftr b 6 < 4)%N /\ (N.land b 63 < 64)%N.
Proof.
  intros Hb.
  pose (P := fun b => (N.shiftr b 4 <? 16)%N && (N.land b 15 <? 16)%N
                      && (N.shiftr b 6 <? 4)%N && (N.land b 63 <? 64)%N).
  assert (H : P b = true)
    by (apply (below_forallb P 256); [vm_compute; reflexivity | exact Hb]).
  unfold P in H.
  apply andb_prop in H as [H H4]. apply andb_prop in H as [H H3].
  apply andb_prop in H as [H1 H2].
  apply N.ltb_lt in H1, H2, H3, H4. auto.
Qed.

(** The third character gives back the second byte, and leaves the top
    two bits of the third. *)
Lemma second_byte (b lo : N) :
  (b < 256)%N -> (lo < 4)%N ->
  let s2 := N.lor (N.shiftl (N.land b 15) 2) lo in
  (s2 < 64)%N
  /\ (N.lor (N.shiftl (N.shiftr b 4) 4) (N.shiftr s2 2) mod 256 = b)%N
  /\ N.land s2 3 = lo.
Proof.
  intros Hb Hlo s2.
  pose (P := fun b lo =>
    let s2 := N.lor (N.shiftl (N.land b 15) 2) lo in
    (s2 <? 64)%N
    && (N.lor (N.shiftl (N.shiftr b 4) 4) (N.shiftr s2 2) mod 256 =? b)%N
    && (N.land s2 3 =? lo)%N).
  assert (H : P b lo = true)
    by (apply (below2_forallb P 256 4);
        [vm_compute; reflexivity | exact Hb | exact Hlo]).
  unfold P in H. cbv zeta in H. fold s2 in H.
  apply andb_prop in H as [H H3]. apply andb_prop in H as [H1 H2].
  apply N.ltb_lt in H1. apply N.eqb_eq in H2, H3. auto.
Qed.

Lemma third_byte (c : N) :
  (c < 256)%N ->
  (N.lor (N.shiftl (N.shiftr c 6) 6) (N.land c 63) mod 256 = c)%N.
Proof.
  intros Hc.
  pose (P := fun c =>
    (N.lor (N.shiftl (N.shiftr c 6) 6) (N.land c 63) mod 256 =? c)%N).
  assert (H : P c = true)
    by (apply (below_forallb P 256); [vm_compute; reflexivity | exact Hc]).
  now apply N.eqb_eq in H.
Qed.

(** One step of the decoder on a character of the alphabet. *)
Lemma a2b_base64_value (n : N) (r : string) (q l p : N) (out : list byte) :
  (n < 64)%N ->
  a2b_base64 (String (b2a n) r) q l p out =
  if (q =? 0)%N then a2b_base64 r 1 n 0 out
  else if (q =? 1)%N then
    a2b_base64 r 2 (N.land n 15) 0
      (out ++ [byte_of (N.lor (N.shiftl l 2) (N.shiftr n 4))])
  else if (q =? 2)%N then
    a2b_base64 r 3 (N.land n 3) 0
      (out ++ [byte_of (N.lor (N.shiftl l 4) (N.shiftr n 2))])
  else
    a2b_base64 r 0 0 0 (out ++ [byte_of (N.lor (N.shiftl l 6) n)]).
Proof.
  intros Hn. destruct (a2b_b2a n Hn) as (H1 & H2 & _).
  cbn [a2b_base64]. now rewrite H1, H2.
Qed.

Lemma bounded (b : byte) : (Byte.to_N b < 256)%N.
Proof. pose proof (Byte.to_N_bounded b). lia. Qed.

(** The first two characters of a group, from a fresh start. *)
Lemma decode_first (a : byte) (t : N) (r : string) (out : list byte) :
  (t < 16)%N ->
  a2b_base64
    (String (b2a (N.shiftr (Byte.to_N a) 2))
       (String (b2a (N.lor (N.shiftl (N.land (Byte.to_N a) 3) 4) t)) r))
    0 0 0 out
  = a2b_base64 r 2 t 0 (out ++ [a]).
Proof.
  intros Ht.
  destruct (first_byte (Byte.to_N a) t (bounded a) Ht) as (H0 & H1 & Hb & Hl).
  rewrite a2b_base64_value by exact H0. cbn [N.eqb].
  rewrite a2b_base64_value by exact H1. cbn [N.eqb Pos.eqb].
  now rewrite Hl, (byte_of_mod _ _ Hb), byte_of_to_N.
Qed.

(** The third character, after the first two. *)
Lemma decode_second (b : byte) (lo : N) (r : string) (out : list byte) :
  (lo < 4)%N ->
  a2b_base64
    (String (b2a (N.lor (N.shiftl (N.land (Byte.to_N b) 15) 2) lo)) r)
    2 (N.shiftr (Byte.to_N b) 4) 0 out
  = a2b_base64 r 3 lo 0 (out ++ [b]).
Proof.
  intros Hlo.
  destruct (second_byte (Byte.to_N b) lo (bounded b) Hlo) as (H2 & Hb & Hl).
  rewrite a2b_base64_value by exact H2. cbn [N.eqb Pos.eqb].
  now rewrite Hl, (byte_of_mod _ _ Hb), byte_of_to_N.
Qed.

Lemma decode_third (c : byte) (r : string) (out : list byte) :
  a2b_base64 (String (b2a (N.land (Byte.to_N c) 63)) r)
    3 (N.shiftr (Byte.to_N c) 6) 0 out
  = a2b_base64 r 0 0 0 (out ++ [c]).
Proof.
  destruct (halves (Byte.to_N c) (bounded c)) as (_ & _ & _ & H3).
  rewrite a2b_base64_value by exact H3. cbn [N.eqb Pos.eqb].
  now rewrite (byte_of_mod _ _ (third_byte _ (bounded c))), byte_of_to_N.
Qed.

Lemma lor_0_r (n : N) : N.lor n 0 = n.
Proof. apply N.lor_0_r. Qed.

(** The decoder on an encoding, with the bytes decoded before it. *)
Lemma a2b_base64_b64encode (bs out : list byte) :
  a2b_base64 (b64encode bs) 0 0 0 out = Done (out ++ bs)%list
  /\ (forall a, a2b_base64 (b64encode (a :: bs)) 0 0 0 out
                = Done (out ++ a :: bs)%list)
  /\ (forall a b, a2b_base64 (b64encode (a :: b :: bs)) 0 0 0 out
                  = Done (out ++ a :: b :: bs)%list).
Proof.
  revert out. induction bs as [|c bs IH]; intros out.
  - split; [|split].
    + cbn. now rewrite app_nil_r.
    + intros a. cbn [b64encode].
      rewrite <- (lor_0_r (N.shiftl (N.land (Byte.to_N a) 3) 4)).
      rewrite decode_first by reflexivity. reflexivity.
    + intros a b. cbn [b64encode].
      destruct (halves (Byte.to_N b) (bounded b)) as (H4 & _).
      rewrite decode_first by exact H4.
      rewrite <- (lor_0_r (N.shiftl (N.land (Byte.to_N b) 15) 2)).
      rewrite decode_second by reflexivity. cbn.
      now rewrite <- app_assoc.
  - destruct (IH out) as (_ & H1 & H2). split; [exact (H1 c)|].
    split; [intros a; exact (H2 a c)|].
    intros a b. cbn [b64encode].
    destruct (halves (Byte.to_N b) (bounded b)) as (H4 & _).
    destruct (halves (Byte.to_N c) (bounded c)) as (_ & _ & H6 & _).
    rewrite decode_first by exact H4.
    rewrite decode_second by exact H6.
    rewrite decode_third.
    destruct (IH (((out ++ [a]) ++ [b]) ++ [c])%list) as (H0 & _).
    rewrite H0. now rewrite <- !app_assoc.
Qed.

(** An encoding has only ASCII characters. *)
Lemma b64encode_ascii (bs : list byte) :
  all (fun c => (code c <? 128)%N) (b64encode bs) = true
  /\ (forall a, all (fun c => (code c <? 128)%N) (b64encode (a :: bs)) = true)
  /\ (forall a b,
        all (fun c => (code c <? 128)%N) (b64encode (a :: b :: bs)) = true).
Proof.
  induction bs as [|c bs IH].
  - split; [reflexivity|]. split.
    + intros a. cbn [b64encode all].
      destruct (first_byte (Byte.to_N a) 0 (bounded a) eq_refl)
        as (H0 & H1 & _). rewrite lor_0_r in H1.
      destruct (a2b_b2a _ H0) as (_ & _ & ->).
      destruct (a2b_b2a _ H1) as (_ & _ & ->). reflexivity.
    + intros a b. cbn [b64encode all].
      destruct (halves (Byte.to_N b) (bounded b)) as (H4 & _).
      destruct (first_byte (Byte.to_N a) _ (bounded a) H4) as (H0 & H1 & _).
      destruct (second_byte (Byte.to_N b) 0 (bounded b) eq_refl) as (H2 & _).
      rewrite lor_0_r in H2.
      destruct (a2b_b2a _ H0) as (_ & _ & ->).
      destruct (a2b_b2a _ H1) as (_ & _ & ->).
      destruct (a2b_b2a _ H2) as (_ & _ & ->). reflexivity.
  - destruct IH as (IH0 & H1 & H2). split; [exact (H1 c)|].
    split; [intros a; exact (H2 a c)|].
    intros a b. cbn [b64encode all].
    destruct (halves (Byte.to_N b) (bounded b)) as (H4 & _).
    destruct (halves (Byte.to_N c) (bounded c)) as (_ & _ & H6 & H63).
    destruct (first_byte (Byte.to_N a) _ (bounded a) H4) as (Ha0 & Ha1 & _).
    destruct (second_byte (Byte.to_N b) _ (bounded b) H6) as (Hb2 & _).
    destruct (a2b_b2a _ Ha0) as (_ & _ & ->).
    destruct (a2b_b2a _ Ha1) as (_ & _ & ->).
    destruct (a2b_b2a _ Hb2) as (_ & _ & ->).
    destruct (a2b_b2a _ H63) as (_ & _ & ->). exact IH0.
Qed.

Lemma b64decode_b64encode (bs : list byte) :
  b64decode (b64encode bs) = Done bs.
Proof.
  unfold b64decode. destruct (b64encode_ascii bs) as (-> & _).
  now destruct (a2b_base64_b64encode bs []) as (-> & _).
Qed.

(** X15. Round trip: decoding the Base64 text of any bytes gives the bytes
    back, with no error. *)
Theorem base64_round_trip (bs : list byte) :
  b64decode (b64encode bs) = Done bs.
Proof. apply b64decode_b64encode. Qed.

End Base64Proofs.

(* ================================================================== *)
(** ** The parser's names, and the dispatch of [execute_action] *)
(* ================================================================== *)

Module DispatchProofs.
Import Py Agent Spec Notions ParserProofs.

(** X1. A call whose name is none of the seven is rejected with the name in
    the diagnostic, whatever its arguments: the names are compared as
    they are written, case included. *)
Theorem unknown_name_rejected (n a : string) :
  n <> "" -> all is_word n = true -> all (Re.not_char ")") a = true ->
  among action_names n = false ->
  parse_action (call_text n a)
  = Raise (ActionParseError ("Unknown action: " ++ n)).
Proof.
  intros Hn Hw Ha Hk. unfold parse_action.
  rewrite search_call_text by assumption. cbn [Re.group nth Nat.sub].
  unfold among, action_names in Hk. cbn [existsb] in Hk.
  repeat (apply orb_false_elim in Hk as [?E Hk]).
  now rewrite E, E0, E1, E2, E3, E4, E5.
Qed.

Lemma unknown_name_rejected_witness :
  parse_action (call_text "click" "500, 300")
  = Raise (ActionParseError "Unknown action: click").
Proof.
  apply (unknown_name_rejected "click" "500, 300");
    [discriminate | reflexivity | reflexivity | reflexivity].
Defined.

(** X2. [Wait] and [Finished] written as calls are accepted with whatever
    stands between the parentheses, and the action carries none of it. *)
Theorem wait_finished_drop_arguments (n a : string) :
  n = "Wait" \/ n = "Finished" -> all (Re.not_char ")") a = true ->
  parse_action (call_text n a) = Return (mkAction n [] None).
Proof.
  intros [-> | ->] Ha; unfold parse_action;
    (rewrite search_call_text by (auto; discriminate)); reflexivity.
Qed.

Lemma wait_finished_drop_arguments_witness :
  parse_action (call_text "Finished" "500, abc, 'left'")
  = Return (mkAction "Finished" [] None).
Proof.
  apply (wait_finished_drop_arguments "Finished" "500, abc, 'left'");
    [now right | reflexivity].
Defined.

Section Dispatch.
Variable World : Type.
Variable browser : Browser World.

Lemma item_get (d : list (string * value)) (k : string) (w : World) :
  item World d k w =
  match get k d with
  | Some v => (Done v, w)
  | None => (Throw (repr k), w)
  end.
Proof. unfold item. now destruct (get k d). Qed.

(** What [execute_action] returns is [None] or a text that starts with
    the fixed words. *)
Lemma execute_action_result (action : Action) (w : World) :
  exists r w', execute_action World action browser w = (Done r, w')
    /\ (r = None \/ exists e, r = Some ("Action execution failed: " ++ e)).
Proof.
  unfold execute_action, try_except.
  destruct (bindM World _ _ w) as [[r|e] w'] eqn:E.
  - unfold bindM in E. destruct (_ w) as [[?|?] ?] in E; [|discriminate].
    injection E as <- <-. eexists _, _. split; [reflexivity | now left].
  - eexists _, _. split; [reflexivity | right; now exists e].
Qed.
Lemma execute_other (action : Action) (w : World) :
  among browser_names (name action) = false ->
  execute_action World action browser w = (Done None, w).
Proof.
  unfold among, browser_names. cbn [existsb]. intros Hk.
  repeat (apply orb_false_elim in Hk as [?E Hk]).
  unfold execute_action, try_except, bindM.
  now rewrite E, E0, E1, E2, E3.
Qed.

End Dispatch.

(** X3. [execute_action] makes one call for an action whose keys are there
    and reports what the call did. [Click] calls [click] with the values
    under [x] and [y], [Scroll] calls [scroll] with those under [x], [y]
    and [direction], [Type] calls [type_text] with the one under
    [content], [Press] calls [press_key] with the one under [key], and
    [Wait] calls [wait] with 1000. When the call returns the result is
    [None]; when it raises an exception [e] of the class [Exception] the
    result is [Action execution failed: ] followed by [str(e)], and
    nothing is raised. The world is left as the call left it. *)
Theorem execute_action_reports (World : Type) (browser : Browser World)
  (action : Action) (w : World) :
  (forall x y,
     name action = "Click" ->
     get "x" (args action) = Some x -> get "y" (args action) = Some y ->
     execute_action World action browser w
     = reported (click World browser x y w))
  /\ (forall x y d,
        name action = "Scroll" ->
        get "x" (args action) = Some x -> get "y" (args action) = Some y ->
        get "direction" (args action) = Some d ->
        execute_action World action browser w
        = reported (scroll World browser x y d w))
  /\ (forall c,
        name action = "Type" -> get "content" (args action) = Some c ->
        execute_action World action browser w
        = reported (type_text World browser c w))
  /\ (forall k,
        name action = "Press" -> get "key" (args action) = Some k ->
        execute_action World action browser w
        = reported (press_key World browser k w))
  /\ (name action = "Wait" ->
      execute_action World action browser w
      = reported (wait World browser 1000 w)).
Proof.
  repeat split; intros; unfold execute_action, try_except, bindM, reported;
    repeat match goal with
      | H : name action = _ |- _ => rewrite H; clear H
      end;
    cbn [String.eqb Ascii.eqb Bool.eqb]; unfold item;
    repeat match goal with
      | H : get _ (args action) = _ |- _ => rewrite H; clear H
      end;
    unfold ret;
    match goal with
    | |- context [click World browser ?x ?y w] =>
        now destruct (click World browser x y w) as [[[]|e] w']
    | |- context [scroll World browser ?x ?y ?d w] =>
        now destruct (scroll World browser x y d w) as [[[]|e] w']
    | |- context [type_text World browser ?c w] =>
        now destruct (type_text World browser c w) as [[[]|e] w']
    | |- context [press_key World browser ?k w] =>
        now destruct (press_key World browser k w) as [[[]|e] w']
    | |- context [wait World browser ?ms w] =>
        now destruct (wait World browser ms w) as [[[]|e] w']
    end.
Qed.

Lemma execute_action_reports_witness :
  execute_action call_log (click_action 500 300) broken_browser []
  = (Done (Some "Action execution failed: Browser error"), [])
  /\ execute_action call_log (click_action 500 300) mock_browser []
     = (Done None, [("click", [VInt 500; VInt 300])])
  /\ execute_action call_log (mkAction "Wait" [] None) mock_browser []
     = (Done None, [("wait", [])]).
Proof.
  split; [|split].
  - exact (proj1 (execute_action_reports call_log broken_browser
                    (click_action 500 300) [])
             (VInt 500) (VInt 300) eq_refl eq_refl eq_refl).
  - exact (proj1 (execute_action_reports call_log mock_browser
                    (click_action 500 300) [])
             (VInt 500) (VInt 300) eq_refl eq_refl eq_refl).
  - exact (proj2 (proj2 (proj2 (proj2
             (execute_action_reports call_log mock_browser
                (mkAction "Wait" [] None) [])))) eq_refl).
Defined.

(** X4. For a name outside [Click], [Scroll], [Type], [Press] and [Wait],
    [Finished], [CallUser] and [Error] among them, [execute_action]
    returns [None] and calls nothing. *)
Theorem execute_action_other_names (World : Type) (browser : Browser World)
  (action : Action) (w : World) :
  among browser_names (name action) = false ->
  execute_action World action browser w = (Done None, w).
Proof. apply execute_other. Qed.

Lemma execute_action_other_names_witness :
  execute_action call_log (mkAction "CallUser" [("question", VStr "Which one?")] None)
    broken_browser []
  = (Done None, []).
Proof.
  apply (execute_action_other_names call_log broken_browser
           (mkAction "CallUser" [("question", VStr "Which one?")] None) []).
  reflexivity.
Defined.

(** X5. A key that [execute_action] reads and [args] lacks: the [KeyError]
    comes back as the error text, with the key in quotes, and the browser
    is not called. *)
Theorem execute_action_missing_key (World : Type) (browser : Browser World)
  (action : Action) (k : string) (w : World) :
  first_missing (keys_read (name action)) (args action) = Some k ->
  execute_action World action browser w
  = (Done (Some ("Action execution failed: " ++ repr k)), w).
Proof.
  unfold keys_read, execute_action, try_except, bindM.
  destruct (name action =? "Click"); [|destruct (name action =? "Scroll");
    [|destruct (name action =? "Type"); [|destruct (name action =? "Press")]]];
    cbn [first_missing]; rewrite ?item_get;
    repeat match goal with
      | |- context [get ?key (args action)] =>
          destruct (get key (args action)); rewrite ?item_get
      end;
    try discriminate; intros [= <-]; reflexivity.
Qed.

Lemma execute_action_missing_key_witness :
  execute_action call_log (mkAction "Click" [("x", VInt 100)] None)
    mock_browser []
  = (Done (Some "Action execution failed: 'y'"), []).
Proof.
  apply (execute_action_missing_key call_log mock_browser
           (mkAction "Click" [("x", VInt 100)] None) "y" []).
  reflexivity.
Defined.

(** X6. Parser and dispatch fit: an action the parser returns has every key
    [execute_action] reads, so on a browser whose actions do not raise it
    executes without an error. *)
Theorem parsed_action_executes (World : Type) (browser : Browser World)
  (s : string) (a : Action) (w : World) :
  never_raises browser -> parse_action s = Return a ->
  exists w', execute_action World a browser w = (Done None, w').
Proof.
  intros (Hc & Hs & Ht & Hp & Hw) H.
  pose proof (parse_action_outcome s) as Hv. rewrite H in Hv.
  destruct a as [n d e]. unfold valid_action in Hv. cbn [name args error] in Hv.
  destruct e; [discriminate|].
  unfold execute_action, try_except, bindM. cbn [name args].
  destruct (n =? "Click").
  { destruct d as [|[kx [x|?]] [|[ky [y|?]] [|? ?]]]; try discriminate.
    apply andb_prop in Hv as [Hv _]. apply andb_prop in Hv as [Hv _].
    apply andb_prop in Hv as [Ex Ey].
    apply String.eqb_eq in Ex as ->, Ey as ->.
    rewrite !item_get. cbn.
    destruct (Hc (VInt x) (VInt y) w) as [w' ->]. now exists w'. }
  destruct (n =? "Scroll").
  { destruct d as [|[kx [x|?]] [|[ky [y|?]] [|[kd [?|dir]] [|? ?]]]];
      try discriminate.
    apply andb_prop in Hv as [Hv _]. apply andb_prop in Hv as [Hv Ed].
    apply andb_prop in Hv as [Ex Ey].
    apply String.eqb_eq in Ex as ->, Ey as ->, Ed as ->.
    rewrite !item_get. cbn.
    destruct (Hs (VInt x) (VInt y) (VStr dir) w) as [w' ->]. now exists w'. }
  destruct (n =? "Type").
  { destruct d as [|[k [?|t]] [|? ?]]; try discriminate.
    apply andb_prop in Hv as [Ek _]. apply String.eqb_eq in Ek as ->.
    rewrite !item_get. cbn.
    destruct (Ht (VStr t) w) as [w' ->]. now exists w'. }
  destruct (n =? "Press").
  { destruct d as [|[k [?|t]] [|? ?]]; try discriminate.
    apply andb_prop in Hv as [Ek _]. apply String.eqb_eq in Ek as ->.
    rewrite !item_get. cbn.
    destruct (Hp (VStr t) w) as [w' ->]. now exists w'. }
  destruct (n =? "Wait").
  { destruct (Hw 1000%Z w) as [w' ->]. now exists w'. }
  now exists w.
Qed.

Lemma parsed_action_executes_witness :
  exists w',
    execute_action call_log
      (mkAction "Scroll" [("x", VInt 500); ("y", VInt 500);
                          ("direction", VStr "down")] None)
      mock_browser []
    = (Done None, w').
Proof.
  apply (parsed_action_executes call_log mock_browser
           "Action: Scroll(500, 500, DOWN)"
           (mkAction "Scroll" [("x", VInt 500); ("y", VInt 500);
                               ("direction", VStr "down")] None) []).
  - repeat split; intros; eexists; reflexivity.
  - vm_compute. reflexivity.
Defined.

End DispatchProofs.

(* ================================================================== *)
(** ** What a run records, and what it asks the model *)
(* ================================================================== *)

Module RunProofs.
Import Py Agent Spec Notions ParserProofs TrimProofs LoopProofs DispatchProofs.

Lemma set_error_last (acts : list Action) (a : Action) (e : string) :
  set_error (acts ++ [a]) (List.length acts) e
  = (acts ++ [mkAction (name a) (args a) (Some e)])%list.
Proof.
  induction acts as [|x acts IH]; [reflexivity|].
  cbn [app List.length set_error]. now rewrite IH.
Qed.

Lemma valid_no_error (a : Action) : valid_action a = true -> error a = None.
Proof. unfold valid_action. now destruct (error a). Qed.

Section Turn.
Variable World : Type.
Variable self : WebNavAgent World.
Variable browser : Browser World.

(** Everything one completed turn does to the variables of the loop. *)
Lemma turn_outcome (l l' : Locals) (fl : flow) (w w' : World) :
  turn World self browser l w = (Done (fl, l'), w') ->
  exists response a' added,
    steps l' = (steps l ++ [mkStep (cur_state l) response
                              (List.length (actions l))])%list
    /\ actions l' = (actions l ++ [a'])%list
    /\ recorded_ok a' = true
    /\ (fl = Break <-> name a' = "Finished")
    /\ (if stays a' then cur_state l' = cur_state l
        else exists w1 w2,
               get_state World browser w1 = (Done (cur_state l'), w2))
    /\ conversation l'
       = (conversation l ++ mkMessage "assistant" (Text response) :: added)%list
    /\ match fl with
       | Break => added = []
       | Continue => exists m, added = [m] /\ role m = "user" /\ turn_message m
       end.
Proof.
  unfold turn, bindM.
  destruct (llm_fn World self _ w) as [[response|e] w1]; [|discriminate].
  pose proof (parse_action_outcome response) as Ho.
  destruct (parse_action response) as [a|[e|e|e]] eqn:Ep;
    [| |destruct Ho|destruct Ho].
  - unfold ret at 1. unfold deref. rewrite nth_middle.
    pose proof (valid_no_error a Ho) as Hne. rewrite Hne. cbn [truthy].
    assert (Hrec : recorded_ok a = true)
      by (unfold recorded_ok; now rewrite Hne).
    destruct (name a =? "Finished") eqn:Ef.
    { unfold ret. intros [= <- <- <-]. exists response, a, [].
      cbn [steps actions cur_state conversation].
      apply String.eqb_eq in Ef.
      split; [reflexivity|]. split; [reflexivity|]. split; [exact Hrec|].
      split; [tauto|]. split.
      - unfold stays. rewrite Ef. cbn. now rewrite orb_true_r.
      - split; reflexivity. }
    assert (Hnf : Continue = Break <-> name a = "Finished").
    { apply String.eqb_neq in Ef. split; [discriminate | tauto]. }
    destruct (name a =? "CallUser") eqn:Ec.
    { destruct (user_input_fn World self _ w1) as [[u|e] w2]; [|discriminate].
      unfold ret. intros [= <- <- <-].
      exists response, a, [user_text ("User response: " ++ u)].
      cbn [steps actions cur_state conversation].
      split; [reflexivity|]. split; [reflexivity|]. split; [exact Hrec|].
      split; [exact Hnf|]. split.
      - unfold stays. rewrite Ec. cbn. now rewrite orb_true_r.
      - split; [now rewrite <- app_assoc|].
        eexists. split; [reflexivity|]. split; [reflexivity|].
        left. eexists. reflexivity. }
    destruct (execute_action World a browser w1) as [[err|e] w2] eqn:Ex;
      [|discriminate].
    destruct (truthy err) eqn:Et.
    { unfold ret. intros [= <- <- <-].
      destruct err as [e|]; [|discriminate]. rewrite set_error_last.
      eexists response, _, [_]. cbn [steps actions cur_state conversation].
      split; [reflexivity|]. split; [reflexivity|]. split.
      { unfold recorded_ok. cbn [error name args].
        replace (mkAction (name a) (args a) None) with a
          by (destruct a; cbn in Hne; now subst).
        rewrite Ho. cbn [andb].
        destruct (among browser_names (name a)) eqn:Ea.
        2:{ rewrite execute_other in Ex by exact Ea. discriminate. }
        destruct (execute_action_result World browser a w1)
          as (r & w3 & Hr & [->|[e0 ->]]); rewrite Hr in Ex;
          [discriminate|]. injection Ex as <- _.
        cbn [startswith]. rewrite !Ascii.eqb_refl. cbn.
        now rewrite orb_true_r. }
      split; [exact Hnf|]. split.
      - unfold stays. cbn [error name]. now rewrite Et.
      - split; [now rewrite <- app_assoc|].
        eexists. split; [reflexivity|]. split; [reflexivity|].
        left. eexists. reflexivity. }
    destruct (wait World browser 3000 w2) as [[[]|e] w3]; [|discriminate].
    destruct (get_state World browser w3) as [[st|e] w4] eqn:Eg;
      [|discriminate].
    unfold ret. intros [= <- <- <-].
    exists response, a, [build_message st None].
    cbn [steps actions cur_state conversation].
    split; [reflexivity|]. split; [reflexivity|]. split; [exact Hrec|].
    split; [exact Hnf|]. split.
    + unfold stays. rewrite Hne, Ec, Ef. cbn [truthy orb]. eauto.
    + split; [now rewrite <- app_assoc|].
      eexists. split; [reflexivity|]. split; [reflexivity|].
      right. eexists _, _. reflexivity.
  - pose proof (diagnostic_truthy response e Ep) as Ht.
    unfold ret at 1. unfold deref. rewrite nth_middle. cbn [error].
    rewrite Ht. unfold ret. intros [= <- <- <-].
    eexists response, _, [_]. cbn [steps actions cur_state conversation].
    split; [reflexivity|]. split; [reflexivity|]. split.
    { unfold recorded_ok. cbn [error name args List.length Nat.eqb].
      rewrite Ho. reflexivity. }
    split; [split; discriminate|]. split.
    + unfold stays. cbn [error]. now rewrite Ht.
    + split; [now rewrite <- app_assoc|].
      eexists. split; [reflexivity|]. split; [reflexivity|].
      left. eexists. reflexivity.
Qed.
End Turn.


Lemma reads_more (acts more : list Action) (sts : list Step) :
  Forall (fun s => action s < List.length acts) sts ->
  map (read_step (acts ++ more)) sts = map (read_step acts) sts.
Proof.
  induction 1 as [|s sts Hs _ IH]; [reflexivity|].
  cbn [map]. rewrite IH. f_equal. unfold read_step, deref.
  now rewrite app_nth1.
Qed.

Lemma reads_snoc (acts : list Action) (sts : list Step)
  (st : BrowserState) (resp : string) (a : Action) :
  Forall (fun s => action s < List.length acts) sts ->
  map (read_step (acts ++ [a])) (sts ++ [mkStep st resp (List.length acts)])
  = (map (read_step acts) sts ++ [mkRecorded st resp a])%list
  /\ Forall (fun s => action s < List.length (acts ++ [a]))
       (sts ++ [mkStep st resp (List.length acts)]).
Proof.
  intros H. split.
  - rewrite map_app, reads_more by exact H. cbn [map]. unfold read_step, deref.
    cbn [state response action]. now rewrite nth_middle.
  - rewrite length_app. cbn [List.length]. apply Forall_app. split.
    + eapply Forall_impl; [|exact H]. cbn. intros; lia.
    + constructor; [cbn; lia | constructor].
Qed.

Section Loops.
Variable World : Type.
Variable self : WebNavAgent World.
Variable browser : Browser World.

(** The steps a loop of [n] turns adds, as the caller reads them. *)
Lemma loop_linked (n : nat) (l l' : Locals) (w w' : World) :
  loop World self browser n l w = (Done l', w') ->
  Forall (fun s => action s < List.length (actions l)) (steps l) ->
  exists new,
    map (read_step (actions l')) (steps l')
    = (map (read_step (actions l)) (steps l) ++ new)%list
    /\ linked browser (cur_state l) new
    /\ (List.length new = n
        \/ exists pre r, new = (pre ++ [r])%list
                         /\ name (r_action r) = "Finished"
                         /\ List.length new <= n).
Proof.
  revert l w. induction n as [|n IH]; intros l w.
  - cbn [loop]. unfold ret. intros [= <- <-] _. exists [].
    rewrite app_nil_r. cbn. auto.
  - rewrite loop_S.
    destruct (turn World self browser l w) as [[[fl l1]|e] w1] eqn:Et;
      [|discriminate].
    apply turn_outcome in Et
      as (resp & a & added & Hs & Ha & Hok & Hfl & Hst & _).
    cbn [fst snd]. intros H Hwf.
    destruct (reads_snoc (actions l) (steps l) (cur_state l) resp a Hwf)
      as [Hr Hwf1]. rewrite <- Hs, <- Ha in Hr, Hwf1.
    destruct fl.
    + apply IH in H as (new & Hn & Hl & Hlen); [|exact Hwf1].
      exists (mkRecorded (cur_state l) resp a :: new).
      split; [rewrite Hn, Hr, <- app_assoc; reflexivity|]. split.
      * cbn [linked r_state r_action]. split; [reflexivity|].
        split; [exact Hok|].
        destruct new as [|r' rest]; [cbn; auto|].
        cbn [linked] in Hl. destruct Hl as (Hr' & Hl). rewrite Hr'.
        split; [split|].
        -- intros Hf. apply Hfl in Hf. discriminate.
        -- exact Hst.
        -- cbn [linked]. split; [exact Hr' | exact Hl].
      * destruct Hlen as [Hlen | (pre & r & -> & Hf & Hlen)].
        -- left. cbn. now rewrite Hlen.
        -- right. exists (mkRecorded (cur_state l) resp a :: pre), r.
           split; [reflexivity|]. split; [exact Hf|]. cbn in *. lia.
    + injection H as <- <-.
      exists [mkRecorded (cur_state l) resp a].
      split; [exact Hr|]. split.
      * cbn. auto.
      * right. exists [], (mkRecorded (cur_state l) resp a).
        split; [reflexivity|]. split; [now apply Hfl | cbn; lia].
Qed.

(** The trace a run returns is built from the state [start] gave. *)
Lemma run_linked (task : string) (w w' : World) (trace : list Recorded) :
  run World self browser task w = (Done trace, w') ->
  exists st w1,
    start World browser (start_url World self) w = (Done st, w1)
    /\ linked browser st trace
    /\ (List.length trace = Z.to_nat (max_steps World self)
        \/ exists pre r, trace = (pre ++ [r])%list
                         /\ name (r_action r) = "Finished").
Proof.
  unfold run, with_browser, bindM.
  destruct (start World browser _ w) as [[st|e] w1].
  2:{ destruct (close World browser w1) as [[?|?] ?]; discriminate. }
  destruct (loop World self browser _ _ w1) as [[l|e] w2] eqn:El.
  2:{ destruct (close World browser w2) as [[?|?] ?]; discriminate. }
  apply loop_linked in El as (new & Hn & Hl & Hlen); [|constructor].
  cbn [steps actions map app cur_state] in Hn, Hl.
  unfold ret. destruct (close World browser w2) as [[?|?] ?]; [|discriminate].
  intros [= <- <-]. exists st, w1. rewrite Hn.
  split; [reflexivity|]. split; [exact Hl|].
  destruct Hlen as [Hlen | (pre & r & -> & Hf & _)]; [now left|].
  right. now exists pre, r.
Qed.

Lemma linked_tail (s : BrowserState) (pre : list Recorded) (r : Recorded)
  (rest : list Recorded) :
  linked browser s (pre ++ r :: rest) -> linked browser (r_state r) (r :: rest).
Proof.
  revert s. induction pre as [|p pre IH]; intros s.
  - cbn [app linked]. intros (<- & H). split; [reflexivity | exact H].
  - cbn [app linked]. intros (_ & _ & _ & H). exact (IH _ H).
Qed.

Lemma linked_states (P : BrowserState -> Prop) (s : BrowserState)
  (trace : list Recorded) :
  (forall w1 w2 st, get_state World browser w1 = (Done st, w2) -> P st) ->
  P s -> linked browser s trace -> Forall (fun r => P (r_state r)) trace.
Proof.
  intros Hg. revert s. induction trace as [|r rest IH]; intros s Hs;
    [constructor|].
  cbn [linked]. intros (Hr & _ & Hn & Hl). constructor; [now rewrite Hr|].
  refine (IH _ _ Hl). destruct rest as [|r' rest']; [exact Hs|].
  destruct Hn as (_ & Hn). destruct (stays (r_action r)).
  - cbn. rewrite Hn. exact Hs.
  - destruct Hn as (w1 & w2 & Hn). exact (Hg _ _ _ Hn).
Qed.
End Loops.

(** X7. Every action in the trace of a run is the [Error] placeholder with
    one of the parser's diagnostics, or an action of the closed set with
    valid arguments, carrying no error or, for the five the browser
    performs, the text of its failed execution. *)
Theorem run_records_checked_actions (World : Type) (self : WebNavAgent World)
  (browser : Browser World) (task : string) (w w' : World)
  (trace : list Recorded) :
  run World self browser task w = (Done trace, w') ->
  Forall (fun r => recorded_ok (r_action r) = true) trace.
Proof.
  intros H. apply run_linked in H as (st & w1 & _ & Hl & _).
  revert st Hl. induction trace as [|r rest IH]; intros st; [constructor|].
  cbn [linked]. intros (_ & Hok & _ & Hl). constructor; [exact Hok|].
  exact (IH _ Hl).
Qed.

Lemma run_records_checked_actions_witness :
  Forall (fun r => recorded_ok (r_action r) = true)
    [ mkRecorded (page_state 0) "no action here"
        (mkAction "Error" []
           (Some "No valid action found in response. Expected format: Action: Name(args)"));
      mkRecorded (page_state 0) "Action: Click(500,300)"
        (mkAction "Click" [("x", VInt 500); ("y", VInt 300)]
           (Some "Action execution failed: click failed"));
      mkRecorded (page_state 0) "Action: Finished()"
        (mkAction "Finished" [] None) ].
Proof.
  apply (run_records_checked_actions world (canned_agent 10)
           (flaky_browser "click failed") "Book a flight"
           (mkWorld ["no action here"; "Action: Click(500,300)";
                     "Action: Finished()"] 0)
           (mkWorld [] 0)).
  vm_compute. reflexivity.
Defined.

(** X8. [Finished] ends the run: it can only be the action of the last step,
    and a trace shorter than the budget of turns ends with it. *)
Theorem run_stops_at_finished (World : Type) (self : WebNavAgent World)
  (browser : Browser World) (task : string) (w w' : World)
  (trace : list Recorded) :
  run World self browser task w = (Done trace, w') ->
  (forall pre r post, trace = (pre ++ r :: post)%list ->
     name (r_action r) = "Finished" -> post = [])
  /\ (List.length trace = Z.to_nat (max_steps World self)
      \/ exists pre r, trace = (pre ++ [r])%list
                       /\ r_action r = mkAction "Finished" [] None).
Proof.
  intros H. apply run_linked in H as (st & w1 & _ & Hl & Hlen). split.
  - intros pre r post -> Hf. apply linked_tail in Hl.
    destruct post as [|r' post]; [reflexivity|].
    cbn [linked] in Hl. now destruct Hl as (_ & _ & (Hn & _) & _).
  - destruct Hlen as [Hlen | (pre & r & -> & Hf)]; [now left|].
    right. exists pre, r. split; [reflexivity|].
    apply linked_tail in Hl. cbn [linked] in Hl.
    destruct Hl as (_ & Hok & _). revert Hok. unfold recorded_ok.
    destruct (r_action r) as [n d e]. cbn [name args error] in *. subst n.
    destruct e as [e|].
    + change ("Finished" =? "Error") with false.
      change (among browser_names "Finished") with false.
      cbn [andb orb]. rewrite andb_false_r. discriminate.
    + unfold valid_action. cbn [name args error].
      change ("Finished" =? "Click") with false.
      change ("Finished" =? "Scroll") with false.
      change ("Finished" =? "Type") with false.
      change ("Finished" =? "Press") with false.
      change ("Finished" =? "CallUser") with false.
      change (("Finished" =? "Wait") || ("Finished" =? "Finished")) with true.
      cbv iota. destruct d; [reflexivity | discriminate].
Qed.

Lemma run_stops_at_finished_witness :
  let trace :=
    [ mkRecorded (page_state 0) "Action: Wait()" (mkAction "Wait" [] None);
      mkRecorded (page_state 0) "Action: Finished()"
        (mkAction "Finished" [] None) ] in
  (forall pre r post, trace = (pre ++ r :: post)%list ->
     name (r_action r) = "Finished" -> post = [])
  /\ (List.length trace = Z.to_nat 10
      \/ exists pre r, trace = (pre ++ [r])%list
                       /\ r_action r = mkAction "Finished" [] None).
Proof.
  apply (run_stops_at_finished world (canned_agent 10)
           (flaky_browser "click failed") "Book a flight"
           (mkWorld ["Action: Wait()"; "Action: Finished()";
                     "Action: Click(1, 2)"] 0)
           (mkWorld ["Action: Click(1, 2)"] 0)).
  vm_compute. reflexivity.
Defined.

(** X9. The state a step holds. The first step holds what [start] returned;
    after a step that carries an error, asks the user or finishes, the
    next step holds the same state; after any other step it holds a state
    that [get_state] returned. *)
Theorem run_refreshes_state (World : Type) (self : WebNavAgent World)
  (browser : Browser World) (task : string) (w w' : World)
  (trace : list Recorded) :
  run World self browser task w = (Done trace, w') ->
  (exists st w1,
     start World browser (start_url World self) w = (Done st, w1)
     /\ forall r rest, trace = r :: rest -> r_state r = st)
  /\ forall pre r r' post, trace = (pre ++ r :: r' :: post)%list ->
       if stays (r_action r) then r_state r' = r_state r
       else exists w1 w2,
              get_state World browser w1 = (Done (r_state r'), w2).
Proof.
  intros H. apply run_linked in H as (st & w1 & Hs & Hl & _). split.
  - exists st, w1. split; [exact Hs|]. intros r rest ->.
    cbn [linked] in Hl. now destruct Hl.
  - intros pre r r' post ->. apply linked_tail in Hl.
    cbn [linked] in Hl. destruct Hl as (_ & _ & (_ & Hst) & _).
    exact Hst.
Qed.

Lemma run_refreshes_state_witness :
  let trace :=
    [ mkRecorded (page_state 0) "Action: Click(1, 2)"
        (mkAction "Click" [("x", VInt 1); ("y", VInt 2)]
           (Some "Action execution failed: click failed"));
      mkRecorded (page_state 0) "Action: Type(Paris)"
        (mkAction "Type" [("content", VStr "Paris")] None);
      mkRecorded (page_state 1) "Action: Finished()"
        (mkAction "Finished" [] None) ] in
  (exists st w1,
     start world (flaky_browser "click failed") "https://example.com/"
       (mkWorld ["Action: Click(1, 2)"; "Action: Type(Paris)";
                 "Action: Finished()"] 0) = (Done st, w1)
     /\ forall r rest, trace = r :: rest -> r_state r = st)
  /\ forall pre r r' post, trace = (pre ++ r :: r' :: post)%list ->
       if stays (r_action r) then r_state r' = r_state r
       else exists w1 w2,
              get_state world (flaky_browser "click failed") w1
              = (Done (r_state r'), w2).
Proof.
  apply (run_refreshes_state world (canned_agent 10)
           (flaky_browser "click failed") "Book a flight"
           (mkWorld ["Action: Click(1, 2)"; "Action: Type(Paris)";
                     "Action: Finished()"] 0)
           (mkWorld [] 1)).
  vm_compute. reflexivity.
Defined.


(** X10. A budget of no turn: the run starts the browser, closes it and
    returns the empty trace, and the model is not asked. *)
Theorem run_without_budget (World : Type) (self : WebNavAgent World)
  (browser : Browser World) (task : string) (w : World) :
  (max_steps World self <= 0)%Z ->
  run World self browser task w
  = with_browser World browser
      (bindM World (start World browser (start_url World self))
         (fun _ => ret World [])) w.
Proof.
  intros H. unfold run, with_browser, bindM, ret.
  replace (Z.to_nat (max_steps World self)) with 0 by lia.
  cbn [loop]. unfold ret.
  destruct (start World browser _ w) as [[st|e] w1]; reflexivity.
Qed.

Lemma run_without_budget_witness :
  run world (canned_agent (-3)) (flaky_browser "click failed") "Book a flight"
    (mkWorld ["Action: Finished()"] 0)
  = (Done [], mkWorld ["Action: Finished()"] 0).
Proof.
  apply (run_without_budget world (canned_agent (-3))
           (flaky_browser "click failed") "Book a flight"
           (mkWorld ["Action: Finished()"] 0)).
  cbn. lia.
Defined.

(** X11. A browser that fails to start: no turn is played, [close] still
    runs, and the exception of [start] goes on to the caller unless
    [close] raises one of its own. *)
Theorem run_start_failure (World : Type) (self : WebNavAgent World)
  (browser : Browser World) (task e : string) (w w1 : World) :
  start World browser (start_url World self) w = (Throw e, w1) ->
  run World self browser task w
  = match close World browser w1 with
    | (Done _, w2) => (Throw e, w2)
    | (Throw e', w2) => (Throw e', w2)
    end.
Proof.
  intros H. unfold run, with_browser, bindM. now rewrite H.
Qed.

Lemma run_start_failure_witness :
  run call_log finishing_agent offline_browser "Book a flight" []
  = (Throw "net::ERR_NAME_NOT_RESOLVED", [("close", [])]).
Proof.
  exact (run_start_failure call_log finishing_agent offline_browser
           "Book a flight" "net::ERR_NAME_NOT_RESOLVED" [] [] eq_refl).
Defined.


Section Survival.
Variable World : Type.
Variable self : WebNavAgent World.
Variable browser : Browser World.

(** What holds of the world while the browser is in use. *)
Variable Inv : World -> Prop.

Hypothesis llm_returns : forall request w, Inv w ->
  exists r w', llm_fn World self request w = (Done r, w') /\ Inv w'.
Hypothesis user_returns : forall prompt w, Inv w ->
  exists r w', user_input_fn World self prompt w = (Done r, w') /\ Inv w'.
Hypothesis get_state_returns : forall w, Inv w ->
  exists st w', get_state World browser w = (Done st, w') /\ Inv w'.
Hypothesis wait_returns : forall ms w, Inv w ->
  exists w', wait World browser ms w = (Done tt, w') /\ Inv w'.
Hypothesis click_keeps : forall x y w, Inv w ->
  Inv (snd (click World browser x y w)).
Hypothesis scroll_keeps : forall x y d w, Inv w ->
  Inv (snd (scroll World browser x y d w)).
Hypothesis type_text_keeps : forall c w, Inv w ->
  Inv (snd (type_text World browser c w)).
Hypothesis press_key_keeps : forall k w, Inv w ->
  Inv (snd (press_key World browser k w)).

Lemma execute_action_keeps (a : Action) (w : World) :
  Inv w ->
  exists r w', execute_action World a browser w = (Done r, w') /\ Inv w'.
Proof.
  intros Hi.
  destruct (execute_action_result World browser a w) as (r & w' & E & _).
  exists r, w'. split; [exact E|].
  replace w' with (snd (execute_action World a browser w)) by now rewrite E.
  clear E. unfold execute_action, try_except, bindM.
  destruct (name a =? "Click").
  { rewrite item_get. destruct (get "x" (args a)) as [x|]; [|exact Hi].
    rewrite item_get. destruct (get "y" (args a)) as [y|]; [|exact Hi].
    pose proof (click_keeps x y w Hi) as Hk.
    now destruct (click World browser x y w) as [[[]|?] ?]. }
  destruct (name a =? "Scroll").
  { rewrite item_get. destruct (get "x" (args a)) as [x|]; [|exact Hi].
    rewrite item_get. destruct (get "y" (args a)) as [y|]; [|exact Hi].
    rewrite item_get. destruct (get "direction" (args a)) as [d|]; [|exact Hi].
    pose proof (scroll_keeps x y d w Hi) as Hk.
    now destruct (scroll World browser x y d w) as [[[]|?] ?]. }
  destruct (name a =? "Type").
  { rewrite item_get. destruct (get "content" (args a)) as [c|]; [|exact Hi].
    pose proof (type_text_keeps c w Hi) as Hk.
    now destruct (type_text World browser c w) as [[[]|?] ?]. }
  destruct (name a =? "Press").
  { rewrite item_get. destruct (get "key" (args a)) as [k|]; [|exact Hi].
    pose proof (press_key_keeps k w Hi) as Hk.
    now destruct (press_key World browser k w) as [[[]|?] ?]. }
  destruct (name a =? "Wait"); [|exact Hi].
  destruct (wait_returns 1000%Z w Hi) as (w1 & -> & Hk). exact Hk.
Qed.

Lemma turn_returns (l : Locals) (w : World) :
  Inv w ->
  exists fl l' w', turn World self browser l w = (Done (fl, l'), w') /\ Inv w'.
Proof.
  intros Hi. unfold turn, bindM.
  destruct (llm_returns (trim_images (conversation l) (max_images World self))
              w Hi) as (response & w1 & -> & H1).
  pose proof (parse_action_outcome response) as Ho.
  destruct (parse_action response) as [a|[e|e|e]];
    [| |destruct Ho|destruct Ho]; unfold ret at 1.
  all: repeat first
    [ match goal with
      | |- context [if ?c then _ else _] => destruct c
      end
    | match goal with
      | |- context [user_input_fn World self ?p ?w0] =>
          let H := fresh in
          assert (H : Inv w0) by assumption;
          destruct (user_returns p w0 H) as (? & ? & -> & ?)
      end
    | match goal with
      | |- context [execute_action World ?a browser ?w0] =>
          let H := fresh in
          assert (H : Inv w0) by assumption;
          destruct (execute_action_keeps a w0 H) as (? & ? & -> & ?)
      end
    | match goal with
      | |- context [wait World browser ?ms ?w0] =>
          let H := fresh in
          assert (H : Inv w0) by assumption;
          destruct (wait_returns ms w0 H) as (? & -> & ?)
      end
    | match goal with
      | |- context [get_state World browser ?w0] =>
          let H := fresh in
          assert (H : Inv w0) by assumption;
          destruct (get_state_returns w0 H) as (? & ? & -> & ?)
      end ];
    unfold ret; eauto.
Qed.

Lemma loop_returns (n : nat) (l : Locals) (w : World) :
  Inv w ->
  exists l' w', loop World self browser n l w = (Done l', w') /\ Inv w'.
Proof.
  revert l w. induction n as [|n IH]; intros l w Hi.
  - cbn. unfold ret. eauto.
  - rewrite loop_S.
    destruct (turn_returns l w Hi) as (fl & l1 & w1 & -> & H1).
    cbn [fst snd]. destruct fl; [now apply IH | eauto].
Qed.

(** A run returns when the outside world does. *)
Lemma run_returns (task : string) (w : World) :
  (forall url w, exists st w',
     start World browser url w = (Done st, w') /\ Inv w') ->
  (forall w, Inv w -> exists w', close World browser w = (Done tt, w')) ->
  exists trace w', run World self browser task w = (Done trace, w').
Proof.
  intros Hs Hc. unfold run, with_browser, bindM.
  destruct (Hs (start_url World self) w) as (st & w1 & -> & H1).
  destruct (loop_returns (Z.to_nat (max_steps World self))
              (mkLocals st
                 ([mkMessage "system" (Text SYSTEM_PROMPT)]
                    ++ [build_message st (Some task)]) [] []) w1 H1)
    as (l & w2 & -> & H2).
  unfold ret. destruct (Hc w2 H2) as (w3 & ->). eauto.
Qed.
End Survival.

(** X27. No reply of the model and no failing browser action makes a run
    raise. When the model, the user's input and the browser's [start],
    [get_state], [wait] and [close] return in every world, the run returns
    a trace, whatever the model answers and whether or not [click],
    [scroll], [type_text] and [press_key] raise. *)
Theorem run_survives (World : Type) (self : WebNavAgent World)
  (browser : Browser World) (task : string) :
  (forall request, safe (llm_fn World self request)) ->
  (forall prompt, safe (user_input_fn World self prompt)) ->
  (forall url, safe (start World browser url)) ->
  safe (get_state World browser) ->
  (forall ms, safe (wait World browser ms)) ->
  safe (close World browser) ->
  safe (run World self browser task).
Proof.
  intros Hl Hu Hs Hg Hw Hc w.
  apply (run_returns World self browser (fun _ => True)); auto.
  - intros request w0 _. destruct (Hl request w0) as (r & w' & E). eauto.
  - intros prompt w0 _. destruct (Hu prompt w0) as (r & w' & E). eauto.
  - intros w0 _. destruct (Hg w0) as (r & w' & E). eauto.
  - intros ms w0 _. destruct (Hw ms w0) as ([] & w' & E). eauto.
  - intros url w0. destruct (Hs url w0) as (r & w' & E). eauto.
  - intros w0 _. destruct (Hc w0) as ([] & w' & E). eauto.
Qed.

Lemma run_survives_witness :
  safe (run call_log clicking_agent broken_browser "Book a flight").
Proof.
  apply (run_survives call_log clicking_agent broken_browser "Book a flight");
    intros; intros w; eexists; eexists; reflexivity.
Defined.

End RunProofs.

(* ================================================================== *)
(** ** The requests of a run *)
(* ================================================================== *)

Module RequestProofs.
Import Py Agent Spec Notions TrimProofs LoopProofs RunProofs.

Lemma build_message_stripped (st : BrowserState) (task : option string) :
  has_image (build_message st task) = true
  /\ exists items,
       stripped (build_message st task) = [mkMessage "user" (Parts items)].
Proof.
  destruct task as [t|]; [destruct t as [|c t]|]; cbn;
    (split; [reflexivity | eexists; reflexivity]).
Qed.

Lemma turn_message_stripped (msg : Message) :
  turn_message msg -> has_image msg = true ->
  exists t, stripped msg = [t] /\ role t = role msg.
Proof.
  intros [[s Hs] | (st & task & ->)] Hi.
  - unfold has_image, user_list in Hi. rewrite Hs in Hi.
    now destruct (role msg =? "user").
  - destruct (build_message_stripped st task) as (_ & items & ->).
    eexists. split; [reflexivity|]. reflexivity.
Qed.

Lemma strip_oldest_roles (m : nat) (conv : list Message) :
  Forall turn_message conv ->
  map role (strip_oldest m conv) = map role conv.
Proof.
  intros H. revert m. induction H as [|msg rest Hm _ IH]; intros m;
    [now destruct m|].
  cbn [strip_oldest]. destruct (has_image msg) eqn:Hi.
  - destruct m as [|m']; [reflexivity|].
    destruct (turn_message_stripped msg Hm Hi) as (t & -> & Hr).
    cbn [app map]. now rewrite Hr, IH.
  - cbn [map]. now rewrite IH.
Qed.

Lemma trim_images_roles (conv : list Message) (k : Z) :
  Forall turn_message conv ->
  map role (trim_images conv k) = map role conv.
Proof.
  intros H. rewrite trim_images_strip_oldest.
  destruct (_ <=? _)%Z; [reflexivity | now apply strip_oldest_roles].
Qed.

Lemma trim_images_head (first : Message) (rest : list Message) (k : Z) :
  has_image first = false ->
  exists rest', trim_images (first :: rest) k = first :: rest'.
Proof.
  intros H. rewrite trim_images_strip_oldest.
  destruct (_ <=? _)%Z; [now exists rest|].
  cbn [strip_oldest]. rewrite H. eexists. reflexivity.
Qed.

Lemma trim_images_count (conv : list Message) (k : Z) :
  (1 <= k)%Z ->
  (len (image_messages (trim_images conv k)) <= k)%Z.
Proof.
  intros Hk. unfold len.
  destruct (Z.le_gt_cases (Z.of_nat (List.length (image_messages conv))) k)
    as [Hfit|Hover].
  - now rewrite trim_images_fits.
  - rewrite trim_images_over by lia.
    rewrite image_messages_strip_oldest, length_skipn. lia.
Qed.

Lemma last_role (conv : list Message) (d : Message) :
  role (last conv d) = last (map role conv) (role d).
Proof.
  induction conv as [|m [|m' rest] IH]; [reflexivity | reflexivity|].
  exact IH.
Qed.

(** What the loop keeps true of its conversation between turns. *)
Lemma request_ok_trim (rest : list Message) (k : Z) :
  let conv := mkMessage "system" (Text SYSTEM_PROMPT) :: rest in
  Forall turn_message conv ->
  role (last conv (mkMessage "" (Text ""))) = "user" ->
  request_ok k (trim_images conv k) = true.
Proof.
  intros conv Hall Hlast. unfold request_ok.
  destruct (trim_images_head (mkMessage "system" (Text SYSTEM_PROMPT)) rest k
              eq_refl) as [rest' E].
  fold conv in E. rewrite E at 1. cbn [role msg_content].
  rewrite String.eqb_refl. change ("system" =? "system") with true.
  rewrite last_role, trim_images_roles, <- last_role, Hlast by exact Hall.
  change ("user" =? "user") with true. cbn [andb].
  destruct (Z.ltb_spec k 1); [reflexivity|].
  apply Z.leb_le, trim_images_count. lia.
Qed.

Section Checked.
Variable World : Type.
Variable self : WebNavAgent World.
Variable browser : Browser World.

Lemma turn_checked (l : Locals) (rest : list Message) (w : World) :
  conversation l = mkMessage "system" (Text SYSTEM_PROMPT) :: rest ->
  Forall turn_message (conversation l) ->
  role (last (conversation l) (mkMessage "" (Text ""))) = "user" ->
  turn World (checked self) browser l w = turn World self browser l w.
Proof.
  intros E Hall Hlast. unfold turn.
  cbn [checked llm_fn max_images user_input_fn].
  rewrite E in *. now rewrite request_ok_trim.
Qed.

Lemma loop_checked (n : nat) (l : Locals) (rest : list Message) (w : World) :
  conversation l = mkMessage "system" (Text SYSTEM_PROMPT) :: rest ->
  Forall turn_message (conversation l) ->
  role (last (conversation l) (mkMessage "" (Text ""))) = "user" ->
  loop World (checked self) browser n l w = loop World self browser n l w.
Proof.
  revert l rest w. induction n as [|n IH]; intros l rest w E Hall Hlast;
    [reflexivity|].
  rewrite !loop_S, (turn_checked l rest w E Hall Hlast).
  destruct (turn World self browser l w) as [[[fl l1]|e] w1] eqn:Et;
    [|reflexivity].
  cbn [fst snd]. destruct fl; [|reflexivity].
  apply turn_outcome in Et
    as (resp & a & added & _ & _ & _ & _ & _ & Hc & m & -> & Hr & Hm).
  apply (IH l1 (rest ++ [mkMessage "assistant" (Text resp); m])%list).
  - rewrite Hc, E. reflexivity.
  - rewrite Hc. apply Forall_app. split; [exact Hall|].
    constructor; [left; eexists; reflexivity|]. constructor; [exact Hm|].
    constructor.
  - rewrite Hc.
    change (mkMessage "assistant" (Text resp) :: [m])
      with ([mkMessage "assistant" (Text resp)] ++ [m])%list.
    now rewrite app_assoc, last_last.
Qed.
End Checked.

(** X12. Every request of a run to the model starts with the system prompt,
    ends with a user message and, for a budget of one image or more,
    holds no more image-bearing messages than the budget: an assertion
    of this on each request never fails, so it changes no run. *)
Theorem run_requests_checked (World : Type) (self : WebNavAgent World)
  (browser : Browser World) (task : string) (w : World) :
  run World (checked self) browser task w = run World self browser task w.
Proof.
  unfold run, with_browser, bindM.
  cbn [checked start_url max_steps].
  destruct (start World browser _ w) as [[st|e] w1]; [|reflexivity].
  erewrite loop_checked; [reflexivity | reflexivity | |].
  - cbn [conversation app]. constructor; [left; eexists; reflexivity|].
    constructor; [|constructor]. right. eexists _, _. reflexivity.
  - reflexivity.
Qed.

(** X13. Trimming never drops a message of a run: when every message is plain
    text or was made by [build_message], the trimmed conversation has the
    same number of messages, with the same roles in the same order. *)
Theorem trim_images_keeps_turns (conv : list Message) (k : Z) :
  Forall turn_message conv ->
  map role (trim_images conv k) = map role conv
  /\ List.length (trim_images conv k) = List.length conv.
Proof.
  intros H. pose proof (trim_images_roles conv k H) as E.
  split; [exact E|]. now rewrite <- (length_map role), E, length_map.
Qed.

Lemma trim_images_keeps_turns_witness :
  let conv := [ mkMessage "system" (Text "System prompt");
                build_message (page_state 0) (Some "Book a flight");
                mkMessage "assistant" (Text "Action: Wait()");
                build_message (page_state 1) None ] in
  map role (trim_images conv 1) = map role conv
  /\ List.length (trim_images conv 1) = List.length conv.
Proof.
  intros conv. apply (trim_images_keeps_turns conv 1).
  apply Forall_cons; [left; eexists; reflexivity|].
  apply Forall_cons;
    [right; exists (page_state 0), (Some "Book a flight"); reflexivity|].
  apply Forall_cons; [left; eexists; reflexivity|].
  apply Forall_cons; [right; exists (page_state 1), None; reflexivity|].
  apply Forall_nil.
Defined.

(** X14. A negative budget: [trim_images] strips the oldest [-k] image-bearing
    messages, all of them when there are fewer, and keeps the images of
    the others. *)
Theorem trim_images_negative_budget (conv : list Message) (k : Z) :
  (k < 0)%Z ->
  let n := List.length (image_messages conv) in
  trim_images conv k = strip_oldest (Nat.min (Z.to_nat (- k)) n) conv
  /\ image_messages (trim_images conv k)
     = skipn (Z.to_nat (- k)) (image_messages conv).
Proof.
  intros Hk n.
  assert (E : trim_images conv k
              = strip_oldest (Nat.min (Z.to_nat (- k)) n) conv).
  { rewrite trim_images_strip_oldest. fold n.
    destruct (Z.leb_spec (Z.of_nat n) k); [lia|].
    destruct (Z.ltb_spec (- k) 0); [lia|]. f_equal. lia. }
  split; [exact E|]. rewrite E, image_messages_strip_oldest. fold n.
  destruct (Nat.le_ge_cases (Z.to_nat (- k)) n) as [Hle|Hge].
  - now rewrite Nat.min_l.
  - rewrite Nat.min_r by exact Hge. unfold n.
    now rewrite !skipn_all2.
Qed.

Lemma trim_images_negative_budget_witness :
  let conv := [image_message "URL: page1"; image_message "URL: page2";
               image_message "URL: page3"] in
  trim_images conv (-1)
  = strip_oldest (Nat.min (Z.to_nat (- (-1))) 3) conv
  /\ image_messages (trim_images conv (-1))
     = skipn (Z.to_nat (- (-1))) (image_messages conv).
Proof.
  intros conv. apply (trim_images_negative_budget conv (-1)). lia.
Defined.

End RequestProofs.
(* ================================================================== *)
(** ** The [Browser] class *)
(* ================================================================== *)

Module BrowserProofs.
Import Py Agent Spec Notions Base64 BrowserPy DispatchProofs.

Section AnyPlaywright.
Variable Ext : Type.
Variable to_pixel : value -> Z -> res Z.
Variable pw : Playwright Ext.

Lemma page_unset (o : BrowserObject) (e : Ext) :
  _page o = false ->
  page Ext (o, e) = (Throw "Browser not started. Call start() first.", (o, e)).
Proof. intros H. unfold page, bindM, self. cbn. now rewrite H. Qed.

Lemma page_set (o : BrowserObject) (e : Ext) :
  _page o = true -> page Ext (o, e) = (Done tt, (o, e)).
Proof. intros H. unfold page, bindM, self. cbn. now rewrite H. Qed.

Lemma get_state_encoded (w w' : World Ext) (st : BrowserState) :
  get_state Ext pw w = (Done st, w') ->
  exists bytes, screenshot_b64 st = b64encode bytes.
Proof.
  destruct w as [o e]. unfold get_state, bindM.
  destruct (page Ext (o, e)) as [[[]|?] [o1 e1]]; [|discriminate].
  unfold call at 1. cbn [fst snd].
  destruct (page_screenshot Ext pw e1) as [[bytes|?] e2]; [|discriminate].
  destruct (page Ext (o1, e2)) as [[[]|?] [o3 e3]]; [|discriminate].
  unfold call. cbn [fst snd].
  destruct (page_url Ext pw e3) as [[u|?] e4]; [|discriminate].
  unfold ret. intros [= <- _]. now exists bytes.
Qed.

Lemma start_encoded (url : string) (w w' : World Ext) (st : BrowserState) :
  start Ext pw url w = (Done st, w') ->
  exists bytes, screenshot_b64 st = b64encode bytes.
Proof.
  unfold start, bindM.
  repeat match goal with
    | |- context [match ?m ?x with _ => _ end] =>
        match type of (m x) with
        | (res _ * World Ext)%type =>
            destruct (m x) as [[?|?] ?]; [|discriminate]
        end
    end.
  apply get_state_encoded.
Qed.
End AnyPlaywright.


(** X16. A [Browser] that was not started: [get_state] raises the
    [RuntimeError], and [execute_action] turns every action for the
    browser into an error text without a call to Playwright; for [Type],
    [Press] and [Wait] with their keys the text is that of the
    [RuntimeError]. *)
Theorem unstarted_browser_refuses (Ext : Type) (to_pixel : value -> Z -> res Z)
  (pw : Playwright Ext) (o : BrowserObject) (e : Ext) (a : Action) :
  _page o = false ->
  among browser_names (name a) = true ->
  get_state Ext pw (o, e)
  = (Throw "Browser not started. Call start() first.", (o, e))
  /\ exists m,
       execute_action (World Ext) a (browser Ext to_pixel pw) (o, e)
       = (Done (Some ("Action execution failed: " ++ m)), (o, e))
       /\ (among ["Type"; "Press"; "Wait"] (name a) = true ->
           first_missing (keys_read (name a)) (args a) = None ->
           m = "Browser not started. Call start() first.").
Proof.
  intros Hp Hn. split.
  { unfold get_state, bindM. now rewrite page_unset. }
  destruct a as [n d err]. cbn [name args] in *.
  unfold among, browser_names in Hn. cbn [existsb] in Hn.
  unfold execute_action, try_except, bindM.
  cbn [browser Agent.click Agent.scroll Agent.type_text Agent.press_key
       Agent.wait name args].
  destruct (n =? "Click") eqn:E1.
  { apply String.eqb_eq in E1. subst n.
    rewrite !item_get.
    destruct (get "x" d) as [x|];
      [|eexists; split; [reflexivity | discriminate]].
    rewrite !item_get.
    destruct (get "y" d) as [y|];
      [|eexists; split; [reflexivity | discriminate]].
    unfold click, bindM, self, pure. cbn [fst snd].
    destruct (to_pixel x _);
      [|eexists; split; [reflexivity | discriminate]].
    destruct (to_pixel y _);
      [|eexists; split; [reflexivity | discriminate]].
    rewrite page_unset by exact Hp.
    eexists; split; [reflexivity | discriminate]. }
  destruct (n =? "Scroll") eqn:E2.
  { apply String.eqb_eq in E2. subst n.
    rewrite !item_get.
    destruct (get "x" d) as [x|];
      [|eexists; split; [reflexivity | discriminate]].
    rewrite !item_get.
    destruct (get "y" d) as [y|];
      [|eexists; split; [reflexivity | discriminate]].
    rewrite !item_get.
    destruct (get "direction" d) as [dir|];
      [|eexists; split; [reflexivity | discriminate]].
    unfold scroll, bindM, self, pure. cbn [fst snd].
    destruct (to_pixel x _);
      [|eexists; split; [reflexivity | discriminate]].
    destruct (to_pixel y _);
      [|eexists; split; [reflexivity | discriminate]].
    rewrite page_unset by exact Hp.
    eexists; split; [reflexivity | discriminate]. }
  destruct (n =? "Type") eqn:E3.
  { apply String.eqb_eq in E3. subst n.
    rewrite !item_get. unfold keys_read. cbn [String.eqb Ascii.eqb Bool.eqb].
    cbn [first_missing].
    destruct (get "content" d) as [c|];
      [|eexists; split; [reflexivity | discriminate]].
    unfold type_text, bindM. rewrite page_unset by exact Hp.
    eexists; split; [reflexivity | reflexivity]. }
  destruct (n =? "Press") eqn:E4.
  { apply String.eqb_eq in E4. subst n.
    rewrite !item_get. unfold keys_read. cbn [String.eqb Ascii.eqb Bool.eqb].
    cbn [first_missing].
    destruct (get "key" d) as [c|];
      [|eexists; split; [reflexivity | discriminate]].
    unfold press_key, bindM. rewrite page_unset by exact Hp.
    eexists; split; [reflexivity | reflexivity]. }
  destruct (n =? "Wait") eqn:E5; [|discriminate].
  unfold wait, bindM. rewrite page_unset by exact Hp.
  eexists; split; [reflexivity | reflexivity].
Qed.

Lemma unstarted_browser_refuses_witness :
  get_state pw_world logging (init true 1280 720, mkPwWorld [] (fun _ => None) [] "")
  = (Throw "Browser not started. Call start() first.",
     (init true 1280 720, mkPwWorld [] (fun _ => None) [] ""))
  /\ exists m,
       execute_action (World pw_world)
         (mkAction "Press" [("key", VStr "Enter")] None)
         (browser pw_world small_pixel logging)
         (init true 1280 720, mkPwWorld [] (fun _ => None) [] "")
       = (Done (Some ("Action execution failed: " ++ m)),
          (init true 1280 720, mkPwWorld [] (fun _ => None) [] ""))
       /\ (among ["Type"; "Press"; "Wait"] "Press" = true ->
           first_missing (keys_read "Press") [("key", VStr "Enter")] = None ->
           m = "Browser not started. Call start() first.").
Proof.
  apply (unstarted_browser_refuses pw_world small_pixel logging
           (init true 1280 720) (mkPwWorld [] (fun _ => None) [] "")
           (mkAction "Press" [("key", VStr "Enter")] None));
    reflexivity.
Defined.

(** X17. [close] leaves the object as it is, the handles still set; and when
    closing the page raises, neither the browser is closed nor Playwright
    stopped. *)
Theorem close_stops_at_failure (Ext : Type) (pw : Playwright Ext)
  (o : BrowserObject) (e e' : Ext) (err : string) :
  fst (snd (close Ext pw (o, e))) = o
  /\ (_page o = true -> page_close Ext pw e = (Throw err, e') ->
      close Ext pw (o, e) = (Throw err, (o, e'))).
Proof.
  split.
  - unfold close, bindM, self, call, ret. cbn [fst snd].
    destruct (_page o), (_browser o), (_playwright o); cbn [fst snd];
      repeat match goal with
        | |- context [match ?m ?x with _ => _ end] =>
            match type of (m x) with
            | (res _ * Ext)%type => destruct (m x) as [[?|?] ?]; cbn [fst snd]
            end
        end; reflexivity.
  - intros Hp Hc. unfold close, bindM, self, call. cbn [fst snd].
    rewrite Hp. cbn [fst snd]. now rewrite Hc.
Qed.

Lemma close_stops_at_failure_witness :
  let o := mkBrowserObject 1280 720 true true true true in
  let plan := fun c => match c with
                       | PageClose => Some "Target closed"
                       | _ => None
                       end in
  close pw_world logging (o, mkPwWorld [] plan [] "")
  = (Throw "Target closed", (o, mkPwWorld [PageClose] plan [] "")).
Proof.
  intros o plan.
  apply (proj2 (close_stops_at_failure pw_world logging o
                  (mkPwWorld [] plan [] "") (mkPwWorld [PageClose] plan [] "")
                  "Target closed")); reflexivity.
Defined.

(** X18. Starting inside the [with] block, on a Playwright that logs: the
    calls of [start] are made in order up to the first that fails, and on
    the way out the page is closed when [new_page] succeeded, the browser
    when [launch] succeeded, and Playwright is stopped when it started,
    in this order. *)
Theorem start_failure_releases (to_pixel : value -> Z -> res Z)
  (h : bool) (width height : Z) (url : string) (w : pw_world) :
  fails w PageClose = None -> fails w BrowserClose = None ->
  fails w Stop = None ->
  let k := succeeding (fails w) (start_calls h width height url) in
  calls (snd (snd (with_browser (World pw_world)
                     (browser pw_world to_pixel logging)
                     (Agent.start (World pw_world)
                        (browser pw_world to_pixel logging) url)
                     (init h width height, w))))
  = (calls w ++ firstn (S k) (start_calls h width height url)
       ++ (if (3 <=? k)%nat then [PageClose] else [])
       ++ (if (2 <=? k)%nat then [BrowserClose] else [])
       ++ (if (1 <=? k)%nat then [Stop] else []))%list.
Proof.
  intros Hc1 Hc2 Hc3. destruct w as [log plan scr addr]. cbn [fails] in *.
  unfold with_browser. cbn [browser Agent.start Agent.close].
  unfold start, close, get_state, page, bindM, self, assign, call, ret, throw.
  cbn [fst snd logging sync_playwright_start chromium_launch new_page
       page_goto page_screenshot page_url page_close browser_close
       playwright_stop init _page _browser _playwright _headless
       viewport_width viewport_height].
  unfold logged_call. cbn [fails calls screen address fst snd].
  unfold start_calls. cbn [succeeding].
  destruct (plan Start) eqn:E1; [|destruct (plan (Launch h)) eqn:E2;
    [|destruct (plan (NewPage width height)) eqn:E3;
      [|destruct (plan (Goto url)) eqn:E4;
        [|destruct (plan Screenshot) eqn:E5;
          [|destruct (plan Url) eqn:E6]]]]];
    repeat (cbn; repeat match goal with
                        | H : plan _ = _ |- _ => rewrite H
                        end);
    first [reflexivity | rewrite <- !app_assoc; reflexivity].
Qed.

Lemma start_failure_releases_witness :
  let plan := fun c => match c with
                       | NewPage _ _ => Some "Protocol error"
                       | _ => None
                       end in
  calls (snd (snd (with_browser (World pw_world)
                     (browser pw_world small_pixel logging)
                     (Agent.start (World pw_world)
                        (browser pw_world small_pixel logging) "about:blank")
                     (init true 1280 720, mkPwWorld [] plan [] ""))))
  = [Start; Launch true; NewPage 1280 720; BrowserClose; Stop].
Proof.
  intros plan.
  exact (start_failure_releases small_pixel true 1280 720 "about:blank"
           (mkPwWorld [] plan [] "") eq_refl eq_refl eq_refl).
Defined.

(** Look the keys of a literal dict up. *)
Ltac lookup_items :=
  repeat (cbv beta; rewrite item_get; cbn [get];
          repeat match goal with
            | |- context [String.eqb (String ?c ?r) ?b] =>
                let v := eval vm_compute in (String.eqb (String c r) b) in
                change (String.eqb (String c r) b) with v
            end;
          cbv iota).

Lemma parsed_click (s : string) (a : Action) :
  parse_action s = Return a -> name a = "Click" ->
  exists x y, a = mkAction "Click" [("x", VInt x); ("y", VInt y)] None
              /\ in_range x = true /\ in_range y = true.
Proof.
  intros H Hn. pose proof (ParserProofs.parse_action_outcome s) as Hv.
  rewrite H in Hv. destruct a as [n d e]. cbn [name] in Hn. subst n.
  unfold valid_action in Hv. cbn [name args error] in Hv.
  destruct e; [discriminate|].
  change ("Click" =? "Click") with true in Hv. cbv iota in Hv.
  destruct d as [|[kx [x|?]] [|[ky [y|?]] [|? ?]]]; try discriminate.
  apply andb_prop in Hv as [Hv Hy]. apply andb_prop in Hv as [Hv Hx].
  apply andb_prop in Hv as [Ex Ey].
  apply String.eqb_eq in Ex as ->, Ey as ->. now exists x, y.
Qed.

Lemma parsed_scroll (s : string) (a : Action) :
  parse_action s = Return a -> name a = "Scroll" ->
  exists x y d,
    a = mkAction "Scroll"
          [("x", VInt x); ("y", VInt y); ("direction", VStr d)] None
    /\ (d = "up" \/ d = "down").
Proof.
  intros H Hn. pose proof (ParserProofs.parse_action_outcome s) as Hv.
  rewrite H in Hv. destruct a as [n d e]. cbn [name] in Hn. subst n.
  unfold valid_action in Hv. cbn [name args error] in Hv.
  destruct e; [discriminate|].
  change ("Scroll" =? "Click") with false in Hv.
  change ("Scroll" =? "Scroll") with true in Hv. cbv iota in Hv.
  destruct d as [|[kx [x|?]] [|[ky [y|?]] [|[kd [?|dir]] [|? ?]]]];
    try discriminate.
  apply andb_prop in Hv as [Hv Hd]. apply andb_prop in Hv as [Hv Ed].
  apply andb_prop in Hv as [Ex Ey].
  apply String.eqb_eq in Ex as ->, Ey as ->, Ed as ->.
  exists x, y, dir. split; [reflexivity|].
  apply orb_prop in Hd as [Hd|Hd]; apply String.eqb_eq in Hd; auto.
Qed.

(** X19. A click the parser accepted lands in the viewport. On a started
    [Browser], when the pixel of a coordinate from 0 to 1000 is the
    product with the extent over 1000, rounded down, the action makes
    the one call [mouse.click], at a pixel from 0 to the width and from 0
    to the height, both ends included. *)
Theorem parsed_click_in_viewport (to_pixel : value -> Z -> res Z)
  (s : string) (a : Action) (o : BrowserObject) (w : pw_world) :
  parse_action s = Return a -> name a = "Click" ->
  _page o = true ->
  (0 <= viewport_width o)%Z -> (0 <= viewport_height o)%Z ->
  (forall z extent, in_range z = true ->
     extent = viewport_width o \/ extent = viewport_height o ->
     to_pixel (VInt z) extent = Done (z * extent / 1000)%Z) ->
  (forall x y, fails w (MouseClick x y) = None) ->
  exists px py,
    execute_action (World pw_world) a (browser pw_world to_pixel logging) (o, w)
    = (Done None,
       (o, mkPwWorld (calls w ++ [MouseClick px py]) (fails w) (screen w)
             (address w)))
    /\ (0 <= px <= viewport_width o)%Z /\ (0 <= py <= viewport_height o)%Z.
Proof.
  intros H Hn Hp Hw Hh Hpx Hok.
  destruct (parsed_click s a H Hn) as (x & y & -> & Hx & Hy).
  exists (x * viewport_width o / 1000)%Z, (y * viewport_height o / 1000)%Z.
  split.
  - unfold execute_action, try_except, bindM. cbn [name args browser Agent.click].
    change ("Click" =? "Click") with true. cbv iota. lookup_items.
    unfold click, bindM, self, pure. cbn [fst snd].
    rewrite (Hpx x _ Hx (or_introl eq_refl)).
    rewrite (Hpx y _ Hy (or_intror eq_refl)).
    rewrite page_set by exact Hp.
    unfold call. cbn [fst snd logging mouse_click]. unfold logged_call.
    now rewrite Hok.
  - unfold in_range in Hx, Hy.
    apply andb_prop in Hx as [Hx0 Hx1]. apply andb_prop in Hy as [Hy0 Hy1].
    apply Z.leb_le in Hx0, Hx1, Hy0, Hy1.
    split; (split; [apply Z.div_pos; nia|]).
    + apply Z.div_le_upper_bound; nia.
    + apply Z.div_le_upper_bound; nia.
Qed.

Lemma parsed_click_in_viewport_witness :
  exists px py,
    execute_action (World pw_world) (click_action 1000 500)
      (browser pw_world small_pixel logging)
      (mkBrowserObject 1280 720 true true true true,
       mkPwWorld [] (fun _ => None) [] "")
    = (Done None,
       (mkBrowserObject 1280 720 true true true true,
        mkPwWorld ([] ++ [MouseClick px py]) (fun _ => None) [] ""))
    /\ (0 <= px <= 1280)%Z /\ (0 <= py <= 720)%Z.
Proof.
  apply (parsed_click_in_viewport small_pixel "Action: Click(1000, 500)"
           (click_action 1000 500)
           (mkBrowserObject 1280 720 true true true true)
           (mkPwWorld [] (fun _ => None) [] ""));
    try reflexivity; try (cbn; lia).
  intros z extent Hz He. unfold small_pixel. f_equal.
  unfold in_range in Hz. apply andb_prop in Hz as [Hz _].
  apply Z.leb_le in Hz. apply Z.quot_div_nonneg; [|lia].
  cbn in He. destruct He as [-> | ->]; lia.
Defined.

(** X20. A scroll the parser accepted, on a started [Browser] whose
    Playwright calls succeed. Its coordinates are any integers, and the
    pixels are computed first, that of [x] before that of [y]. When both
    computations return, the pointer is moved to the pixel of the
    position and the wheel turns by 300 down for [down] and 300 up for
    [up], never sideways, and the result is [None]. When one of them
    raises, as the division does for an integer too large for a float,
    Playwright is not called and the result is the text of the first
    exception after [Action execution failed: ]. *)
Theorem parsed_scroll_wheel (to_pixel : value -> Z -> res Z)
  (s : string) (a : Action) (o : BrowserObject) (w : pw_world)
  (x y : value) :
  parse_action s = Return a -> name a = "Scroll" ->
  _page o = true ->
  get "x" (args a) = Some x -> get "y" (args a) = Some y ->
  (forall c, fails w c = None) ->
  exists d,
    get "direction" (args a) = Some (VStr d) /\ (d = "up" \/ d = "down")
    /\ execute_action (World pw_world) a (browser pw_world to_pixel logging)
         (o, w)
       = match to_pixel x (viewport_width o) with
         | Throw e => (Done (Some ("Action execution failed: " ++ e)), (o, w))
         | Done px =>
             match to_pixel y (viewport_height o) with
             | Throw e =>
                 (Done (Some ("Action execution failed: " ++ e)), (o, w))
             | Done py =>
                 (Done None,
                  (o, mkPwWorld
                        (calls w
                           ++ [MouseMove px py;
                               MouseWheel 0
                                 (if d =? "up" then -300 else 300)])
                        (fails w) (screen w) (address w)))
             end
         end.
Proof.
  intros H Hn Hp Gx Gy Hok.
  destruct (parsed_scroll s a H Hn) as (x0 & y0 & d & -> & Hd).
  cbn in Gx, Gy. injection Gx as <-. injection Gy as <-.
  exists d. split; [reflexivity|]. split; [exact Hd|].
  unfold execute_action, try_except, bindM.
  cbn [name args browser Agent.scroll].
  change ("Scroll" =? "Click") with false.
  change ("Scroll" =? "Scroll") with true. cbv iota. lookup_items.
  unfold scroll, bindM, self, pure. cbn [fst snd].
  destruct (to_pixel (VInt x0) (viewport_width o)) as [px|e]; [|reflexivity].
  destruct (to_pixel (VInt y0) (viewport_height o)) as [py|e];
    [|reflexivity].
  rewrite page_set by exact Hp.
  unfold call at 1. cbn [fst snd logging mouse_move]. unfold logged_call at 1.
  rewrite Hok. rewrite page_set by exact Hp.
  unfold call. cbn [fst snd logging mouse_wheel]. unfold logged_call.
  cbn [fails calls screen address]. rewrite Hok. cbn [is_up].
  now rewrite <- app_assoc.
Qed.

Lemma parsed_scroll_wheel_witness :
  exists d,
    get "direction" [("x", VInt 500); ("y", VInt 250);
                     ("direction", VStr "up")] = Some (VStr d)
    /\ (d = "up" \/ d = "down")
    /\ execute_action (World pw_world)
         (mkAction "Scroll" [("x", VInt 500); ("y", VInt 250);
                             ("direction", VStr "up")] None)
         (browser pw_world small_pixel logging)
         (mkBrowserObject 1280 720 true true true true,
          mkPwWorld [] (fun _ => None) [] "")
       = (Done None,
          (mkBrowserObject 1280 720 true true true true,
           mkPwWorld
             ([] ++ [MouseMove 640 180;
                     MouseWheel 0 (if d =? "up" then -300 else 300)])
             (fun _ => None) [] "")).
Proof.
  apply (parsed_scroll_wheel small_pixel "Action: Scroll(500, 250, 'UP')"
           (mkAction "Scroll" [("x", VInt 500); ("y", VInt 250);
                               ("direction", VStr "up")] None)
           (mkBrowserObject 1280 720 true true true true)
           (mkPwWorld [] (fun _ => None) [] "")
           (VInt 500) (VInt 250));
    reflexivity.
Defined.

End BrowserProofs.
(* ================================================================== *)
(** ** The files of [save_run] *)
(* ================================================================== *)

Module FilesProofs.
Import Py Agent Spec SaveResults Base64 Files PyFacts.

(** The digits of a file name are the decimal numeral of the step. *)
Lemma fmt_02d_value (i : nat) : int_body (fmt_02d i) = Some (Z.of_nat i).
Proof.
  unfold fmt_02d. destruct (Nat.ltb_spec i 10) as [H|H].
  - do 10 (destruct i as [|i]; [reflexivity|]). lia.
  - destruct (str_abs (Z.of_nat i)) as (_ & _ & _ & Hv).
    now rewrite Z.abs_eq in Hv by lia.
Qed.

(** [int] reads a file name of at most 4300 digits back. *)
Lemma fmt_02d_int (i : nat) :
  String.length (fmt_02d i) <= 4300 -> int (fmt_02d i) = Return (Z.of_nat i).
Proof.
  unfold fmt_02d. destruct (Nat.ltb_spec i 10) as [H|H].
  - intros _. do 10 (destruct i as [|i]; [reflexivity|]). lia.
  - intros Hl. apply int_str. unfold numeral_digits.
    now rewrite Z.abs_eq by lia.
Qed.

Lemma fmt_02d_inj (i j : nat) : fmt_02d i = fmt_02d j -> i = j.
Proof.
  intros H. pose proof (fmt_02d_value i) as Hi.
  rewrite H, fmt_02d_value in Hi. injection Hi. lia.
Qed.

Lemma append_inv_head (p a b : string) : p ++ a = p ++ b -> a = b.
Proof.
  induction p as [|c p IH]; [auto|]. cbn. intros [= H]. auto.
Qed.

Lemma length_append (a b : string) :
  String.length (a ++ b) = String.length a + String.length b.
Proof. induction a as [|c a IH]; cbn; [reflexivity | now rewrite IH]. Qed.

Lemma append_inv_tail (a b t : string) : a ++ t = b ++ t -> a = b.
Proof.
  revert b. induction a as [|c a IH]; intros [|d b] H.
  - reflexivity.
  - apply (f_equal String.length) in H. cbn in H.
    rewrite length_append in H. lia.
  - apply (f_equal String.length) in H. cbn in H.
    rewrite length_append in H. lia.
  - cbn in H. injection H as -> H. f_equal. auto.
Qed.

(** Joining a name that does not start with the separator puts it after
    the directory. *)
Lemma path_join_name (dir b : string) :
  startswith "/" b = false ->
  path_join dir b
  = (if is_empty dir || ends_with_sep dir then dir else dir ++ "/") ++ b.
Proof.
  intros H. unfold path_join. rewrite H.
  destruct (is_empty dir || ends_with_sep dir); [reflexivity|].
  now rewrite StringFacts.append_assoc.
Qed.

Lemma screenshot_path_inj (run_dir : string) (i j : nat) :
  screenshot_path run_dir i = screenshot_path run_dir j -> i = j.
Proof.
  unfold screenshot_path. rewrite !path_join_name by reflexivity.
  intros H. apply append_inv_head in H.
  apply (append_inv_head "step_") in H.
  apply append_inv_tail in H. now apply fmt_02d_inj.
Qed.

(** X21. The digits of a file name are the decimal numeral of the step
    number, which [int] reads back when they are at most 4300, so two
    steps of a run never share a screenshot file, neither in the
    directory nor in the records of the summary. *)
Theorem screenshot_files_distinct (run_dir : string) (i j : nat)
  (s s' : Recorded) :
  i <> j ->
  (String.length (fmt_02d i) <= 4300 ->
   int (fmt_02d i) = Return (Z.of_nat i))
  /\ screenshot_path run_dir i <> screenshot_path run_dir j
  /\ screenshot (step_record i s) <> screenshot (step_record j s').
Proof.
  intros Hne. split; [apply fmt_02d_int|]. split.
  - intros H. now apply screenshot_path_inj in H.
  - cbn [step_record screenshot]. intros H.
    apply (append_inv_head "screenshots/step_") in H.
    apply append_inv_tail in H. now apply fmt_02d_inj in H.
Qed.

Lemma screenshot_files_distinct_witness :
  int (fmt_02d 9) = Return 9%Z
  /\ screenshot_path "results/20240131_120000" 9
     <> screenshot_path "results/20240131_120000" 10
  /\ screenshot (step_record 9 reasoned_step)
     <> screenshot (step_record 10 reasoned_step).
Proof.
  destruct (screenshot_files_distinct "results/20240131_120000" 9 10
              reasoned_step reasoned_step) as (Hi & Hp & Hr); [lia|].
  split; [apply Hi; vm_compute; lia|]. split; [exact Hp | exact Hr].
Defined.

(** The loop of [save_run] on screenshots that decode. *)
Lemma save_steps_decoded (run_dir : string) (steps : list Recorded)
  (shots : list (list byte)) :
  Forall2 (fun s b => b64decode (screenshot_b64 (r_state s)) = Done b)
    steps shots ->
  forall (i : nat) (w : fs_world),
  save_steps fs_world recording (path_join run_dir "screenshots") i steps w
  = (Done (step_records_from i steps),
     mkFsWorld (clock w) (ops w ++ saved_from run_dir i shots)).
Proof.
  induction 1 as [|s b steps shots Hs _ IH]; intros i w.
  - cbn. rewrite app_nil_r. now destruct w.
  - cbn [save_steps saved_from step_records_from]. unfold bindM at 1.
    unfold with_open. cbn [recording open_file close_file write_file].
    rewrite Hs. unfold record_op at 1 2 3. cbn [clock ops].
    unfold bindM. rewrite IH. cbn [clock ops]. unfold ret. f_equal. f_equal.
    unfold saved, screenshot_path. now rewrite <- !app_assoc.
Qed.

(** The loop of [save_run] up to a screenshot that does not decode. *)
Lemma save_steps_undecoded (run_dir : string) (pre post : list Recorded)
  (shots : list (list byte)) (s : Recorded) (e : string) :
  Forall2 (fun s b => b64decode (screenshot_b64 (r_state s)) = Done b)
    pre shots ->
  b64decode (screenshot_b64 (r_state s)) = Throw e ->
  forall (i : nat) (w : fs_world),
  save_steps fs_world recording (path_join run_dir "screenshots") i
    (pre ++ s :: post) w
  = (Throw e,
     mkFsWorld (clock w)
       (ops w ++ saved_from run_dir i shots
          ++ [Open (screenshot_path run_dir (i + List.length pre));
              Close (screenshot_path run_dir (i + List.length pre))])).
Proof.
  intros H He. induction H as [|s0 b pre shots Hs _ IH]; intros i w.
  - cbn [app save_steps saved_from List.length]. unfold bindM at 1.
    unfold with_open. cbn [recording open_file close_file write_file].
    rewrite He. unfold record_op, throw. cbn [clock ops].
    rewrite Nat.add_0_r. unfold screenshot_path.
    now rewrite <- !app_assoc.
  - cbn [app save_steps saved_from List.length]. unfold bindM at 1.
    unfold with_open. cbn [recording open_file close_file write_file].
    rewrite Hs. unfold record_op at 1 2 3. cbn [clock ops].
    unfold bindM. rewrite IH. cbn [clock ops].
    replace (S i + List.length pre) with (i + S (List.length pre)) by lia.
    f_equal. f_equal. unfold saved, screenshot_path.
    now rewrite <- !app_assoc.
Qed.

Lemma save_run_files_decoded (task out_dir : string) (steps : list Recorded)
  (shots : list (list byte)) (w : fs_world) :
  Forall2 (fun s b => b64decode (screenshot_b64 (r_state s)) = Done b)
    steps shots ->
  let run_dir := path_join out_dir (clock w) in
  save_run_files fs_world recording task steps out_dir w
  = (Done run_dir,
     mkFsWorld (clock w)
       (ops w ++ Makedirs (path_join run_dir "screenshots")
          :: saved_from run_dir 0 shots
          ++ [Open (path_join run_dir "summary.json");
              Write (path_join run_dir "summary.json")
                (Json (save_run task steps (clock w)));
              Close (path_join run_dir "summary.json")])).
Proof.
  intros H run_dir. unfold save_run_files, bindM.
  cbn [recording utc_now makedirs]. unfold record_op at 1. cbn [clock ops].
  rewrite (save_steps_decoded _ _ _ H). cbn [clock ops].
  unfold with_open. cbn [recording open_file close_file write_file].
  unfold record_op, ret. cbn [clock ops]. unfold save_run. fold run_dir.
  f_equal. f_equal. rewrite <- !app_assoc. cbn [app]. reflexivity.
Qed.

(** X22. [save_run] on steps whose screenshots all decode: it makes the
    screenshot directory, writes one file of decoded bytes for each step,
    in order, then the summary, every file opened and closed around its
    one write, and returns the run directory. *)
Theorem save_run_writes (task out_dir : string) (steps : list Recorded)
  (shots : list (list byte)) (w : fs_world) :
  Forall2 (fun s b => b64decode (screenshot_b64 (r_state s)) = Done b)
    steps shots ->
  let run_dir := path_join out_dir (clock w) in
  save_run_files fs_world recording task steps out_dir w
  = (Done run_dir,
     mkFsWorld (clock w)
       (ops w ++ Makedirs (path_join run_dir "screenshots")
          :: saved_from run_dir 0 shots
          ++ [Open (path_join run_dir "summary.json");
              Write (path_join run_dir "summary.json")
                (Json (save_run task steps (clock w)));
              Close (path_join run_dir "summary.json")])).
Proof. apply save_run_files_decoded. Qed.

Lemma save_run_writes_witness :
  save_run_files fs_world recording "Book a flight" [reasoned_step] "results"
    (mkFsWorld "20240131_120000" [])
  = (Done "results/20240131_120000",
     mkFsWorld "20240131_120000"
       [ Makedirs "results/20240131_120000/screenshots";
         Open "results/20240131_120000/screenshots/step_00.png";
         Write "results/20240131_120000/screenshots/step_00.png"
           (Bytes (map byte_of [137; 80; 78; 71; 13; 10; 26; 10]%N));
         Close "results/20240131_120000/screenshots/step_00.png";
         Open "results/20240131_120000/summary.json";
         Write "results/20240131_120000/summary.json"
           (Json (save_run "Book a flight" [reasoned_step] "20240131_120000"));
         Close "results/20240131_120000/summary.json" ]).
Proof.
  apply (save_run_writes "Book a flight" "results" [reasoned_step]
           [map byte_of [137; 80; 78; 71; 13; 10; 26; 10]%N]
           (mkFsWorld "20240131_120000" [])).
  repeat constructor.
Defined.

(** X23. A screenshot that does not decode: [save_run] raises the error of the
    decoding. The steps before it have their files, the file of the step
    itself is left empty, opened and closed without a write, and neither
    a later file nor the summary is written. *)
Theorem save_run_bad_screenshot (task out_dir : string)
  (pre post : list Recorded) (shots : list (list byte)) (s : Recorded)
  (e : string) (w : fs_world) :
  Forall2 (fun s b => b64decode (screenshot_b64 (r_state s)) = Done b)
    pre shots ->
  b64decode (screenshot_b64 (r_state s)) = Throw e ->
  let run_dir := path_join out_dir (clock w) in
  save_run_files fs_world recording task (pre ++ s :: post) out_dir w
  = (Throw e,
     mkFsWorld (clock w)
       (ops w ++ Makedirs (path_join run_dir "screenshots")
          :: saved_from run_dir 0 shots
          ++ [Open (screenshot_path run_dir (List.length pre));
              Close (screenshot_path run_dir (List.length pre))])).
Proof.
  intros H He run_dir. unfold save_run_files, bindM.
  cbn [recording utc_now makedirs]. unfold record_op at 1. cbn [clock ops].
  rewrite (save_steps_undecoded _ _ _ _ _ _ H He). cbn [clock ops].
  fold run_dir. f_equal. f_equal. rewrite <- !app_assoc. reflexivity.
Qed.

Lemma save_run_bad_screenshot_witness :
  save_run_files fs_world recording "Book a flight"
    ([] ++ mkRecorded (mkBrowserState "abcde" "https://example.com")
             "Action: Wait()" (mkAction "Wait" [] None)
        :: [reasoned_step])
    "results" (mkFsWorld "20240131_120000" [])
  = (Throw "Invalid base64-encoded string: number of data characters (5) cannot be 1 more than a multiple of 4",
     mkFsWorld "20240131_120000"
       [ Makedirs "results/20240131_120000/screenshots";
         Open "results/20240131_120000/screenshots/step_00.png";
         Close "results/20240131_120000/screenshots/step_00.png" ]).
Proof.
  apply (save_run_bad_screenshot "Book a flight" "results" [] [reasoned_step]
           []
           (mkRecorded (mkBrowserState "abcde" "https://example.com")
              "Action: Wait()" (mkAction "Wait" [] None))
           _ (mkFsWorld "20240131_120000" [])).
  - constructor.
  - reflexivity.
Defined.

End FilesProofs.

(* ================================================================== *)
(** ** The scripts: a run that is saved, and the model played by hand *)
(* ================================================================== *)

Module ProgramProofs.
Import Py Agent Spec Notions SaveResults Base64 BrowserPy Files Program.
Import Base64Proofs RunProofs BrowserProofs FilesProofs.

Lemma Forall_exists_Forall2 {A B} (R : A -> B -> Prop) (l : list A) :
  Forall (fun a => exists b, R a b) l -> exists l', Forall2 R l l'.
Proof.
  induction 1 as [|a l [b Hb] _ [l' IH]].
  - exists []. constructor.
  - exists (b :: l'). now constructor.
Qed.

(** The screenshots in a trace of a run with the [Browser] class are
    Base64 texts of bytes. *)
Lemma run_browser_encoded (Ext : Type) (to_pixel : value -> Z -> res Z)
  (pw : Playwright Ext) (agent : WebNavAgent Ext) (task : string)
  (e e' : Ext) (trace : list Recorded) :
  run_browser Ext to_pixel pw agent task e = (Done trace, e') ->
  Forall (fun r => exists bytes, screenshot_b64 (r_state r) = b64encode bytes)
    trace.
Proof.
  unfold run_browser.
  destruct (run _ _ _ task _) as [r w] eqn:Er. intros [= -> _].
  apply run_linked in Er as (st & w1 & Hs & Hl & _).
  eapply linked_states
    with (P := fun st => exists bytes, screenshot_b64 st = b64encode bytes);
    [| |exact Hl].
  - intros w2 w3 st'. apply get_state_encoded.
  - exact (start_encoded Ext pw _ _ _ _ Hs).
Qed.

(** X24. What run.py composes: every trace a run with the [Browser] class
    returns is saved without a decoding error, and the screenshot file of
    each step holds the bytes that Playwright gave for the state of the
    step. *)
Theorem run_then_save (Ext : Type) (to_pixel : value -> Z -> res Z)
  (pw : Playwright Ext) (agent : WebNavAgent Ext) (task : string)
  (e e' : Ext) (trace : list Recorded) :
  run_browser Ext to_pixel pw agent task e = (Done trace, e') ->
  exists shots,
    Forall2 (fun r b => screenshot_b64 (r_state r) = b64encode b) trace shots
    /\ forall (out_dir : string) (w : fs_world),
         let run_dir := path_join out_dir (clock w) in
         save_run_files fs_world recording task trace out_dir w
         = (Done run_dir,
            mkFsWorld (clock w)
              (ops w ++ Makedirs (path_join run_dir "screenshots")
                 :: saved_from run_dir 0 shots
                 ++ [Open (path_join run_dir "summary.json");
                     Write (path_join run_dir "summary.json")
                       (Json (save_run task trace (clock w)));
                     Close (path_join run_dir "summary.json")])).
Proof.
  intros H. apply run_browser_encoded in H.
  apply Forall_exists_Forall2 in H as [shots H]. exists shots.
  split; [exact H|]. intros out_dir w. apply save_run_files_decoded.
  eapply Forall2_impl; [|exact H]. cbn. intros r b ->.
  apply b64decode_b64encode.
Qed.

Lemma run_then_save_witness :
  let trace :=
    [mkRecorded (mkBrowserState "iVBORw0KGgo=" "https://example.com")
       "Action: Finished()" (mkAction "Finished" [] None)] in
  exists shots,
    Forall2 (fun r b => screenshot_b64 (r_state r) = b64encode b) trace shots
    /\ forall (out_dir : string) (w : fs_world),
         let run_dir := path_join out_dir (clock w) in
         save_run_files fs_world recording "Book a flight" trace out_dir w
         = (Done run_dir,
            mkFsWorld (clock w)
              (ops w ++ Makedirs (path_join run_dir "screenshots")
                 :: saved_from run_dir 0 shots
                 ++ [Open (path_join run_dir "summary.json");
                     Write (path_join run_dir "summary.json")
                       (Json (save_run "Book a flight" trace (clock w)));
                     Close (path_join run_dir "summary.json")])).
Proof.
  intros trace.
  apply (run_then_save pw_world small_pixel logging quick_agent
           "Book a flight"
           (mkPwWorld [] (fun _ => None)
              (map byte_of [137; 80; 78; 71; 13; 10; 26; 10]%N)
              "https://example.com")
           (mkPwWorld
              [Start; Launch true; NewPage 1280 720; Goto "about:blank";
               Screenshot; Url; PageClose; BrowserClose; Stop]
              (fun _ => None)
              (map byte_of [137; 80; 78; 71; 13; 10; 26; 10]%N)
              "https://example.com")).
  vm_compute. reflexivity.
Defined.

Lemma print_all_console (lines : list string) (w : console) :
  print_all console console_print lines w
  = (Done tt, mkConsole (typed w) (printed w ++ lines) (shown w)).
Proof.
  revert w. induction lines as [|line lines IH]; intros w.
  - cbn. rewrite app_nil_r. now destruct w.
  - cbn [print_all]. unfold bindM. unfold console_print at 1.
    rewrite IH. cbn. now rewrite <- app_assoc.
Qed.

Lemma find_screenshot_skip (tail rest : list Message) :
  Forall (fun m => user_list m = None) tail ->
  find_screenshot (rev tail ++ rest) = find_screenshot rest.
Proof.
  intros H. apply Forall_rev in H. induction H as [|m l Hm _ IH];
    [reflexivity|].
  cbn [app find_screenshot]. now rewrite Hm.
Qed.

Lemma find_screenshot_built (conv tail : list Message) (st : BrowserState)
  (task : option string) :
  Forall (fun m => user_list m = None) tail ->
  find_screenshot (rev (conv ++ build_message st task :: tail))
  = Some ("data:image/png;base64," ++ screenshot_b64 st).
Proof.
  intros H. rewrite rev_app_distr. cbn [rev]. rewrite <- app_assoc.
  rewrite find_screenshot_skip by exact H. cbn [app find_screenshot].
  destruct task as [t|]; [destruct t|]; reflexivity.
Qed.

Lemma after_comma_data (shot : string) :
  after_comma ("data:image/png;base64," ++ shot) = Done shot.
Proof. reflexivity. Qed.

(** X25. The round trip of a screenshot through a request. When the last
    user message with a list content is one [build_message] made of a
    state of the [Browser] class, [mock_llm] shows the very bytes of the
    screenshot, prints the image as a placeholder among the lines of the
    transcript, reads one line and returns it, with [Action: ] put
    before it unless it starts with [Action:]. *)
Theorem mock_llm_shows_and_replies (conv tail : list Message)
  (st : BrowserState) (task : option string) (bytes : list byte)
  (line : string) (rest out : list string) (images : list (list byte)) :
  Forall (fun m => user_list m = None) tail ->
  screenshot_b64 st = b64encode bytes ->
  let request := (conv ++ build_message st task :: tail)%list in
  mock_llm console console_input console_print console_show request
    (mkConsole (line :: rest) out images)
  = (Done (reply_to line),
     mkConsole rest
       (out ++ [nl ++ ruler] ++ flat_map transcript_lines request
          ++ [ruler] ++ menu)
       (images ++ [bytes]))
  /\ startswith "Action:" (reply_to line) = true.
Proof.
  intros Ht Hs request. split.
  - unfold mock_llm. unfold request at 1.
    rewrite find_screenshot_built by exact Ht.
    rewrite after_comma_data. unfold show_screenshot.
    rewrite Hs, b64decode_b64encode.
    unfold bindM at 1. unfold console_show at 1. cbn [typed printed shown].
    unfold bindM at 1. unfold console_print at 1. cbn [typed printed shown].
    unfold bindM at 1. rewrite print_all_console. cbn [typed printed shown].
    unfold bindM at 1. unfold console_print at 1. cbn [typed printed shown].
    unfold bindM at 1. rewrite print_all_console. cbn [typed printed shown].
    unfold bindM, console_input, ret. cbn [typed printed shown is_empty].
    unfold reply_to. destruct (startswith "Action:" line); cbn [negb];
      now rewrite <- !app_assoc.
  - unfold reply_to. destruct (startswith "Action:" line) eqn:E;
      [exact E | reflexivity].
Qed.

Lemma mock_llm_shows_and_replies_witness :
  let request :=
    ([mkMessage "system" (Text "System prompt")]
     ++ build_message (mkBrowserState "iVBORw0KGgo=" "https://example.com")
          (Some "Book a flight")
     :: [mkMessage "assistant" (Text "Action: Wait()");
         user_text "Error: Please try a different action."])%list in
  mock_llm console console_input console_print console_show request
    (mkConsole ["Click(500, 300)"] [] [])
  = (Done (reply_to "Click(500, 300)"),
     mkConsole []
       ([] ++ [nl ++ ruler] ++ flat_map transcript_lines request
          ++ [ruler] ++ menu)
       ([] ++ [map byte_of [137; 80; 78; 71; 13; 10; 26; 10]%N]))
  /\ startswith "Action:" (reply_to "Click(500, 300)") = true.
Proof.
  intros request.
  apply (mock_llm_shows_and_replies
           [mkMessage "system" (Text "System prompt")]
           [mkMessage "assistant" (Text "Action: Wait()");
            user_text "Error: Please try a different action."]
           (mkBrowserState "iVBORw0KGgo=" "https://example.com")
           (Some "Book a flight")
           (map byte_of [137; 80; 78; 71; 13; 10; 26; 10]%N)
           "Click(500, 300)" [] [] []).
  - repeat constructor.
  - reflexivity.
Defined.

Lemma word_not_colon (c : ascii) :
  is_word c = true -> (":" =? c)%char = false /\ ("(" =? c)%char = false.
Proof. destruct c as [[] [] [] [] [] [] [] []]; vm_compute; auto; discriminate. Qed.

Lemma call_not_prefixed (n r : string) :
  all is_word n = true -> startswith "Action:" (n ++ "(" ++ r) = false.
Proof.
  intros H.
  do 7 (destruct n as [|?c n];
        [cbn; rewrite ?andb_false_r; reflexivity
        |cbn [all] in H; apply andb_prop in H as [?Hc H]]).
  cbn [append startswith].
  destruct (word_not_colon c5 Hc5) as [-> _].
  cbn. now rewrite ?andb_false_r.
Qed.

(** X26. A call typed the way the menu of [mock_llm] shows it, a name and
    arguments in parentheses, reaches the parser as that call: the
    prefix is added, and the action parsed is the one of the call. *)
Theorem typed_call_is_parsed (n a : string) :
  all is_word n = true ->
  reply_to (n ++ "(" ++ a ++ ")") = call_text n a
  /\ parse_action (reply_to (n ++ "(" ++ a ++ ")"))
     = parse_action (call_text n a).
Proof.
  intros Hw. assert (E : reply_to (n ++ "(" ++ a ++ ")") = call_text n a).
  { unfold reply_to. now rewrite call_not_prefixed. }
  split; [exact E | now rewrite E].
Qed.

Lemma typed_call_is_parsed_witness :
  reply_to ("Click" ++ "(" ++ "500, 300" ++ ")") = call_text "Click" "500, 300"
  /\ parse_action (reply_to ("Click" ++ "(" ++ "500, 300" ++ ")"))
     = parse_action (call_text "Click" "500, 300").
Proof.
  apply (typed_call_is_parsed "Click" "500, 300"). reflexivity.
Defined.


Section Steady.
Variable Ext : Type.
Variable to_pixel : value -> Z -> res Z.
Variable pw : Playwright Ext.
Hypothesis pw_steady : steady pw.

Lemma call_safe {A} (m : M Ext A) (o : BrowserObject) (e : Ext) :
  safe m -> exists a e', call Ext m (o, e) = (Done a, (o, e')).
Proof.
  intros H. destruct (H e) as (a & e' & E). exists a, e'.
  unfold call. cbn [fst snd]. now rewrite E.
Qed.

Lemma call_object {A} (m : M Ext A) (w : World Ext) :
  fst (snd (call Ext m w)) = fst w.
Proof. unfold call. now destruct (m (snd w)). Qed.

Lemma get_state_started (o : BrowserObject) (e : Ext) :
  _page o = true ->
  exists st e', get_state Ext pw (o, e) = (Done st, (o, e')).
Proof.
  intros Hp. destruct pw_steady as (_ & _ & _ & _ & Hshot & Hurl & _).
  unfold get_state, bindM. rewrite page_set by exact Hp.
  destruct (call_safe _ o e Hshot) as (bytes & e1 & ->).
  rewrite page_set by exact Hp.
  destruct (call_safe _ o e1 Hurl) as (u & e2 & ->).
  unfold ret. eauto.
Qed.

Lemma start_started (url : string) (w : World Ext) :
  exists st w', start Ext pw url w = (Done st, w') /\ _page (fst w') = true.
Proof.
  destruct w as [o e].
  destruct pw_steady as (H1 & H2 & H3 & H4 & _).
  unfold start, bindM.
  destruct (call_safe _ o e H1) as ([] & e1 & ->).
  unfold assign at 1, self at 1. cbn [fst snd _headless].
  match goal with
  | |- context [call Ext ?m (?o1, e1)] =>
      destruct (call_safe m o1 e1 (H2 _)) as ([] & e2 & ->)
  end.
  unfold assign at 1, self at 1. cbn [fst snd viewport_width viewport_height].
  match goal with
  | |- context [call Ext ?m (?o2, e2)] =>
      destruct (call_safe m o2 e2 (H3 _ _)) as ([] & e3 & ->)
  end.
  unfold assign at 1. cbn [fst snd].
  match goal with
  | |- context [call Ext ?m (?o3, e3)] =>
      destruct (call_safe m o3 e3 (H4 url)) as ([] & e4 & ->);
      destruct (get_state_started o3 e4 eq_refl) as (st & e5 & ->)
  end.
  eexists _, _. split; reflexivity.
Qed.

Lemma page_object (w : World Ext) : fst (snd (page Ext w)) = fst w.
Proof.
  destruct w as [o e]. unfold page, bindM, self. cbn [fst snd].
  now destruct (_page o).
Qed.

(** The actions of the class do not write to the object. *)
Lemma actions_keep_object (w : World Ext) :
  (forall x y, fst (snd (click Ext to_pixel pw x y w)) = fst w)
  /\ (forall x y d, fst (snd (scroll Ext to_pixel pw x y d w)) = fst w)
  /\ (forall c, fst (snd (type_text Ext pw c w)) = fst w)
  /\ (forall k, fst (snd (press_key Ext pw k w)) = fst w).
Proof.
  destruct w as [o e]. repeat split; intros.
  - unfold click, bindM, self, pure. cbn [fst snd].
    destruct (to_pixel x _); [|reflexivity].
    destruct (to_pixel y _); [|reflexivity].
    unfold page, bindM, self. cbn [fst snd].
    destruct (_page o); [|reflexivity]. unfold ret.
    apply (call_object _ (o, e)).
  - unfold scroll, bindM, self, pure. cbn [fst snd].
    destruct (to_pixel x _); [|reflexivity].
    destruct (to_pixel y _); [|reflexivity].
    unfold page, bindM, self. cbn [fst snd].
    destruct (_page o) eqn:Hp; [|reflexivity]. unfold ret.
    unfold call. cbn [fst snd].
    match goal with
    | |- context [mouse_move Ext pw ?a ?b e] =>
        destruct (mouse_move Ext pw a b e) as [[[]|?] e1]
    end; [|reflexivity].
    cbn [fst snd]. rewrite Hp. cbv beta iota. cbn [fst snd].
    match goal with
    | |- context [mouse_wheel Ext pw ?a ?b e1] =>
        destruct (mouse_wheel Ext pw a b e1) as [[[]|?] e2]
    end; reflexivity.
  - unfold type_text, page. unfold bindM, self. cbn [fst snd].
    destruct (_page o); [|reflexivity]. unfold ret.
    apply (call_object _ (o, e)).
  - unfold press_key, page. unfold bindM, self. cbn [fst snd].
    destruct (_page o); [|reflexivity]. unfold ret.
    apply (call_object _ (o, e)).
Qed.

Lemma run_browser_returns (agent : WebNavAgent Ext) (task : string) :
  (forall request, safe (llm_fn Ext agent request)) ->
  (forall prompt, safe (user_input_fn Ext agent prompt)) ->
  safe (run_browser Ext to_pixel pw agent task).
Proof.
  intros Hl Hu e. unfold run_browser.
  destruct (run_returns (World Ext) (beside Ext agent)
              (browser Ext to_pixel pw) (fun w => _page (fst w) = true))
    with (task := task) (w := (init (headless Ext agent) 1280 720, e))
    as (trace & w' & ->).
  - intros request [o e0] Hp. cbn [fst] in Hp. cbn [beside llm_fn].
    destruct (call_safe _ o e0 (Hl request)) as (r & e1 & ->). eauto.
  - intros prompt [o e0] Hp. cbn [fst] in Hp. cbn [beside user_input_fn].
    destruct (call_safe _ o e0 (Hu prompt)) as (r & e1 & ->). eauto.
  - intros [o e0] Hp. cbn [fst] in Hp. cbn [browser Agent.get_state].
    destruct (get_state_started o e0 Hp) as (st & e1 & ->). eauto.
  - intros ms [o e0] Hp. cbn [fst] in Hp. cbn [browser Agent.wait].
    destruct pw_steady as (_ & _ & _ & _ & _ & _ & Hw & _).
    unfold wait, bindM. rewrite page_set by exact Hp.
    destruct (call_safe _ o e0 (Hw ms)) as ([] & e1 & ->). eauto.
  - intros x y w Hp. cbn [browser Agent.click].
    destruct (actions_keep_object w) as (H & _). now rewrite H.
  - intros x y d w Hp. cbn [browser Agent.scroll].
    destruct (actions_keep_object w) as (_ & H & _). now rewrite H.
  - intros c w Hp. cbn [browser Agent.type_text].
    destruct (actions_keep_object w) as (_ & _ & H & _). now rewrite H.
  - intros k w Hp. cbn [browser Agent.press_key].
    destruct (actions_keep_object w) as (_ & _ & _ & H). now rewrite H.
  - intros url w. cbn [browser Agent.start]. apply start_started.
  - intros [o e0] Hp. cbn [fst] in Hp. cbn [browser Agent.close].
    destruct pw_steady as (_ & _ & _ & _ & _ & _ & _ & Hc1 & Hc2 & Hc3).
    unfold close, bindM, self. cbn [fst snd]. rewrite Hp.
    destruct (call_safe _ o e0 Hc1) as ([] & e1 & ->).
    destruct (_browser o).
    + destruct (call_safe _ o e1 Hc2) as ([] & e2 & ->).
      destruct (_playwright o).
      * destruct (call_safe _ o e2 Hc3) as ([] & e3 & ->). eauto.
      * unfold ret. eauto.
    + unfold ret at 1. destruct (_playwright o).
      * destruct (call_safe _ o e1 Hc3) as ([] & e3 & ->). eauto.
      * unfold ret. eauto.
  - eauto.
Qed.
End Steady.

Section Sound.
Variable Ext : Type.
Variable fs : FileSystem Ext.
Hypothesis fs_sound : sound fs.

Lemma save_steps_returns (dir : string) (steps : list Recorded) :
  Forall (fun r => exists bytes, screenshot_b64 (r_state r) = b64encode bytes)
    steps ->
  forall i, safe (save_steps Ext fs dir i steps).
Proof.
  destruct fs_sound as (_ & _ & Ho & Hw & Hc).
  induction 1 as [|s steps [bytes Hs] _ IH]; intros i e.
  - cbn. unfold ret. eauto.
  - cbn [save_steps]. unfold bindM at 1. unfold with_open.
    rewrite Hs, b64decode_b64encode.
    set (path := path_join dir ("step_" ++ fmt_02d i ++ ".png")).
    destruct (Ho path e) as ([] & e1 & ->).
    destruct (Hw path (Bytes bytes) e1) as ([] & e2 & ->).
    destruct (Hc path e2) as ([] & e3 & ->).
    unfold bindM. destruct (IH (S i) e3) as (records & e4 & ->).
    unfold ret. eauto.
Qed.

Lemma save_run_files_returns (task out_dir : string) (steps : list Recorded) :
  Forall (fun r => exists bytes, screenshot_b64 (r_state r) = b64encode bytes)
    steps ->
  safe (save_run_files Ext fs task steps out_dir).
Proof.
  intros H e. pose proof fs_sound as (Hn & Hm & Ho & Hw & Hc).
  unfold save_run_files, bindM.
  destruct (Hn e) as (ts & e1 & ->).
  set (run_dir := path_join out_dir ts).
  destruct (Hm (path_join run_dir "screenshots") e1) as ([] & e2 & ->).
  destruct (save_steps_returns (path_join run_dir "screenshots") steps H 0 e2)
    as (records & e3 & ->).
  unfold with_open.
  destruct (Ho (path_join run_dir "summary.json") e3) as ([] & e4 & ->).
  destruct (Hw (path_join run_dir "summary.json")
              (Json (mkSummary task ts (len steps) records)) e4)
    as ([] & e5 & ->).
  destruct (Hc (path_join run_dir "summary.json") e5) as ([] & e6 & ->).
  unfold ret. eauto.
Qed.
End Sound.

(** X28. The script of run.py raises only what the world outside raises.
    When the console, the model's API, the file system and Playwright's
    calls for the browser, the page and the timer return, the script
    returns: no reply of the model, no failing mouse or keyboard action
    and no screenshot can make the run or the saving of it raise. *)
Theorem main_survives (Ext : Type) (to_pixel : value -> Z -> res Z)
  (pw : Playwright Ext) (fs : FileSystem Ext)
  (input : string -> M Ext string) (print : string -> M Ext unit)
  (call_llm : list Message -> M Ext string) :
  steady pw -> sound fs ->
  (forall prompt, safe (input prompt)) ->
  (forall line, safe (print line)) ->
  (forall request, safe (call_llm request)) ->
  safe (main Ext to_pixel pw fs input print call_llm).
Proof.
  intros Hpw Hfs Hin Hpr Hllm e. unfold main, bindM.
  destruct (Hin "Task: " e) as (line & e1 & ->).
  destruct (run_browser_returns Ext to_pixel pw Hpw
              (default_agent Ext input call_llm) (strip line) Hllm Hin e1)
    as (trace & e2 & E).
  rewrite E. apply run_browser_encoded in E.
  destruct (save_run_files_returns Ext fs Hfs (strip line) "results" trace E e2)
    as (run_dir & e3 & ->).
  apply Hpr.
Qed.

Lemma main_survives_witness :
  safe (main unit small_pixel silent_pw silent_fs
          (fun _ => ret unit " Book a flight ")
          (fun _ => ret unit tt)
          (fun _ => ret unit "Action: Click(ten, ten)")).
Proof.
  apply (main_survives unit small_pixel silent_pw silent_fs
           (fun _ => ret unit " Book a flight ")
           (fun _ => ret unit tt)
           (fun _ => ret unit "Action: Click(ten, ten)")).
  - repeat split; intros; intros ?; eexists; eexists; reflexivity.
  - repeat split; intros; intros ?; eexists; eexists; reflexivity.
  - intros prompt w. eexists; eexists; reflexivity.
  - intros line w. eexists; eexists; reflexivity.
  - intros request w. eexists; eexists; reflexivity.
Defined.

End ProgramProofs.
